(** * DataGen WebSocket bridge: a shallow embedding of [server_socket.py]

    The embedding follows the layout of the Python module:
    - [Py]: the pieces of the Python runtime the module relies on
      (text as code points, exceptions and their classes, [str.strip],
      decimal rendering of [int], [random.randint], list indexing);
    - [Json]: the value type of the [json] package, [json.dumps] with the
      option sets used in the module, and [json.loads];
    - [Tools]: files as [open] sees them in text mode (universal
      newlines on reading), [write_json], [read_json],
      [generate_sample_users];
    - [Bridge]: the connection handler and the [CONNECTIONS] registry.

    It is followed by the predicates and sample inputs the statements
    use, and then by the properties themselves: first those that the
    specification states (C1 to C10), then further properties of the
    same functions, read off the code (X1 to X17).

    [main] is not embedded: it reads [WS_HOST] and [WS_PORT] from the
    environment, prints a banner and hands [handler] to
    [websockets.serve]; the agent and the language model behind it
    appear only as the function that [agent.invoke] is to the handler.
    The resource limits of the interpreter (the recursion depth, the
    cap on the digits of an integer literal, memory) are not modelled
    either: the decoder reads documents of any depth. *)

From Stdlib Require Import ZArith Lia List String Ascii Bool.
From Stdlib Require Import Decimal DecimalFacts DecimalN DecimalZ.
From stdpp Require Import base option list gmap.

Local Open Scope Z_scope.
Local Open Scope list_scope.

(* ===================================================================== *)
(** ** The Python runtime                                                 *)
(* ===================================================================== *)

Module Py.

(** A [str] is a sequence of Unicode code points. *)
Definition str := list Z.

(** A literal of the source, one code point per character; only used on
    ASCII literals. *)
Definition lit (s : string) : str :=
  List.map (fun a => Z.of_N (N_of_ascii a)) (list_ascii_of_string s).

(** A literal that contains double quotes, written with apostrophes in
    their place. *)
Definition qlit (s : string) : str :=
  List.map (fun c => if c =? 39 then 34 else c) (lit s).

(** Exception classes that the module can meet.  [OtherException] stands
    for any further subclass of [Exception] (the agent runtime and the
    HTTP client raise their own). *)
Inductive exc_class :=
| FileNotFoundError
| IsADirectoryError
| PermissionError
| UnicodeDecodeError
| UnicodeEncodeError
| JSONDecodeError
| AttributeError
| TypeError
| ValueError
| IndexError
| ZeroDivisionError
| ConnectionClosed
| OtherException (name : string)
| CancelledError
| KeyboardInterrupt
| SystemExit.

(** An exception object: its class and the text of [str(e)]. *)
Record exn := Exn { exc_type : exc_class; exc_str : str }.

(** [isinstance(e, Exception)]: false for the three classes that derive
    from [BaseException] directly. *)
Definition is_Exception (e : exn) : bool :=
  match exc_type e with
  | CancelledError | KeyboardInterrupt | SystemExit => false
  | _ => true
  end.

Definition is_FileNotFoundError (e : exn) : bool :=
  match exc_type e with FileNotFoundError => true | _ => false end.

Definition is_JSONDecodeError (e : exn) : bool :=
  match exc_type e with JSONDecodeError => true | _ => false end.

(** The outcome of evaluating an expression: a value or a raised
    exception. *)
Inductive result (A : Type) :=
| Ok (a : A)
| Raise (e : exn).
Arguments Ok {A} a.
Arguments Raise {A} e.

Definition rbind {A B} (r : result A) (k : A -> result B) : result B :=
  match r with
  | Ok a => k a
  | Raise e => Raise e
  end.

(** *** [str(int)] *)

Fixpoint uint_chars (d : Decimal.uint) : str :=
  match d with
  | Nil => []
  | D0 d => 48 :: uint_chars d
  | D1 d => 49 :: uint_chars d
  | D2 d => 50 :: uint_chars d
  | D3 d => 51 :: uint_chars d
  | D4 d => 52 :: uint_chars d
  | D5 d => 53 :: uint_chars d
  | D6 d => 54 :: uint_chars d
  | D7 d => 55 :: uint_chars d
  | D8 d => 56 :: uint_chars d
  | D9 d => 57 :: uint_chars d
  end.

Definition str_of_int (z : Z) : str :=
  match Z.to_int z with
  | Decimal.Pos d => uint_chars d
  | Decimal.Neg d => 45 :: uint_chars d
  end.

(** *** [str.strip()] *)

(** [str.isspace] on one code point: the characters CPython classifies
    as whitespace. *)
Definition isspace (c : Z) : bool :=
  ((9 <=? c) && (c <=? 13)) || ((28 <=? c) && (c <=? 32))
  || (c =? 133) || (c =? 160) || (c =? 5760)
  || ((8192 <=? c) && (c <=? 8202))
  || (c =? 8232) || (c =? 8233) || (c =? 8239) || (c =? 8287)
  || (c =? 12288).

Fixpoint lstrip (s : str) : str :=
  match s with
  | c :: s' => if isspace c then lstrip s' else s
  | [] => []
  end.

Definition rstrip (s : str) : str := rev (lstrip (rev s)).

Definition strip (s : str) : str := rstrip (lstrip s).

(** *** Indexing and arithmetic that can raise *)

(** [l[i]], with Python's negative indices. *)
Definition getitem {A} (l : list A) (i : Z) : result A :=
  let j := if i <? 0 then i + Z.of_nat (length l) else i in
  if j <? 0 then Raise (Exn IndexError (lit "list index out of range"))
  else match l !! Z.to_nat j with
       | Some x => Ok x
       | None => Raise (Exn IndexError (lit "list index out of range"))
       end.

(** [a % b]: floor modulo, [ZeroDivisionError] on a zero divisor. *)
Definition py_mod (a b : Z) : result Z :=
  if b =? 0 then Raise (Exn ZeroDivisionError (lit "integer modulo by zero"))
  else Ok (a mod b).

Definition len {A} (l : list A) : Z := Z.of_nat (length l).

(** *** The process environment the tools draw from

    [random] is a source of integers and [datetime.now()] a source of
    clock readings (microseconds); each call consumes the next one. *)
Record world := World {
  entropy : nat -> Z;
  drawn : nat;
  clock : nat -> Z;
  read : nat
}.

(** Computations that read the environment and may raise. *)
Definition M (A : Type) : Type := world -> result A * world.

Definition ret {A} (a : A) : M A := fun w => (Ok a, w).

Definition raise {A} (e : exn) : M A := fun w => (Raise e, w).

Definition bind {A B} (m : M A) (k : A -> M B) : M B :=
  fun w => match m w with
           | (Ok a, w') => k a w'
           | (Raise e, w') => (Raise e, w')
           end.

Definition lift {A} (r : result A) : M A := fun w => (r, w).

(** [random.randint(a, b)]: [a + randbelow(b - a + 1)], [ValueError] on
    an empty range. *)
Definition randint (a b : Z) : M Z :=
  fun w =>
    if b <? a then
      (Raise (Exn ValueError (lit "empty range in randrange")), w)
    else
      (Ok (a + entropy w (drawn w) mod (b - a + 1)),
       World (entropy w) (S (drawn w)) (clock w) (read w)).

(** [datetime.now()], as microseconds on the local time line. *)
Definition datetime_now : M Z :=
  fun w => (Ok (clock w (read w)),
            World (entropy w) (drawn w) (clock w) (S (read w))).

(** [dt - timedelta(days=d)]. *)
Definition minus_days (dt d : Z) : Z := dt - d * 86400000000.

End Py.

Export Py.

Declare Scope py_scope.
Notation "x <- m ;; k" := (bind m (fun x => k))
  (at level 100, m at next level, right associativity) : py_scope.
Local Open Scope py_scope.

(* ===================================================================== *)
(** ** The [json] package                                                 *)
(* ===================================================================== *)

Module Json.

(** A [float]: a finite one is kept as the numeral that [float.__repr__]
    renders for it; binary64 arithmetic is not reproduced. *)
Inductive float :=
| Finite (numeral : str)
| NaN
| Infinity
| NegInfinity.

(** The Python values that [json.loads] builds: [None], [bool], [int],
    [float], [str], [list] and [dict] with [str] keys.  A [dict] keeps
    its items in insertion order. *)
#[warnings="-register-all"]
Inductive json :=
| JNull
| JBool (b : bool)
| JInt (n : Z)
| JFloat (f : float)
| JStr (s : str)
| JList (items : list json)
| JDict (items : list (str * json)).

(** *** dict operations *)

Definition str_eqb (a b : str) : bool := bool_decide (a = b).

(** [d[k] = v]: replaces in place, or appends a new key. *)
Fixpoint dict_set (d : list (str * json)) (k : str) (v : json)
  : list (str * json) :=
  match d with
  | [] => [(k, v)]
  | (k', v') :: d' =>
      if str_eqb k k' then (k', v) :: d' else (k', v') :: dict_set d' k v
  end.

(** [dict(pairs)]. *)
Definition dict_of_pairs (pairs : list (str * json)) : list (str * json) :=
  fold_left (fun d kv => dict_set d (fst kv) (snd kv)) pairs [].

(** [d.get(k)], [None] as [None]. *)
Fixpoint dict_get (d : list (str * json)) (k : str) : option json :=
  match d with
  | [] => None
  | (k', v) :: d' => if str_eqb k k' then Some v else dict_get d' k
  end.

(** *** Encoding *)

Record dump_opts := DumpOpts {
  ensure_ascii : bool;
  indent : option nat
}.

(** [json.dumps(obj)]. *)
Definition compact : dump_opts := DumpOpts true None.
(** [json.dump(obj, f, indent=2, ensure_ascii=False)]. *)
Definition pretty_unicode : dump_opts := DumpOpts false (Some 2%nat).
(** [json.dumps(obj, indent=2)]. *)
Definition pretty_ascii : dump_opts := DumpOpts true (Some 2%nat).

Definition hexdigit (d : Z) : Z := if d <? 10 then 48 + d else 87 + d.

(** ['\\u{0:04x}'.format(n)] for [n < 0x10000]. *)
Definition escape_u (n : Z) : str :=
  [92; 117; hexdigit (n / 4096); hexdigit ((n / 256) mod 16);
   hexdigit ((n / 16) mod 16); hexdigit (n mod 16)].

(** [ESCAPE_DCT]: the short escapes, then [\u00XX] for the other control
    characters. *)
Definition escape_dct (c : Z) : option str :=
  if c =? 92 then Some [92; 92]
  else if c =? 34 then Some [92; 34]
  else if c =? 8 then Some [92; 98]
  else if c =? 12 then Some [92; 102]
  else if c =? 10 then Some [92; 110]
  else if c =? 13 then Some [92; 114]
  else if c =? 9 then Some [92; 116]
  else if (0 <=? c) && (c <? 32) then Some (escape_u c)
  else None.

(** One character of [py_encode_basestring] ([ensure_ascii=False]). *)
Definition encode_char (c : Z) : str :=
  match escape_dct c with
  | Some e => e
  | None => [c]
  end.

(** One character of [py_encode_basestring_ascii]. *)
Definition encode_char_ascii (c : Z) : str :=
  match escape_dct c with
  | Some e => e
  | None =>
      if (32 <=? c) && (c <=? 126) then [c]
      else if c <? 65536 then escape_u c
      else
        let n := c - 65536 in
        let s1 := Z.lor 55296 (Z.land (Z.shiftr n 10) 1023) in
        let s2 := Z.lor 56320 (Z.land n 1023) in
        escape_u s1 ++ escape_u s2
  end.

Definition encode_str (o : dump_opts) (s : str) : str :=
  34 :: flat_map (if ensure_ascii o then encode_char_ascii else encode_char) s
     ++ [34].

(** [floatstr]. *)
Definition floatstr (f : float) : str :=
  match f with
  | Finite numeral => numeral
  | NaN => lit "NaN"
  | Infinity => lit "Infinity"
  | NegInfinity => lit "-Infinity"
  end.

Definition item_separator (o : dump_opts) : str :=
  match indent o with
  | Some _ => lit ","
  | None => lit ", "
  end.

Definition key_separator : str := lit ": ".

(** ['\n' + indent * level], empty without [indent]. *)
Definition newline_indent (o : dump_opts) (level : nat) : str :=
  match indent o with
  | Some k => 10 :: repeat 32 (k * level)
  | None => []
  end.

(** The encoder of [JSONEncoder.iterencode], with the text of all chunks
    concatenated.  [level] is [_current_indent_level]. *)
Fixpoint encode (o : dump_opts) (level : nat) (v : json) : str :=
  match v with
  | JNull => lit "null"
  | JBool true => lit "true"
  | JBool false => lit "false"
  | JInt n => str_of_int n
  | JFloat f => floatstr f
  | JStr s => encode_str o s
  | JList [] => lit "[]"
  | JList (x :: xs) =>
      lit "[" ++ newline_indent o (S level) ++ encode o (S level) x
      ++ (fix rest (l : list json) : str :=
            match l with
            | [] => []
            | y :: l' =>
                item_separator o ++ newline_indent o (S level)
                ++ encode o (S level) y ++ rest l'
            end) xs
      ++ newline_indent o level ++ lit "]"
  | JDict [] => lit "{}"
  | JDict ((k, x) :: xs) =>
      lit "{" ++ newline_indent o (S level)
      ++ encode_str o k ++ key_separator ++ encode o (S level) x
      ++ (fix rest (l : list (str * json)) : str :=
            match l with
            | [] => []
            | (k', y) :: l' =>
                item_separator o ++ newline_indent o (S level)
                ++ encode_str o k' ++ key_separator
                ++ encode o (S level) y ++ rest l'
            end) xs
      ++ newline_indent o level ++ lit "}"
  end.

Definition dumps (o : dump_opts) (v : json) : str := encode o 0 v.

(** *** Decoding *)

(** The outcome of a scanner: a value and the rest of the input, or a
    message and the input left at the position the error names. *)
Inductive scan (A : Type) :=
| Scanned (a : A) (rest : str)
| Failed (msg : string) (at_ : str).
Arguments Scanned {A} a rest.
Arguments Failed {A} msg at_.

Definition is_ws (c : Z) : bool :=
  (c =? 32) || (c =? 9) || (c =? 10) || (c =? 13).

(** [WHITESPACE.match(s, idx).end()]. *)
Fixpoint skip_ws (s : str) : str :=
  match s with
  | c :: s' => if is_ws c then skip_ws s' else s
  | [] => []
  end.

Definition is_digit (c : Z) : bool := (48 <=? c) && (c <=? 57).

Definition digit_cons (c : Z) (d : Decimal.uint) : Decimal.uint :=
  if c =? 48 then D0 d else if c =? 49 then D1 d
  else if c =? 50 then D2 d else if c =? 51 then D3 d
  else if c =? 52 then D4 d else if c =? 53 then D5 d
  else if c =? 54 then D6 d else if c =? 55 then D7 d
  else if c =? 56 then D8 d else D9 d.

(** The longest prefix of digits and what follows it. *)
Fixpoint span_digits (s : str) : str * str :=
  match s with
  | c :: s' =>
      if is_digit c then
        let '(ds, rest) := span_digits s' in (c :: ds, rest)
      else ([], s)
  | [] => ([], [])
  end.

Fixpoint uint_of_chars (ds : str) : Decimal.uint :=
  match ds with
  | [] => Nil
  | c :: ds' => digit_cons c (uint_of_chars ds')
  end.

(** [int(lexeme)] for an optional minus sign and a digit string. *)
Definition int_of_lexeme (negative : bool) (ds : str) : Z :=
  Z.of_int (if negative then Decimal.Neg (uint_of_chars ds)
            else Decimal.Pos (uint_of_chars ds)).

(** The optional fraction: a dot and at least one digit. *)
Definition match_frac (s : str) : str * str :=
  match s with
  | dot :: c :: s' =>
      if (dot =? 46) && is_digit c then
        let '(ds, rest) := span_digits (c :: s') in (dot :: ds, rest)
      else ([], s)
  | _ => ([], s)
  end.

(** The optional exponent: [e] or [E], an optional sign and at least
    one digit. *)
Definition match_exp (s : str) : str * str :=
  match s with
  | e :: s1 =>
      if (e =? 101) || (e =? 69) then
        match s1 with
        | c :: s2 =>
            if (c =? 45) || (c =? 43) then
              match s2 with
              | c2 :: _ =>
                  if is_digit c2 then
                    let '(ds, rest) := span_digits s2 in
                    (e :: c :: ds, rest)
                  else ([], s)
              | [] => ([], s)
              end
            else if is_digit c then
              let '(ds, rest) := span_digits s1 in (e :: ds, rest)
            else ([], s)
        | [] => ([], s)
        end
      else ([], s)
  | [] => ([], s)
  end.

(** The integer part: an optional minus sign, then a single zero or a
    digit string without leading zero. *)
Definition match_integer (s : str) : option (bool * str * str) :=
  let '(negative, s1) :=
    match s with
    | c :: s' => if c =? 45 then (true, s') else (false, s)
    | [] => (false, s)
    end in
  match s1 with
  | c :: s2 =>
      if c =? 48 then Some (negative, [c], s2)
      else if is_digit c then
        let '(ds, rest) := span_digits s1 in Some (negative, ds, rest)
      else None
  | [] => None
  end.

(** [NUMBER_RE.match]: the integer part and the optional fraction and
    exponent; [int] for a bare integer and [float] otherwise.  The float
    is kept as the numeral that was read. *)
Definition match_number (s : str) : option (json * str) :=
  match match_integer s with
  | None => None
  | Some (negative, ds, rest) =>
      let '(frac, rest1) := match_frac rest in
      let '(exp, rest2) := match_exp rest1 in
      match frac, exp with
      | [], [] => Some (JInt (int_of_lexeme negative ds), rest2)
      | _, _ =>
          Some (JFloat (Finite ((if negative then [45] else [])
                                ++ ds ++ frac ++ exp)), rest2)
      end
  end.

Definition hexval (c : Z) : option Z :=
  if (48 <=? c) && (c <=? 57) then Some (c - 48)
  else if (97 <=? c) && (c <=? 102) then Some (c - 87)
  else if (65 <=? c) && (c <=? 70) then Some (c - 55)
  else None.

(** [_decode_uXXXX]: four hexadecimal digits. *)
Definition decode_uXXXX (a b c d : Z) : option Z :=
  match hexval a, hexval b, hexval c, hexval d with
  | Some x, Some y, Some z, Some w => Some (((x * 16 + y) * 16 + z) * 16 + w)
  | _, _, _, _ => None
  end.

(** [BACKSLASH]: the one-letter escapes. *)
Definition backslash (c : Z) : option Z :=
  if c =? 34 then Some 34 else if c =? 92 then Some 92
  else if c =? 47 then Some 47 else if c =? 98 then Some 8
  else if c =? 102 then Some 12 else if c =? 110 then Some 10
  else if c =? 114 then Some 13 else if c =? 116 then Some 9
  else None.

(** [scanstring(s, end, strict=True)], entered after the opening quote;
    [begin] is the input from that quote on and [acc] the reversed
    characters read so far. *)
Fixpoint scanstring (begin : str) (acc : str) (s : str) : scan str :=
  match s with
  | [] => Failed "Unterminated string starting at" begin
  | c :: s1 =>
      if c =? 34 then Scanned (rev acc) s1
      else if (0 <=? c) && (c <? 32) then
        Failed "Invalid control character at" s
      else if c =? 92 then
        match s1 with
        | [] => Failed "Unterminated string starting at" begin
        | esc :: s2 =>
            if esc =? 117 then
              match s2 with
              | h1 :: h2 :: h3 :: h4 :: s3 =>
                  match decode_uXXXX h1 h2 h3 h4 with
                  | None => Failed "Invalid \uXXXX escape" s1
                  | Some uni =>
                      if (55296 <=? uni) && (uni <=? 56319) then
                        match s3 with
                        | b :: u :: s4 =>
                            if (b =? 92) && (u =? 117) then
                              match s4 with
                              | l1 :: l2 :: l3 :: l4 :: s5 =>
                                  match decode_uXXXX l1 l2 l3 l4 with
                                  | None =>
                                      Failed "Invalid \uXXXX escape" (u :: s4)
                                  | Some uni2 =>
                                      if (56320 <=? uni2) && (uni2 <=? 57343)
                                      then
                                        scanstring begin
                                          (65536
                                           + Z.lor (Z.shiftl (uni - 55296) 10)
                                                   (uni2 - 56320) :: acc) s5
                                      else scanstring begin (uni :: acc) s3
                                  end
                              | _ => Failed "Invalid \uXXXX escape" (u :: s4)
                              end
                            else scanstring begin (uni :: acc) s3
                        | _ => scanstring begin (uni :: acc) s3
                        end
                      else scanstring begin (uni :: acc) s3
                  end
              | _ => Failed "Invalid \uXXXX escape" s1
              end
            else
              match backslash esc with
              | Some ch => scanstring begin (ch :: acc) s2
              | None => Failed "Invalid \escape" s
              end
        end
      else scanstring begin (c :: acc) s1
  end.

Fixpoint starts_with (p s : str) : option str :=
  match p, s with
  | [], _ => Some s
  | a :: p', b :: s' => if a =? b then starts_with p' s' else None
  | _ :: _, [] => None
  end.

(** The constants and numbers of [scan_once], in the order it tries
    them. *)
Definition scan_atom (s : str) : scan json :=
  match starts_with (lit "null") s with
  | Some rest => Scanned JNull rest
  | None =>
  match starts_with (lit "true") s with
  | Some rest => Scanned (JBool true) rest
  | None =>
  match starts_with (lit "false") s with
  | Some rest => Scanned (JBool false) rest
  | None =>
  match match_number s with
  | Some (v, rest) => Scanned v rest
  | None =>
  match starts_with (lit "NaN") s with
  | Some rest => Scanned (JFloat NaN) rest
  | None =>
  match starts_with (lit "Infinity") s with
  | Some rest => Scanned (JFloat Infinity) rest
  | None =>
  match starts_with (lit "-Infinity") s with
  | Some rest => Scanned (JFloat NegInfinity) rest
  | None => Failed "Expecting value" s
  end end end end end end end.

(** The message of a scanner that was given too little fuel. *)
Definition exhausted : string := "maximum recursion depth exceeded".

(** [scan_once], [JSONArray] and [JSONObject].  [fuel] bounds the number
    of values and items entered: every value and every item takes one
    unit and at least one character, so [decode] supplies twice the
    length of the input.  [StopIteration] is reported as its
    ["Expecting value"]. *)
Fixpoint scan_once (fuel : nat) (s : str) : scan json :=
  match fuel with
  | O => Failed exhausted s
  | S fuel' =>
      match s with
      | [] => Failed "Expecting value" s
      | c :: s1 =>
          if c =? 34 then
            match scanstring s [] s1 with
            | Scanned t rest => Scanned (JStr t) rest
            | Failed m a => Failed m a
            end
          else if c =? 123 then
            (* JSONObject *)
            match skip_ws s1 with
            | c2 :: rest =>
                if c2 =? 125 then Scanned (JDict []) rest
                else object_items fuel' [] (c2 :: rest)
            | [] => object_items fuel' [] []
            end
          else if c =? 91 then
            (* JSONArray *)
            match skip_ws s1 with
            | c2 :: rest =>
                if c2 =? 93 then Scanned (JList []) rest
                else array_items fuel' [] (c2 :: rest)
            | [] => array_items fuel' [] []
            end
          else scan_atom s
      end
  end

(** The loop of [JSONArray], at the start of a value; [acc] holds the
    values read so far, reversed. *)
with array_items (fuel : nat) (acc : list json) (s : str) : scan json :=
  match fuel with
  | O => Failed exhausted s
  | S fuel' =>
      match scan_once fuel' s with
      | Failed m a => Failed m a
      | Scanned v rest =>
          match skip_ws rest with
          | c :: rest' =>
              if c =? 93 then Scanned (JList (rev (v :: acc))) rest'
              else if c =? 44 then
                array_items fuel' (v :: acc) (skip_ws rest')
              else Failed "Expecting ',' delimiter" (c :: rest')
          | [] => Failed "Expecting ',' delimiter" []
          end
      end
  end

(** The loop of [JSONObject], at the opening quote of a key. *)
with object_items (fuel : nat) (acc : list (str * json)) (s : str)
  : scan json :=
  match fuel with
  | O => Failed exhausted s
  | S fuel' =>
      match s with
      | [] => Failed "Expecting property name enclosed in double quotes" s
      | q :: s1 =>
          if q =? 34 then
            match scanstring s [] s1 with
            | Failed m a => Failed m a
            | Scanned key rest =>
                match skip_ws rest with
                | [] => Failed "Expecting ':' delimiter" []
                | c :: rest1 =>
                    if c =? 58 then
                      match scan_once fuel' (skip_ws rest1) with
                      | Failed m a => Failed m a
                      | Scanned v rest2 =>
                          match skip_ws rest2 with
                          | c' :: rest3 =>
                              if c' =? 125 then
                                Scanned
                                  (JDict
                                     (dict_of_pairs (rev ((key, v) :: acc))))
                                  rest3
                              else if c' =? 44 then
                                object_items fuel' ((key, v) :: acc)
                                  (skip_ws rest3)
                              else
                                Failed "Expecting ',' delimiter" (c' :: rest3)
                          | [] => Failed "Expecting ',' delimiter" []
                          end
                      end
                    else Failed "Expecting ':' delimiter" (c :: rest1)
                end
            end
          else
            Failed "Expecting property name enclosed in double quotes" s
      end
  end.

(** [JSONDecodeError(msg, doc, pos)]: the text of [str(e)]. *)
Definition count_newlines (s : str) : Z :=
  len (List.filter (fun c => c =? 10) s).

(** The characters after the last newline of [s]. *)
Definition last_line (s : str) : str :=
  rev ((fix upto (l : str) : str :=
          match l with
          | [] => []
          | c :: l' => if c =? 10 then [] else c :: upto l'
          end) (rev s)).

Definition decode_error (msg : string) (doc at_ : str) : exn :=
  let pos := len doc - len at_ in
  let before := firstn (Z.to_nat pos) doc in
  let lineno := count_newlines before + 1 in
  let colno :=
    if count_newlines before =? 0 then pos + 1
    else len (last_line before) + 1 in
  Exn JSONDecodeError
    (lit msg ++ lit ": line " ++ str_of_int lineno ++ lit " column "
     ++ str_of_int colno ++ lit " (char " ++ str_of_int pos ++ lit ")").

(** [JSONDecoder.decode(s)]. *)
Definition decode (s : str) : result json :=
  match scan_once (2 * length s + 2) (skip_ws s) with
  | Failed m a => Raise (decode_error m s a)
  | Scanned v rest =>
      match skip_ws rest with
      | [] => Ok v
      | extra => Raise (decode_error "Extra data" s extra)
      end
  end.

(** [s.startswith('\ufeff')] *)
Definition starts_with_bom (s : str) : bool :=
  match s with
  | c :: _ => c =? 65279
  | [] => false
  end.

(** [json.loads(s)] for a [str]. *)
Definition loads (s : str) : result json :=
  if starts_with_bom s then
    Raise (decode_error "Unexpected UTF-8 BOM (decode using utf-8-sig)" s s)
  else decode s.

End Json.

Export Json.

(* ===================================================================== *)
(** ** The tools                                                          *)
(* ===================================================================== *)

Module Tools.

(** *** Files

    What [open] can find at a path.  The content of a regular file is
    kept as the text its bytes decode to under UTF-8; a file whose bytes
    do not decode is [Undecodable]. *)
Inductive node :=
| TextFile (text : str)
| Undecodable
| Directory
| Locked.

(** The file system: the entries by path, and the paths at which a new
    file can be created (the parent directory exists and is writable). *)
Record filesystem := FileSystem {
  entries : gmap str node;
  creatable : str -> bool
}.

Definition os_error (c : exc_class) (msg : string) (filepath : str) : exn :=
  Exn c (lit msg ++ lit ": '" ++ filepath ++ lit "'").

(** [open(filepath, "w", encoding="utf-8")]: truncates or creates.  On
    writing, a line feed is written as [os.linesep], which is the line
    feed itself on the POSIX platforms considered here. *)
Definition open_w (filepath : str) (fs : filesystem) : result filesystem :=
  let truncated :=
    FileSystem (<[filepath := TextFile []]> (entries fs)) (creatable fs) in
  match entries fs !! filepath with
  | Some (TextFile _) | Some Undecodable => Ok truncated
  | Some Directory =>
      Raise (os_error IsADirectoryError "[Errno 21] Is a directory" filepath)
  | Some Locked =>
      Raise (os_error PermissionError "[Errno 13] Permission denied" filepath)
  | None =>
      if creatable fs filepath then Ok truncated
      else Raise (os_error FileNotFoundError
                    "[Errno 2] No such file or directory" filepath)
  end.

(** Universal newlines.  A text file opened for reading with the
    default [newline=None] hands out a line feed for each carriage
    return followed by a line feed, and for each carriage return alone.
    [pendingcr] tells that the character before was a carriage return,
    as in the incremental decoder of [io]. *)
Fixpoint translate_newlines (pendingcr : bool) (text : str) : str :=
  match text with
  | [] => []
  | c :: text' =>
      if c =? 13 then 10 :: translate_newlines true text'
      else if (c =? 10) && pendingcr then translate_newlines false text'
      else c :: translate_newlines false text'
  end.

Definition universal_newlines (text : str) : str :=
  translate_newlines false text.

(** [open(filepath, "r", encoding="utf-8")] followed by [f.read()]: the
    text the file decodes to, with its line ends translated. *)
Definition open_r (filepath : str) (fs : filesystem) : result str :=
  match entries fs !! filepath with
  | Some (TextFile text) => Ok (universal_newlines text)
  | Some Undecodable =>
      Raise (Exn UnicodeDecodeError
               (lit "'utf-8' codec can't decode bytes: invalid data"))
  | Some Directory =>
      Raise (os_error IsADirectoryError "[Errno 21] Is a directory" filepath)
  | Some Locked =>
      Raise (os_error PermissionError "[Errno 13] Permission denied" filepath)
  | None =>
      Raise (os_error FileNotFoundError
               "[Errno 2] No such file or directory" filepath)
  end.

Definition is_surrogate (c : Z) : bool := (55296 <=? c) && (c <=? 57343).

(** The UTF-8 codec refuses surrogate code points. *)
Definition utf8_encodable (text : str) : bool :=
  forallb (fun c => negb (is_surrogate c)) text.

(** The text in front of the first character the codec refuses. *)
Fixpoint encodable_prefix (text : str) : str :=
  match text with
  | c :: text' => if is_surrogate c then [] else c :: encodable_prefix text'
  | [] => []
  end.

(** [f.write(text)] and the close at the end of the [with] block.  On a
    refused character the file keeps what was written in front of it
    (the chunks of [json.dump] are not told apart). *)
Definition write_text (filepath : str) (text : str) (fs : filesystem)
  : result unit * filesystem :=
  if utf8_encodable text then
    (Ok tt, FileSystem (<[filepath := TextFile text]> (entries fs))
                       (creatable fs))
  else
    (Raise (Exn UnicodeEncodeError
              (lit "'utf-8' codec can't encode character: "
               ++ lit "surrogates not allowed")),
     FileSystem
       (<[filepath := TextFile (encodable_prefix text)]> (entries fs))
       (creatable fs)).

(** The [try] block of [write_json]. *)
Definition write_json_try (filepath : str) (data : json) (fs : filesystem)
  : result str * filesystem :=
  match open_w filepath fs with
  | Raise e => (Raise e, fs)
  | Ok fs1 =>
      match write_text filepath (dumps pretty_unicode data) fs1 with
      | (Raise e, fs2) => (Raise e, fs2)
      | (Ok _, fs2) =>
          (Ok (lit "Successfully wrote JSON data to '" ++ filepath
               ++ lit "' (" ++ str_of_int (len (dumps compact data))
               ++ lit " characters)."), fs2)
      end
  end.

Definition write_json (filepath : str) (data : json) (fs : filesystem)
  : result str * filesystem :=
  match write_json_try filepath data fs with
  | (Ok s, fs') => (Ok s, fs')
  | (Raise e, fs') =>
      if is_Exception e then
        (Ok (lit "Error writing JSON: " ++ exc_str e), fs')
      else (Raise e, fs')
  end.

(** The [try] block of [read_json]. *)
Definition read_json_try (filepath : str) (fs : filesystem) : result str :=
  rbind (open_r filepath fs) (fun text =>
  rbind (loads text) (fun data =>
  Ok (dumps pretty_ascii data))).

Definition read_json (filepath : str) (fs : filesystem) : result str :=
  match read_json_try filepath fs with
  | Ok s => Ok s
  | Raise e =>
      if is_FileNotFoundError e then
        Ok (lit "Error: File '" ++ filepath ++ lit "' not found.")
      else if is_JSONDecodeError e then
        Ok (lit "Error: Invalid JSON in file - " ++ exc_str e)
      else if is_Exception e then
        Ok (lit "Error reading JSON: " ++ exc_str e)
      else Raise e
  end.

(** *** Sample users *)

Record user := User {
  id : Z;
  firstName : str;
  lastName : str;
  email : str;
  username : str;
  age : Z;
  registeredAt : str
}.

(** The two shapes of the returned dict. *)
Inductive sample :=
| SampleError (error : str)
| SampleUsers (users : list user) (count : Z).

(** [range(n)]. *)
Definition range (n : Z) : list Z := List.map Z.of_nat (seq 0 (Z.to_nat n)).

(** [for x in l: s = body(x, s)]. *)
Fixpoint for_each {A S} (l : list A) (body : A -> S -> M S) (s : S) : M S :=
  match l with
  | [] => ret s
  | x :: l' => s' <- body x s ;; for_each l' body s'
  end.

Section GenerateSampleUsers.

(** [str.lower] follows the Unicode case tables and
    [datetime.isoformat] the calendar; both are taken as given. *)
Variable lower : str -> str.
Variable isoformat : Z -> str.

(** The body of the loop, for index [i]. *)
Definition sample_user (first_names last_names domains : list str)
    (min_age max_age : Z) (i : Z) (users : list user) : M (list user) :=
  first <- lift (getitem first_names i) ;;
  li <- lift (py_mod i (len last_names)) ;;
  last <- lift (getitem last_names li) ;;
  di <- lift (py_mod i (len domains)) ;;
  domain <- lift (getitem domains di) ;;
  let email := lower first ++ lit "." ++ lower last ++ lit "@" ++ domain in
  suffix <- randint 100 999 ;;
  years <- randint min_age max_age ;;
  now <- datetime_now ;;
  days <- randint 1 365 ;;
  let user :=
    {| id := i + 1;
       firstName := first;
       lastName := last;
       email := email;
       username := lower first ++ str_of_int suffix;
       age := years;
       registeredAt := isoformat (minus_days now days) |} in
  ret (users ++ [user]).

Definition generate_sample_users (first_names last_names domains : list str)
    (min_age max_age : Z) : M sample :=
  match first_names with
  | [] => ret (SampleError (lit "first_names list cannot be empty"))
  | _ =>
  match last_names with
  | [] => ret (SampleError (lit "last_names list cannot be empty"))
  | _ =>
  match domains with
  | [] => ret (SampleError (lit "domains list cannot be empty"))
  | _ =>
  if max_age <? min_age then
    ret (SampleError
           (lit "min_age (" ++ str_of_int min_age
            ++ lit ") cannot be greater than max_age ("
            ++ str_of_int max_age ++ lit ")"))
  else if (min_age <? 0) || (max_age <? 0) then
    ret (SampleError (lit "ages must be non-negative"))
  else
    let count := len first_names in
    users <- for_each (range count)
               (sample_user first_names last_names domains min_age max_age)
               [] ;;
    ret (SampleUsers users (len users))
  end end end.

End GenerateSampleUsers.

(** Lower-casing of the ASCII letters, for runs on ASCII names. *)
Definition ascii_lower (s : str) : str :=
  List.map (fun c => if (65 <=? c) && (c <=? 90) then c + 32 else c) s.

End Tools.

Export Tools.

(* ===================================================================== *)
(** ** The WebSocket handler                                              *)
(* ===================================================================== *)

Module Bridge.

Inductive BaseMessage :=
| HumanMessage (content : str)
| AIMessage (content : str).

Definition content (m : BaseMessage) : str :=
  match m with
  | HumanMessage c => c
  | AIMessage c => c
  end.

(** [agent.invoke] as seen by the handler: from the messages passed in,
    the last message of the result, or an exception. *)
Definition agent_call := list BaseMessage -> result BaseMessage.

(** What the handler does to its surroundings, in order. *)
Inductive effect :=
| Registered (ws : nat) (history : nat)
| Sending (ws : nat) (frame : str)
| Invoked (ws : nat) (messages : list BaseMessage)
| Popped (ws : nat) (found : bool).

(** Where a handler coroutine stands: suspended in one of its [await]s,
    or left through [finally]. *)
Inductive pc :=
| SendingSystem
| Receiving
| SendingAgent
| SendingError
| Returned
| Propagated (e : exn).

(** A handler coroutine: its position and its local [history], the
    address of a list object. *)
Record task := Task { at_ : pc; history : nat }.

(** The process: the list objects, the module-level [CONNECTIONS] dict
    (websocket to list object), the handler coroutines by websocket, and
    the effects so far. *)
Record state := State {
  heap : gmap nat (list BaseMessage);
  CONNECTIONS : gmap nat nat;
  tasks : gmap nat task;
  trace : list effect
}.

Definition initial : state := State ∅ ∅ ∅ [].

(** How the event loop resumes a handler: the server calls it for a new
    connection; a pending [send] returns or raises; the [async for]
    yields a text frame, stops because the connection was closed
    normally, or raises.  [Frame] also carries how [agent.invoke] behaves
    while that message is processed: the call is synchronous, so no other
    handler runs in between. *)
Inductive event :=
| Accepted
| Sent
| SendRaised (e : exn)
| Frame (msg : str) (agent : agent_call)
| Exhausted
| RecvRaised (e : exn).

(** [{"type": type, "text": text}] *)
Definition envelope (type text : str) : json :=
  JDict [(lit "type", JStr type); (lit "text", JStr text)].

Definition system_text : str := lit "Connected to DataGen agent " ++ [128640].

Definition no_think : str := 10 :: lit " /no_think".

Definition type_name (v : json) : str :=
  match v with
  | JNull => lit "NoneType"
  | JBool _ => lit "bool"
  | JInt _ => lit "int"
  | JFloat _ => lit "float"
  | JStr _ => lit "str"
  | JList _ => lit "list"
  | JDict _ => lit "dict"
  end.

Definition no_attribute (v : json) (attr : string) : exn :=
  Exn AttributeError
    (lit "'" ++ type_name v ++ lit "' object has no attribute '"
     ++ lit attr ++ lit "'").

(** [data.get("text", "").strip()] *)
Definition get_text (data : json) : result str :=
  match data with
  | JDict d =>
      match default (JStr []) (dict_get d (lit "text")) with
      | JStr s => Ok (strip s)
      | v => Raise (no_attribute v "strip")
      end
  | v => Raise (no_attribute v "get")
  end.

(** [await websocket.send(frame)] at position [p]: the coroutine is
    suspended there. *)
Definition send (ws : nat) (t : task) (p : pc) (frame : str) (st : state)
  : state :=
  State (heap st) (CONNECTIONS st) (<[ws := Task p (history t)]> (tasks st))
        (trace st ++ [Sending ws frame]).

(** The pending [await] has returned: the coroutine goes on to its next
    one, at [p]. *)
Definition proceed (ws : nat) (t : task) (p : pc) (st : state) : state :=
  State (heap st) (CONNECTIONS st) (<[ws := Task p (history t)]> (tasks st))
        (trace st).

(** The [finally] clause, then the coroutine ends with [outcome]. *)
Definition finally (ws : nat) (t : task) (outcome : pc) (st : state)
  : state :=
  State (heap st) (delete ws (CONNECTIONS st))
        (<[ws := Task outcome (history t)]> (tasks st))
        (trace st
         ++ [Popped ws (bool_decide (is_Some (CONNECTIONS st !! ws)))]).

(** An exception raised inside the inner [try]. *)
Definition except (ws : nat) (t : task) (e : exn) (st : state) : state :=
  if is_Exception e then
    send ws t SendingError
      (dumps compact (envelope (lit "error")
                        (lit "Server error: " ++ exc_str e))) st
  else finally ws t (Propagated e) st.


Definition log (x : effect) (st : state) : state :=
  State (heap st) (CONNECTIONS st) (tasks st) (trace st ++ [x]).

(** [history.extend(turns)] on the list object at [a]. *)
Definition extend (a : nat) (turns : list BaseMessage) (st : state) : state :=
  State (<[a := default [] (heap st !! a) ++ turns]> (heap st))
        (CONNECTIONS st) (tasks st) (trace st).

(** The body of the [async for] loop for one message, up to its next
    [await] (or back to the loop head on [continue]). *)
Definition on_message (ws : nat) (t : task) (msg : str) (agent : agent_call)
    (st : state) : state :=
  match rbind (loads msg) get_text with
  | Raise e => except ws t e st
  | Ok user_text =>
      match user_text with
      | [] => st
      | _ =>
          let messages :=
            default [] (heap st !! history t)
            ++ [HumanMessage (user_text ++ no_think)] in
          let st1 := log (Invoked ws messages) st in
          match agent messages with
          | Raise e => except ws t e st1
          | Ok ai_msg =>
              let st2 :=
                extend (history t) [HumanMessage user_text; ai_msg] st1 in
              send ws t SendingAgent
                (dumps compact (envelope (lit "agent") (content ai_msg))) st2
          end
      end
  end.

(** The start of [handler(websocket)], up to its first [await]. *)
Definition on_accept (ws : nat) (st : state) : state :=
  let a := fresh (dom (heap st)) in
  let st1 :=
    State (<[a := []]> (heap st)) (<[ws := a]> (CONNECTIONS st)) (tasks st)
          (trace st ++ [Registered ws a]) in
  send ws (Task SendingSystem a) SendingSystem
    (dumps compact (envelope (lit "system") system_text)) st1.

(** One resumption of the handler of [ws]; [None] when the event does not
    fit where the coroutine stands. *)
Definition handler (ws : nat) (ev : event) (st : state) : option state :=
  match tasks st !! ws with
  | None =>
      match ev with
      | Accepted => Some (on_accept ws st)
      | _ => None
      end
  | Some t =>
      match at_ t, ev with
      | SendingSystem, Sent => Some (proceed ws t Receiving st)
      | SendingSystem, SendRaised e => Some (finally ws t (Propagated e) st)
      | Receiving, Frame msg agent => Some (on_message ws t msg agent st)
      | Receiving, Exhausted => Some (finally ws t Returned st)
      | Receiving, RecvRaised e => Some (finally ws t (Propagated e) st)
      | SendingAgent, Sent => Some (proceed ws t Receiving st)
      | SendingAgent, SendRaised e => Some (except ws t e st)
      | SendingError, Sent => Some (proceed ws t Receiving st)
      | SendingError, SendRaised e => Some (finally ws t (Propagated e) st)
      | _, _ => None
      end
  end.

(** A schedule: which handler the event loop resumes, and how. *)
Fixpoint run (schedule : list (nat * event)) (st : state) : option state :=
  match schedule with
  | [] => Some st
  | (ws, ev) :: schedule' =>
      match handler ws ev st with
      | Some st' => run schedule' st'
      | None => None
      end
  end.

Definition reachable (st : state) : Prop :=
  exists schedule, run schedule initial = Some st.

(** Observations on a state. *)

(** A coroutine that is suspended in an [await], as opposed to one that
    has left through [finally]. *)
Definition running (p : pc) : bool :=
  match p with
  | Returned | Propagated _ => false
  | _ => true
  end.

(** The connection [ws] is open: its handler has started and has not
    left. *)
Definition is_open (st : state) (ws : nat) : bool :=
  match tasks st !! ws with
  | Some t => running (at_ t)
  | None => false
  end.

(** The connection [ws] is closed: its handler has left. *)
Definition is_closed (st : state) (ws : nat) : bool :=
  match tasks st !! ws with
  | Some t => negb (running (at_ t))
  | None => false
  end.

(** The open connections, with their handlers. *)
Definition open_connections (st : state) : gmap nat task :=
  filter (fun wt => running (at_ (snd wt)) = true) (tasks st).

(** The conversation history registered for [ws]. *)
Definition history_of (st : state) (ws : nat) : option (list BaseMessage) :=
  a ← CONNECTIONS st !! ws; heap st !! a.

(** The frames handed to [websocket.send] of [ws], in order. *)
Definition sent (ws : nat) (tr : list effect) : list str :=
  omap (fun x => match x with
                 | Sending ws' frame =>
                     if bool_decide (ws' = ws) then Some frame else None
                 | _ => None
                 end) tr.

(** The message lists passed to [agent.invoke] by the handler of [ws]. *)
Definition invocations (ws : nat) (tr : list effect)
  : list (list BaseMessage) :=
  omap (fun x => match x with
                 | Invoked ws' messages =>
                     if bool_decide (ws' = ws) then Some messages else None
                 | _ => None
                 end) tr.

(** The registrations and removals of [ws] in [CONNECTIONS]. *)
Definition registrations (ws : nat) (tr : list effect) : nat :=
  length (List.filter (fun x => match x with
                           | Registered ws' _ => bool_decide (ws' = ws)
                           | _ => false
                           end) tr).

Definition removals (ws : nat) (tr : list effect) : nat :=
  length (List.filter (fun x => match x with
                           | Popped ws' true => bool_decide (ws' = ws)
                           | _ => false
                           end) tr).

(** The removals that found no entry. *)
Definition missed (ws : nat) (tr : list effect) : nat :=
  length (List.filter (fun x => match x with
                           | Popped ws' false => bool_decide (ws' = ws)
                           | _ => false
                           end) tr).

(** The greeting, and the frames that answer a message. *)
Definition system_frame : str :=
  dumps compact (envelope (lit "system") system_text).

Definition agent_frame (text : str) : str :=
  dumps compact (envelope (lit "agent") text).

Definition error_frame (e : exn) : str :=
  dumps compact (envelope (lit "error") (lit "Server error: " ++ exc_str e)).

End Bridge.

Export Bridge.

(* ===================================================================== *)
(** * Specification                                                       *)
(* ===================================================================== *)

(** ** Sample users *)

(** What the record at position [i] of the result must look like, given
    the lower-casing function. *)
Definition record_at (lower : str -> str)
    (first_names last_names domains : list str)
    (min_age max_age : Z) (i : nat) (u : user) : Prop :=
  exists first last domain suffix,
    first_names !! i = Some first
    /\ last_names !! (i mod length last_names)%nat = Some last
    /\ domains !! (i mod length domains)%nat = Some domain
    /\ id u = Z.of_nat i + 1
    /\ firstName u = first
    /\ lastName u = last
    /\ email u = lower first ++ lit "." ++ lower last ++ lit "@" ++ domain
    /\ username u = lower first ++ str_of_int suffix
    /\ 100 <= suffix <= 999
    /\ min_age <= age u <= max_age.

(** The five checks at the head of the function, in source order, and
    the message each one returns. *)
Inductive precondition :=
| FirstNamesGiven
| LastNamesGiven
| DomainsGiven
| AgesOrdered
| AgesNonNegative.

Definition violated (p : precondition)
    (first_names last_names domains : list str) (min_age max_age : Z)
  : Prop :=
  match p with
  | FirstNamesGiven => first_names = []
  | LastNamesGiven => last_names = []
  | DomainsGiven => domains = []
  | AgesOrdered => min_age > max_age
  | AgesNonNegative => min_age < 0 \/ max_age < 0
  end.

Definition violation_message (p : precondition) (min_age max_age : Z)
  : str :=
  match p with
  | FirstNamesGiven => lit "first_names list cannot be empty"
  | LastNamesGiven => lit "last_names list cannot be empty"
  | DomainsGiven => lit "domains list cannot be empty"
  | AgesOrdered =>
      lit "min_age (" ++ str_of_int min_age
      ++ lit ") cannot be greater than max_age ("
      ++ str_of_int max_age ++ lit ")"
  | AgesNonNegative => lit "ages must be non-negative"
  end.

(** A run of the generator: three first names paired cyclically with
    two last names and one domain. *)
Definition demo_world : world :=
  World (fun n => Z.of_nat n * 7919 + 5) 0
        (fun n => 1762250000000000 + Z.of_nat n) 0.

(** ** The handler *)

(** A frame that answers a message. *)
Definition reply_frame (f : str) : Prop :=
  (exists text, f = agent_frame text) \/ (exists e, f = error_frame e).

(** What holds of each websocket between two resumptions: its entry in
    [CONNECTIONS] is there exactly while its handler runs and is the
    handler's own list; it was registered once if it ever started and
    removed once if it has left, never missing at removal; and its
    frames start with the greeting. *)
Record conn_ok (st : state) (ws : nat) : Prop := ConnOk {
  ok_entry :
    CONNECTIONS st !! ws
    = if is_open st ws then history <$> tasks st !! ws else None;
  ok_heap :
    forall t, tasks st !! ws = Some t -> is_Some (heap st !! history t);
  ok_registered :
    registrations ws (trace st)
    = match tasks st !! ws with Some _ => 1%nat | None => 0%nat end;
  ok_removed :
    removals ws (trace st) = if is_closed st ws then 1%nat else 0%nat;
  ok_missed : missed ws (trace st) = 0%nat;
  ok_sent :
    match tasks st !! ws with
    | Some _ =>
        exists replies,
          sent ws (trace st) = system_frame :: replies
          /\ Forall reply_frame replies
    | None => sent ws (trace st) = []
    end
}.

(** A valid inbound envelope: a JSON object whose ["text"] is a string
    that is not empty once trimmed; [user_text] is the trimmed text. *)
Definition valid_envelope (msg : str) (user_text : str) : Prop :=
  exists d s,
    loads msg = Ok (JDict d)
    /\ dict_get d (lit "text") = Some (JStr s)
    /\ user_text = strip s
    /\ user_text <> [].

(** The events that end a connection, by where its handler stands: the
    receive loop ends or raises; the send of the greeting or of an
    [error] envelope raises; the send of an [agent] envelope raises
    something that [except Exception] does not catch; or the agent call
    for a valid envelope does. *)
Definition leaves (st : state) (t : task) (ev : event) : Prop :=
  match at_ t, ev with
  | Receiving, Exhausted => True
  | Receiving, RecvRaised _ => True
  | SendingSystem, SendRaised _ => True
  | SendingError, SendRaised _ => True
  | SendingAgent, SendRaised e => is_Exception e = false
  | Receiving, Frame msg agent =>
      exists user_text e,
        valid_envelope msg user_text
        /\ agent (default [] (heap st !! history t)
                  ++ [HumanMessage (user_text ++ no_think)]) = Raise e
        /\ is_Exception e = false
  | _, _ => False
  end.

(** An agent that answers, and one whose upstream call fails. *)
Definition echo_agent : agent_call := fun _ => Ok (AIMessage (lit "hello")).

Definition failing_agent : agent_call :=
  fun _ => Raise (Exn (OtherException "APIConnectionError")
                    (lit "Connection error.")).

(** Connection 0 has been accepted and greeted. *)
Definition greeted_schedule : list (nat * event) :=
  [(0%nat, Accepted); (0%nat, Sent)].

Definition greeted : state := default initial (run greeted_schedule initial).

(** Two connections; the second one breaks while its first message is
    being answered. *)
Definition busy_schedule : list (nat * event) :=
  [(0%nat, Accepted); (0%nat, Sent); (1%nat, Accepted);
   (0%nat, Frame (qlit "{'text':'hi'}") echo_agent);
   (1%nat, Sent); (0%nat, Sent);
   (1%nat, Frame (qlit "{'text': ' x '}") failing_agent);
   (1%nat, SendRaised (Exn ConnectionClosed
                         (lit "no close frame received or sent")))].

Definition busy : state := default initial (run busy_schedule initial).

(** ** Files *)

(** A file system with one directory entry and room for new files, and a
    structure to write: nested values, an astral character, a control
    character, a negative integer and floats. *)
Definition demo_fs : filesystem :=
  FileSystem {[ lit "data" := Directory ]} (fun _ => true).

Definition demo_data : json :=
  JDict
    [(lit "users",
      JList
        [JDict [(lit "id", JInt 1);
                (lit "firstName", JStr (lit "Zo" ++ [235]));
                (lit "tags", JList [JStr [128640; 10]; JNull; JBool true]);
                (lit "score", JFloat (Finite (lit "-12500.0")))];
         JDict []]);
     (lit "count", JInt (-2));
     (lit "ratio", JFloat (Finite (lit "0.25")))].

(** ** JSON texts and values *)

(** The text after a number: the end of the input, or a character that
    cannot continue a numeral. *)
Definition number_end (rest : str) : Prop :=
  match rest with
  | [] => True
  | c :: _ => is_digit c = false /\ c <> 46 /\ c <> 101 /\ c <> 69
  end.

(** The digit strings that [str(int)] produces: a single zero, or digits
    that do not start with a zero. *)
Definition canonical_digits (ds : str) : Prop :=
  Forall (fun c => is_digit c = true) ds
  /\ (ds = [48] \/ exists c ds', ds = c :: ds' /\ c <> 48).

(** The numerals [float.__repr__] renders for finite floats, as far as
    the decoder is concerned: an integer part as for [int], then a
    fraction, an exponent, or both. *)
Definition fraction (frac : str) : Prop :=
  frac = []
  \/ exists c fd, frac = 46 :: c :: fd
       /\ Forall (fun c => is_digit c = true) (c :: fd).

Definition exponent (exp : str) : Prop :=
  exp = []
  \/ exists e sign c ed,
       exp = e :: sign ++ c :: ed
       /\ (e = 101 \/ e = 69)
       /\ (sign = [] \/ sign = [45] \/ sign = [43])
       /\ Forall (fun c => is_digit c = true) (c :: ed).

Definition float_numeral (numeral : str) : Prop :=
  exists negative ds frac exp,
    numeral = (if negative : bool then [45] else []) ++ ds ++ frac ++ exp
    /\ canonical_digits ds
    /\ fraction frac
    /\ exponent exp
    /\ (frac <> [] \/ exp <> []).

(** A Unicode scalar value: a code point that is not a surrogate. *)
Definition scalar (c : Z) : Prop :=
  0 <= c <= 1114111 /\ ~ (55296 <= c <= 57343).

(** The values that a JSON text denotes one to one: finite floats,
    strings of Unicode scalar values, and objects whose keys are such
    strings, each key once. *)
#[warnings="-register-all"]
Inductive scalar_json : json -> Prop :=
| rep_null : scalar_json JNull
| rep_bool b : scalar_json (JBool b)
| rep_int n : scalar_json (JInt n)
| rep_float numeral :
    float_numeral numeral -> scalar_json (JFloat (Finite numeral))
| rep_str s : Forall scalar s -> scalar_json (JStr s)
| rep_list items :
    Forall scalar_json items -> scalar_json (JList items)
| rep_dict items :
    NoDup (List.map fst items) ->
    Forall (fun kv => Forall scalar (fst kv) /\ scalar_json (snd kv))
      items ->
    scalar_json (JDict items).

(** The items after the first one, as [encode] writes them. *)
Fixpoint encode_list_tail (o : dump_opts) (level : nat) (l : list json)
  : str :=
  match l with
  | [] => []
  | y :: l' =>
      item_separator o ++ newline_indent o (S level)
      ++ encode o (S level) y ++ encode_list_tail o level l'
  end.

Fixpoint encode_dict_tail (o : dump_opts) (level : nat)
    (l : list (str * json)) : str :=
  match l with
  | [] => []
  | (k, y) :: l' =>
      item_separator o ++ newline_indent o (S level)
      ++ encode_str o k ++ key_separator
      ++ encode o (S level) y ++ encode_dict_tail o level l'
  end.

(** The first character of an encoded value. *)
Definition value_head (c : Z) : bool :=
  is_digit c || (c =? 45) || (c =? 34) || (c =? 91) || (c =? 123)
  || (c =? 110) || (c =? 116) || (c =? 102).

(** A code point, as a Python [str] can hold. *)
Definition code_point (c : Z) : bool := (0 <=? c) && (c <=? 1114111).

Definition nonempty {A} (l : list A) : bool :=
  match l with
  | [] => false
  | _ :: _ => true
  end.

(** Digits of an integer part: a single zero, or no leading zero. *)
Definition canonical_digitsb (ds : str) : bool :=
  match ds with
  | [] => false
  | c :: ds' => negb (c =? 48) || negb (nonempty ds')
  end.

(** An optional leading character that satisfies [p]. *)
Definition take_if (p : Z -> bool) (s : str) : str * str :=
  match s with
  | c :: t => if p c then ([c], t) else ([], s)
  | [] => ([], s)
  end.

(** The form of a float numeral: sign, integer digits, then a fraction,
    an exponent or both, and nothing else. *)
Definition float_numeralb (numeral : str) : bool :=
  let '(sign, s1) := take_if (fun c => c =? 45) numeral in
  let '(ds, s2) := span_digits s1 in
  let '(dot, s3) := take_if (fun c => c =? 46) s2 in
  let '(fd, s4) := match dot with [] => ([], s3) | _ => span_digits s3 end in
  let '(e, s5) := take_if (fun c => (c =? 101) || (c =? 69)) s4 in
  let '(esign, s6) :=
    match e with
    | [] => ([], s5)
    | _ => take_if (fun c => (c =? 45) || (c =? 43)) s5
    end in
  let '(ed, s7) := match e with [] => ([], s6) | _ => span_digits s6 end in
  canonical_digitsb ds
  && implb (nonempty dot) (nonempty fd)
  && implb (nonempty e) (nonempty ed)
  && (nonempty dot || nonempty e)
  && negb (nonempty s7).

(** The JSON-representable structures: [None], booleans, integers,
    finite floats with the numeral [repr] renders, strings, lists, and
    dicts with string keys, each key once (as in any [dict]).  NaN and
    the infinities have no JSON literal. *)
Fixpoint representable (v : json) : bool :=
  match v with
  | JNull | JBool _ | JInt _ => true
  | JFloat (Finite numeral) => float_numeralb numeral
  | JFloat _ => false
  | JStr s => forallb code_point s
  | JList items => forallb representable items
  | JDict items =>
      bool_decide (NoDup (List.map fst items))
      && forallb (fun kv => let '(k, x) := kv in
                            forallb code_point k && representable x) items
  end.

(** A scanner makes progress on [s]: it consumes input when it succeeds
    and does not fail for lack of fuel. *)
Definition progresses (s : str) (r : scan json) : Prop :=
  match r with
  | Scanned _ rest => (length rest < length s)%nat
  | Failed m _ => m <> exhausted
  end.

(** The message of a successful [write_json]. *)
Definition success_message (s : str) : Prop :=
  exists tail, s = lit "Successfully wrote JSON data to '" ++ tail.

(** ** More on the sample users *)

(** The record that the loop builds at position [i], from the state [w]
    of the random source and the clock at the start of the call: each
    iteration draws three numbers and reads the clock once. *)
Definition drawn_user (lower : str -> str) (isoformat : Z -> str)
    (min_age max_age : Z) (w : world) (i : nat) (first last domain : str)
  : user :=
  {| id := Z.of_nat i + 1;
     firstName := first;
     lastName := last;
     email := lower first ++ lit "." ++ lower last ++ lit "@" ++ domain;
     username :=
       lower first
       ++ str_of_int (100 + entropy w (drawn w + 3 * i) mod 900);
     age :=
       min_age + entropy w (drawn w + 3 * i + 1) mod (max_age - min_age + 1);
     registeredAt :=
       isoformat
         (minus_days (clock w (read w + i))
            (1 + entropy w (drawn w + 3 * i + 2) mod 365)) |}.

(** The dict of one user, with the keys in the order of the source. *)
Definition user_dict (u : user) : json :=
  JDict [(lit "id", JInt (id u));
         (lit "firstName", JStr (firstName u));
         (lit "lastName", JStr (lastName u));
         (lit "email", JStr (email u));
         (lit "username", JStr (username u));
         (lit "age", JInt (age u));
         (lit "registeredAt", JStr (registeredAt u))].

(** The dict that [generate_sample_users] returns, as [write_json]
    receives it when the agent passes the result on. *)
Definition sample_dict (r : sample) : json :=
  match r with
  | SampleError error => JDict [(lit "error", JStr error)]
  | SampleUsers users count =>
      JDict [(lit "users", JList (List.map user_dict users));
             (lit "count", JInt count)]
  end.

(** A text made of code points, as every Python [str] is. *)
Definition code_points (s : str) : bool := forallb code_point s.

(** ** More on files and JSON texts *)

(** JSON white space only. *)
Definition blank (s : str) : bool := forallb is_ws s.

(** A text without carriage returns: universal newlines leave it as it
    is. *)
Definition no_cr (s : str) : bool := forallb (fun c => negb (c =? 13)) s.

(** The message of a failed [write_json]. *)
Definition failure_message (s : str) : Prop :=
  exists description, s = lit "Error writing JSON: " ++ description.

(** A printable ASCII character. *)
Definition printable (c : Z) : bool := (32 <=? c) && (c <=? 126).

(** What an encoder set to [ensure_ascii] may write: printable ASCII,
    and the newline when it indents. *)
Definition ascii_under (o : dump_opts) (s : str) : bool :=
  forallb (fun c => printable c
                    || match indent o with
                       | Some _ => c =? 10
                       | None => false
                       end) s.

(** The values whose strings are made of code points and whose float
    numerals are printable. *)
Fixpoint plain (v : json) : bool :=
  match v with
  | JNull | JBool _ | JInt _ => true
  | JFloat (Finite numeral) => forallb printable numeral
  | JFloat _ => true
  | JStr s => code_points s
  | JList items => forallb plain items
  | JDict items =>
      forallb (fun kv => code_points (fst kv) && plain (snd kv)) items
  end.

(** A structure with a lone surrogate in one of its strings, and a file
    system in which [users.json] already holds a document. *)
Definition unencodable_data : json :=
  JDict [(lit "a", JInt 1); (lit "b", JStr [120; 55296; 121])].

Definition stocked_fs : filesystem :=
  FileSystem {[ lit "users.json" := TextFile (qlit "{'count': 0}");
                lit "notes.json" := TextFile (qlit "[1, 2]") ]}
             (fun _ => true).

(** ** More on the handler *)

(** The histories of the handlers are separate list objects: each one is
    allocated, and two handlers never hold the same one. *)
Record histories_apart (st : state) : Prop := HistoriesApart {
  apart_allocated :
    forall ws t, tasks st !! ws = Some t -> is_Some (heap st !! history t);
  apart_distinct :
    forall ws ws' t t',
      tasks st !! ws = Some t -> tasks st !! ws' = Some t' ->
      history t = history t' -> ws = ws'
}.

(** The history that a sequence of exchanges leaves: for each one the
    user turn, then the reply. *)
Definition recorded (turns : list (str * BaseMessage)) : list BaseMessage :=
  flat_map (fun turn => [HumanMessage (fst turn); snd turn]) turns.

(** An [agent] envelope, told by its first field. *)
Definition is_agent_frame (f : str) : bool :=
  match starts_with (qlit "{'type': 'agent'") f with
  | Some _ => true
  | None => false
  end.

(** A user turn as the handler keeps it: trimmed, and not empty. *)
Definition trimmed (user_text : str) : Prop :=
  user_text <> [] /\ strip user_text = user_text.

(** What the agent is given in a call, with respect to the exchanges
    [turns] of a history: the first exchanges of [turns], as many as
    were recorded at the time of the call, and then the new user turn
    with the suffix. *)
Definition shown (turns : list (str * BaseMessage))
    (messages : list BaseMessage) : Prop :=
  exists k user_text,
    (k <= length turns)%nat
    /\ messages
       = recorded (take k turns) ++ [HumanMessage (user_text ++ no_think)]
    /\ trimmed user_text.

(** What holds of the history of each websocket between two
    resumptions: it is made of whole exchanges with trimmed user turns;
    the [agent] envelopes handed to the socket are the recorded replies,
    in order; every call of the agent was given the exchanges recorded
    before it and one new user turn; and there was a call for each
    exchange. *)
Definition history_ok (st : state) (ws : nat) : Prop :=
  match tasks st !! ws with
  | Some t =>
      exists turns,
        heap st !! history t = Some (recorded turns)
        /\ Forall (fun turn => trimmed (fst turn)) turns
        /\ List.filter is_agent_frame (sent ws (trace st))
           = List.map (fun turn => agent_frame (content (snd turn))) turns
        /\ Forall (shown turns) (invocations ws (trace st))
        /\ (length turns <= length (invocations ws (trace st)))%nat
  | None => invocations ws (trace st) = []
  end.

(** A run of inbound frames on one connection, each answered by the
    agent: from history [h] it leads to history [h'] and hands [frames]
    to the socket.  Each call of the agent is given the history that the
    exchanges before it have left. *)
Inductive dialogue :
  list BaseMessage -> list (str * agent_call) -> list BaseMessage ->
  list str -> Prop :=
| dialogue_end h : dialogue h [] h []
| dialogue_turn h msg agent user_text ai_msg rest h' frames :
    valid_envelope msg user_text ->
    agent (h ++ [HumanMessage (user_text ++ no_think)]) = Ok ai_msg ->
    dialogue (h ++ [HumanMessage user_text; ai_msg]) rest h' frames ->
    dialogue h ((msg, agent) :: rest) h'
      (agent_frame (content ai_msg) :: frames).

(** The events of such a run: each frame is received, and the send of
    its answer completes. *)
Definition exchanges (ws : nat) (inbound : list (str * agent_call))
  : list (nat * event) :=
  flat_map (fun frame => [(ws, Frame (fst frame) (snd frame)); (ws, Sent)])
    inbound.

(** An inbound frame, among the events. *)
Definition is_frame (ev : event) : bool :=
  match ev with
  | Frame _ _ => true
  | _ => false
  end.

(** The positions at which nothing is on its way to the socket but,
    at most, an [error] envelope already handed to it. *)
Definition settled (p : pc) : bool :=
  match p with
  | SendingSystem | SendingAgent => false
  | _ => true
  end.

(** An agent that answers with the number of messages it was given. *)
Definition counting_agent : agent_call :=
  fun messages => Ok (AIMessage (str_of_int (len messages))).

(** What [generate_sample_users] returns on the run of [demo_world]. *)
Definition demo_sample : sample :=
  SampleUsers
    [User 1 (lit "Ada") (lit "Low") (lit "ada.low@x.org")
       (lit "ada105") 25 (lit "1749376400000000");
     User 2 (lit "Bob") (lit "Ray") (lit "bob.ray@x.org")
       (lit "bob462") 18 (lit "1746611600000001");
     User 3 (lit "Cy") (lit "Low") (lit "cy.low@x.org")
       (lit "cy819") 24 (lit "1743846800000002")] 3.

(* ===================================================================== *)
(** * Properties                                                          *)
(* ===================================================================== *)

(** ** The Python runtime *)

Lemma getitem_lookup {A} (l : list A) (i : nat) (x : A) :
  l !! i = Some x -> getitem l (Z.of_nat i) = Ok x.
Proof.
  intros Hx. unfold getitem.
  destruct (Z.ltb_spec (Z.of_nat i) 0) as [Hneg|_]; [lia|].
  destruct (Z.ltb_spec (Z.of_nat i) 0) as [Hneg|_]; [lia|].
  rewrite Nat2Z.id, Hx. reflexivity.
Qed.

Lemma py_mod_len {A} (i : nat) (l : list A) :
  l <> [] -> py_mod (Z.of_nat i) (len l) = Ok (Z.of_nat (i mod length l)).
Proof.
  intros Hl. unfold py_mod, len.
  destruct (Z.eqb_spec (Z.of_nat (length l)) 0) as [H0|_].
  - destruct l; [congruence | simpl in H0; lia].
  - rewrite Nat2Z.inj_mod. reflexivity.
Qed.

Lemma lookup_mod_length {A} (i : nat) (l : list A) :
  l <> [] -> is_Some (l !! (i mod length l)%nat).
Proof.
  intros Hl. apply lookup_lt_is_Some.
  apply Nat.mod_upper_bound. destruct l; [congruence | simpl; lia].
Qed.

(** [random.randint(a, b)] returns, and within the bounds, whenever the
    range is not empty. *)
Lemma randint_range (a b : Z) (w : world) :
  a <= b ->
  exists v w', randint a b w = (Ok v, w') /\ a <= v <= b.
Proof.
  intros Hab. unfold randint.
  destruct (Z.ltb_spec b a) as [Hlt|_]; [lia|].
  eexists _, _. split; [reflexivity|].
  pose proof (Z.mod_pos_bound (entropy w (drawn w)) (b - a + 1)). lia.
Qed.

Lemma range_seq (n : nat) : range (Z.of_nat n) = List.map Z.of_nat (seq 0 n).
Proof. unfold range. rewrite Nat2Z.id. reflexivity. Qed.

(** ** [generate_sample_users] *)

Section SampleUsersFacts.

Variable lower : str -> str.
Variable isoformat : Z -> str.

Lemma sample_user_spec first_names last_names domains min_age max_age
    (i : nat) (users : list user) (w : world) :
  (i < length first_names)%nat ->
  last_names <> [] -> domains <> [] -> min_age <= max_age ->
  exists u w',
    sample_user lower isoformat first_names last_names domains
      min_age max_age (Z.of_nat i) users w = (Ok (users ++ [u]), w')
    /\ record_at lower first_names last_names domains min_age max_age i u.
Proof.
  intros Hi Hl Hd Hage.
  destruct (lookup_lt_is_Some_2 first_names i Hi) as [first Hfirst].
  destruct (lookup_mod_length i last_names Hl) as [last Hlast].
  destruct (lookup_mod_length i domains Hd) as [domain Hdomain].
  unfold sample_user, bind, lift.
  rewrite (getitem_lookup _ _ _ Hfirst).
  rewrite (py_mod_len i last_names Hl), (getitem_lookup _ _ _ Hlast).
  rewrite (py_mod_len i domains Hd), (getitem_lookup _ _ _ Hdomain).
  destruct (randint_range 100 999 w ltac:(lia)) as (suffix & w1 & -> & Hs).
  destruct (randint_range min_age max_age w1 Hage) as (years & w2 & -> & Hy).
  unfold datetime_now.
  match goal with |- context [randint 1 365 ?w3] =>
    destruct (randint_range 1 365 w3 ltac:(lia)) as (days & w4 & -> & _)
  end.
  eexists _, _. split; [reflexivity|].
  exists first, last, domain, suffix. simpl. tauto.
Qed.

(** The loop over [range(count)], started at index [k] with [n] indices
    to go. *)
Lemma sample_loop_spec first_names last_names domains min_age max_age
    (n k : nat) (users : list user) (w : world) :
  (k + n = length first_names)%nat ->
  last_names <> [] -> domains <> [] -> min_age <= max_age ->
  exists new w',
    for_each (List.map Z.of_nat (seq k n))
      (sample_user lower isoformat first_names last_names domains
         min_age max_age) users w = (Ok (users ++ new), w')
    /\ length new = n
    /\ forall j u, new !! j = Some u ->
         record_at lower first_names last_names domains min_age max_age
           (k + j) u.
Proof.
  intros Hkn Hl Hd Hage. revert k users w Hkn.
  induction n as [|n IH]; intros k users w Hkn.
  - exists [], w. simpl. rewrite app_nil_r. split; [reflexivity|].
    split; [reflexivity|]. intros j u Hj. destruct j; discriminate.
  - simpl. unfold bind at 1.
    destruct (sample_user_spec first_names last_names domains
                min_age max_age k users w ltac:(lia) Hl Hd Hage)
      as (u & w1 & -> & Hu).
    destruct (IH (S k) (users ++ [u]) w1 ltac:(lia))
      as (new & w2 & -> & Hlen & Hnew).
    exists (u :: new), w2. rewrite <- app_assoc. simpl.
    split; [reflexivity|]. split; [lia|].
    intros [|j] u' Hj; simpl in Hj.
    + injection Hj as <-. rewrite Nat.add_0_r. exact Hu.
    + replace (k + S j)%nat with (S k + j)%nat by lia. eauto.
Qed.

(** C1. With non-empty [first_names], [last_names] and [domains] and
    [0 <= min_age <= max_age], [generate_sample_users] returns
    [{users, count}] with [count = len(first_names)] records, and the
    record at position [i] has [firstName = first_names[i]],
    [lastName = last_names[i mod len(last_names)]],
    [email = first.lower() + "." + last.lower() + "@" +
    domains[i mod len(domains)]], [id = i + 1], a [username] made of
    [first.lower()] and an integer of [100..999], and an [age] within
    [min_age..max_age]. *)
Theorem generate_sample_users_records
    (first_names last_names domains : list str) (min_age max_age : Z)
    (w : world) :
  first_names <> [] -> last_names <> [] -> domains <> [] ->
  0 <= min_age -> min_age <= max_age ->
  exists users w',
    generate_sample_users lower isoformat first_names last_names domains
      min_age max_age w = (Ok (SampleUsers users (len first_names)), w')
    /\ length users = length first_names
    /\ forall i, (i < length first_names)%nat ->
         exists u, users !! i = Some u
           /\ record_at lower first_names last_names domains
                min_age max_age i u.
Proof.
  intros Hf Hl Hd Hmin Hage.
  destruct (sample_loop_spec first_names last_names domains min_age max_age
              (length first_names) 0 [] w eq_refl Hl Hd Hage)
    as (users & w' & Hloop & Hlen & Hrec).
  exists users, w'. split; [|split; [exact Hlen|]].
  - unfold generate_sample_users.
    destruct first_names as [|f0 fs]; [congruence|].
    destruct last_names as [|l0 ls]; [congruence|].
    destruct domains as [|d0 ds]; [congruence|].
    destruct (Z.ltb_spec max_age min_age) as [Hlt|_]; [lia|].
    destruct (Z.ltb_spec min_age 0) as [Hlt|_]; [lia|].
    destruct (Z.ltb_spec max_age 0) as [Hlt|_]; [lia|].
    cbv beta iota. unfold orb.
    unfold len at 1. rewrite range_seq. unfold bind.
    rewrite Hloop. unfold ret, len. simpl app. rewrite Hlen. reflexivity.
  - intros i Hi.
    destruct (lookup_lt_is_Some_2 users i ltac:(lia)) as [u Hu].
    exists u. split; [exact Hu|]. exact (Hrec i u Hu).
Qed.

(** The messages of two different checks differ, whatever the ages
    rendered in them. *)
Lemma violation_message_inj (p q : precondition) (a b c d : Z) :
  violation_message p a b = violation_message q c d -> p = q.
Proof.
  destruct p, q; intros H; try reflexivity;
    cbn in H; discriminate H.
Qed.

(** C7. When a precondition of [generate_sample_users] is violated
    (an empty [first_names], [last_names] or [domains],
    [min_age > max_age], or a negative age), the call does not raise:
    it returns [{"error": m}], where [m] is the message of a violated
    precondition, and the messages of distinct preconditions are
    distinct. *)
Theorem generate_sample_users_invalid
    (first_names last_names domains : list str) (min_age max_age : Z)
    (w : world) :
  (exists p, violated p first_names last_names domains min_age max_age) ->
  exists p,
    violated p first_names last_names domains min_age max_age
    /\ generate_sample_users lower isoformat first_names last_names domains
         min_age max_age w
       = (Ok (SampleError (violation_message p min_age max_age)), w)
    /\ forall q a b,
         violation_message q a b = violation_message p min_age max_age ->
         q = p.
Proof.
  intros Hbad.
  assert (Hinj : forall p q a b,
             violation_message q a b = violation_message p min_age max_age
             -> q = p) by (intros; eapply violation_message_inj; eauto).
  unfold generate_sample_users.
  destruct first_names as [|f0 fs].
  { exists FirstNamesGiven. simpl. eauto. }
  destruct last_names as [|l0 ls].
  { exists LastNamesGiven. simpl. eauto. }
  destruct domains as [|d0 ds].
  { exists DomainsGiven. simpl. eauto. }
  destruct (Z.ltb_spec max_age min_age) as [Hlt|Hle].
  { exists AgesOrdered. simpl. split; [lia|]. eauto. }
  destruct (Z.ltb_spec min_age 0) as [Hmin|Hmin].
  { exists AgesNonNegative. simpl. split; [lia|]. eauto. }
  destruct (Z.ltb_spec max_age 0) as [Hmax|Hmax].
  { exists AgesNonNegative. simpl. split; [lia|]. eauto. }
  exfalso. destruct Hbad as [[] Hp]; simpl in Hp;
    try discriminate Hp; lia.
Qed.

End SampleUsersFacts.

Example generate_sample_users_demo :
  fst (generate_sample_users ascii_lower str_of_int
         [lit "Ada"; lit "Bob"; lit "Cy"] [lit "Low"; lit "Ray"]
         [lit "x.org"] 18 30 demo_world)
  = Ok (SampleUsers
          [User 1 (lit "Ada") (lit "Low") (lit "ada.low@x.org")
             (lit "ada105") 25 (lit "1749376400000000");
           User 2 (lit "Bob") (lit "Ray") (lit "bob.ray@x.org")
             (lit "bob462") 18 (lit "1746611600000001");
           User 3 (lit "Cy") (lit "Low") (lit "cy.low@x.org")
             (lit "cy819") 24 (lit "1743846800000002")] 3).
Proof. vm_compute. reflexivity. Qed.

Lemma generate_sample_users_records_witness :
  exists users w',
    generate_sample_users ascii_lower str_of_int
      [lit "Ada"; lit "Bob"; lit "Cy"] [lit "Low"; lit "Ray"] [lit "x.org"]
      18 30 demo_world = (Ok (SampleUsers users 3), w')
    /\ length users = 3%nat
    /\ forall i, (i < 3)%nat ->
         exists u, users !! i = Some u
           /\ record_at ascii_lower [lit "Ada"; lit "Bob"; lit "Cy"]
                [lit "Low"; lit "Ray"] [lit "x.org"] 18 30 i u.
Proof.
  apply (generate_sample_users_records ascii_lower str_of_int
           [lit "Ada"; lit "Bob"; lit "Cy"] [lit "Low"; lit "Ray"]
           [lit "x.org"] 18 30 demo_world);
    [discriminate | discriminate | discriminate | lia | lia].
Defined.

Lemma generate_sample_users_invalid_witness :
  exists p,
    violated p [lit "Ada"] [] [lit "x.org"] 40 30
    /\ generate_sample_users ascii_lower str_of_int
         [lit "Ada"] [] [lit "x.org"] 40 30 demo_world
       = (Ok (SampleError (violation_message p 40 30)), demo_world)
    /\ forall q a b,
         violation_message q a b = violation_message p 40 30 -> q = p.
Proof.
  apply (generate_sample_users_invalid ascii_lower str_of_int
           [lit "Ada"] [] [lit "x.org"] 40 30 demo_world).
  exists LastNamesGiven. reflexivity.
Defined.

(** ** [read_json] and [write_json] *)

Lemma loads_raises_decode_error (s : str) (e : exn) :
  loads s = Raise e -> exc_type e = JSONDecodeError.
Proof.
  unfold loads, decode. intros H.
  destruct (starts_with_bom s); [injection H as <-; reflexivity|].
  destruct (scan_once _ _) as [v rest|m a]; [|injection H as <-; reflexivity].
  destruct (skip_ws rest); [discriminate|injection H as <-; reflexivity].
Qed.



(** [write_json] never raises to its caller. *)
Lemma write_json_returns (filepath : str) (data : json) (fs : filesystem) :
  exists s fs', write_json filepath data fs = (Ok s, fs').
Proof.
  unfold write_json, write_json_try, open_w, write_text.
  destruct (entries fs !! filepath) as [[text| | |]|];
    [| | | |destruct (creatable fs filepath)];
    try (destruct (utf8_encodable (dumps pretty_unicode data)));
    simpl; eauto.
Qed.

(** What a successful [write_json] leaves behind and reports: the file
    holds the indented rendering, the message carries the length of the
    one-line rendering. *)
Lemma write_json_success (filepath : str) (data : json) (fs fs' : filesystem)
    (s : str) :
  write_json_try filepath data fs = (Ok s, fs') ->
  entries fs' !! filepath = Some (TextFile (dumps pretty_unicode data))
  /\ utf8_encodable (dumps pretty_unicode data) = true
  /\ s = lit "Successfully wrote JSON data to '" ++ filepath ++ lit "' ("
         ++ str_of_int (len (dumps compact data)) ++ lit " characters).".
Proof.
  unfold write_json_try, write_text. intros H.
  destruct (open_w filepath fs) as [fs1|e]; [|discriminate H].
  destruct (utf8_encodable (dumps pretty_unicode data)) eqn:Henc;
    [|discriminate H].
  injection H as <- <-. simpl. rewrite lookup_insert_eq. auto.
Qed.

(** C6, at [data = {"a": 1}] on an empty, writable file system: the file
    receives the twelve characters of the indented rendering, and the
    returned message reports eight, the length of [json.dumps(data)]. *)
Theorem write_json_reports_compact_length :
  exists fs',
    write_json (lit "out.json") (JDict [(lit "a", JInt 1)])
      (FileSystem ∅ (fun _ => true))
    = (Ok (lit "Successfully wrote JSON data to 'out.json' (8 characters)."),
       fs')
    /\ entries fs' !! lit "out.json"
       = Some (TextFile ([123; 10] ++ qlit "  'a': 1" ++ [10; 125]))
    /\ len ([123; 10] ++ qlit "  'a': 1" ++ [10; 125]) = 12.
Proof.
  destruct (write_json_try (lit "out.json") (JDict [(lit "a", JInt 1)])
              (FileSystem ∅ (fun _ => true))) as [r fs'] eqn:Htry.
  assert (Hr : r = Ok (lit "Successfully wrote JSON data to 'out.json' "
                       ++ lit "(8 characters).")).
  { unfold write_json_try, open_w in Htry. simpl entries in Htry.
    rewrite lookup_empty in Htry. simpl in Htry.
    injection Htry as <- _. reflexivity. }
  subst r. exists fs'. unfold write_json. rewrite Htry.
  apply write_json_success in Htry as (Hfile & _ & _).
  split; [reflexivity|]. split; [exact Hfile|reflexivity].
Qed.

(** ** The handler *)

(** *** Effects of one connection among those of all *)

Lemma sent_app (ws : nat) (tr tr' : list effect) :
  sent ws (tr ++ tr') = sent ws tr ++ sent ws tr'.
Proof. apply omap_app. Qed.

Lemma invocations_app (ws : nat) (tr tr' : list effect) :
  invocations ws (tr ++ tr') = invocations ws tr ++ invocations ws tr'.
Proof. apply omap_app. Qed.

Lemma registrations_app (ws : nat) (tr tr' : list effect) :
  registrations ws (tr ++ tr')
  = (registrations ws tr + registrations ws tr')%nat.
Proof.
  unfold registrations. rewrite List.filter_app, length_app. reflexivity.
Qed.

Lemma removals_app (ws : nat) (tr tr' : list effect) :
  removals ws (tr ++ tr') = (removals ws tr + removals ws tr')%nat.
Proof. unfold removals. rewrite List.filter_app, length_app. reflexivity. Qed.

Lemma missed_app (ws : nat) (tr tr' : list effect) :
  missed ws (tr ++ tr') = (missed ws tr + missed ws tr')%nat.
Proof. unfold missed. rewrite List.filter_app, length_app. reflexivity. Qed.

Ltac trace_simpl :=
  repeat rewrite ?sent_app, ?invocations_app, ?registrations_app,
    ?removals_app, ?missed_app;
  cbn [sent invocations registrations removals missed omap list_omap
       List.filter length app];
  repeat case_bool_decide; try congruence;
  cbn [sent invocations registrations removals missed omap list_omap
       List.filter length app];
  rewrite ?app_nil_r, ?Nat.add_0_r.

(** *** The invariant of the registry *)

Ltac conn_simpl :=
  unfold is_open, is_closed in *;
  cbn [heap CONNECTIONS tasks trace at_ history running negb fmap option_fmap
       option_map] in *;
  rewrite ?lookup_insert_eq, ?lookup_delete_eq in *;
  cbn [heap CONNECTIONS tasks trace at_ history running negb fmap option_fmap
       option_map] in *.

(** A step of another handler leaves [ws] as it was. *)
Lemma conn_ok_frame (st st' : state) (ws : nat) :
  tasks st' !! ws = tasks st !! ws ->
  CONNECTIONS st' !! ws = CONNECTIONS st !! ws ->
  (forall a, is_Some (heap st !! a) -> is_Some (heap st' !! a)) ->
  (exists effs, trace st' = trace st ++ effs
     /\ sent ws effs = [] /\ registrations ws effs = 0%nat
     /\ removals ws effs = 0%nat /\ missed ws effs = 0%nat) ->
  conn_ok st ws -> conn_ok st' ws.
Proof.
  intros Ht Hc Hh (effs & Htr & Hs & Hr & Hp & Hm) [E H R P M S].
  constructor; unfold is_open, is_closed in *;
    rewrite ?Ht, ?Hc, ?Htr, ?sent_app, ?registrations_app, ?removals_app,
      ?missed_app, ?Hs, ?Hr, ?Hp, ?Hm, ?app_nil_r, ?Nat.add_0_r; auto.
Qed.

Lemma conn_ok_log (st : state) (ws ws' : nat) (m : list BaseMessage) :
  conn_ok st ws' -> conn_ok (log (Invoked ws m) st) ws'.
Proof.
  apply conn_ok_frame; auto.
  exists [Invoked ws m]. repeat split; reflexivity.
Qed.

Lemma conn_ok_extend (st : state) (ws' a : nat) (turns : list BaseMessage) :
  conn_ok st ws' -> conn_ok (extend a turns st) ws'.
Proof.
  apply conn_ok_frame; auto.
  - intros b Hb. cbn [extend heap].
    destruct (decide (a = b)) as [->|Hab];
      [rewrite lookup_insert_eq; eauto|rewrite lookup_insert_ne; auto].
  - exists []. cbn [extend trace]. rewrite app_nil_r.
    repeat split; reflexivity.
Qed.

(** The coroutine of [ws] moves from one [await] to another. *)
Lemma conn_ok_resume (st : state) (ws ws' : nat) (t : task) (p : pc) :
  tasks st !! ws = Some t -> running (at_ t) = true -> running p = true ->
  conn_ok st ws' -> conn_ok (proceed ws t p st) ws'.
Proof.
  intros Ht Hrun Hp Hok. unfold proceed.
  destruct (decide (ws' = ws)) as [->|Hne].
  - destruct Hok as [E H R P M S]. unfold is_open, is_closed in *.
    rewrite Ht in *. rewrite Hrun in *.
    constructor; conn_simpl; rewrite ?Hp; auto.
    intros t' [= <-]. cbn. eauto.
  - revert Hok. apply conn_ok_frame; cbn; auto.
    + rewrite lookup_insert_ne; auto.
    + exists []. rewrite app_nil_r. repeat split; reflexivity.
Qed.

Lemma conn_ok_send (st : state) (ws ws' : nat) (t : task) (p : pc)
    (f : str) :
  tasks st !! ws = Some t -> running (at_ t) = true -> running p = true ->
  reply_frame f ->
  conn_ok st ws' -> conn_ok (send ws t p f st) ws'.
Proof.
  intros Ht Hrun Hp Hf Hok. destruct (decide (ws' = ws)) as [->|Hne].
  - destruct Hok as [E H R P M S]. unfold is_open, is_closed in *.
    rewrite Ht in *. rewrite Hrun in *.
    constructor; unfold send; conn_simpl; rewrite ?Hp; trace_simpl; auto.
    + intros t' [= <-]. cbn. eauto.
    + destruct S as (replies & -> & Hall). exists (replies ++ [f]).
      split; [reflexivity|]. apply Forall_app. split; [exact Hall|].
      constructor; [exact Hf|constructor].
  - revert Hok. apply conn_ok_frame; unfold send; cbn; auto.
    + rewrite lookup_insert_ne; auto.
    + exists [Sending ws f]. repeat split; trace_simpl; reflexivity.
Qed.

Lemma conn_ok_finally (st : state) (ws ws' : nat) (t : task) (p : pc) :
  tasks st !! ws = Some t -> running (at_ t) = true -> running p = false ->
  conn_ok st ws' -> conn_ok (finally ws t p st) ws'.
Proof.
  intros Ht Hrun Hp Hok. destruct (decide (ws' = ws)) as [->|Hne].
  - destruct Hok as [E H R P M S]. unfold is_open, is_closed in *.
    rewrite Ht in *. rewrite Hrun in *. cbn in E.
    constructor; unfold finally; conn_simpl; rewrite ?Hp, ?E; trace_simpl;
      auto.
    all: try (intros t' [= <-]; cbn; eauto).
    all: try (rewrite P; reflexivity).
    all: exfalso; eauto.
  - revert Hok. apply conn_ok_frame; unfold finally; cbn; auto.
    + rewrite lookup_insert_ne; auto.
    + rewrite lookup_delete_ne; auto.
    + eexists. split; [reflexivity|]. repeat split; trace_simpl;
        reflexivity.
Qed.

Lemma conn_ok_accept (st : state) (ws ws' : nat) :
  tasks st !! ws = None ->
  conn_ok st ws' -> conn_ok (on_accept ws st) ws'.
Proof.
  intros Ht Hok. destruct (decide (ws' = ws)) as [->|Hne].
  - destruct Hok as [E H R P M S]. unfold is_open, is_closed in *.
    rewrite Ht in *.
    constructor; unfold on_accept, send; conn_simpl; trace_simpl; auto.
    + intros t' [= <-]. cbn. rewrite lookup_insert_eq. eauto.
    + rewrite R. reflexivity.
    + rewrite S. exists []. split; [reflexivity|constructor].
  - revert Hok. apply conn_ok_frame; unfold on_accept, send; cbn; auto.
    + rewrite lookup_insert_ne; auto.
    + rewrite lookup_insert_ne; auto.
    + intros b Hb. destruct (decide (fresh (dom (heap st)) = b)) as [->|Hab];
        [rewrite lookup_insert_eq; eauto|rewrite lookup_insert_ne; auto].
    + eexists. split; [rewrite <- app_assoc; reflexivity|].
      repeat split; trace_simpl; reflexivity.
Qed.

Lemma conn_ok_except (st : state) (ws ws' : nat) (t : task) (e : exn) :
  tasks st !! ws = Some t -> running (at_ t) = true ->
  conn_ok st ws' -> conn_ok (except ws t e st) ws'.
Proof.
  intros Ht Hrun Hok. unfold except. destruct (is_Exception e).
  - apply conn_ok_send; auto. right. exists e. reflexivity.
  - apply conn_ok_finally; auto.
Qed.

Lemma conn_ok_on_message (st : state) (ws ws' : nat) (t : task) (msg : str)
    (agent : agent_call) :
  tasks st !! ws = Some t -> running (at_ t) = true ->
  conn_ok st ws' -> conn_ok (on_message ws t msg agent st) ws'.
Proof.
  intros Ht Hrun Hok. unfold on_message.
  destruct (rbind (loads msg) get_text) as [[|c user_text]|e]; auto.
  - destruct (agent _) as [ai_msg|e].
    + apply conn_ok_send; auto.
      * left. exists (content ai_msg). reflexivity.
      * apply conn_ok_extend, conn_ok_log, Hok.
    + apply conn_ok_except; auto. apply conn_ok_log, Hok.
  - apply conn_ok_except; auto.
Qed.

(** One resumption keeps the invariant. *)
Lemma conn_ok_handler (st st' : state) (ws : nat) (ev : event) :
  handler ws ev st = Some st' ->
  (forall ws', conn_ok st ws') -> forall ws', conn_ok st' ws'.
Proof.
  intros Hstep Hok ws'. specialize (Hok ws'). unfold handler in Hstep.
  destruct (tasks st !! ws) as [[p h]|] eqn:Ht.
  - cbn [at_ history] in Hstep.
    destruct p, ev; try discriminate Hstep; injection Hstep as <-;
      match type of Ht with
      | _ = Some ?t =>
          first [ apply (conn_ok_resume st ws ws' t); now auto
                | apply (conn_ok_finally st ws ws' t); now auto
                | apply (conn_ok_except st ws ws' t); now auto
                | apply (conn_ok_on_message st ws ws' t); now auto ]
      end.
  - destruct ev; try discriminate Hstep; injection Hstep as <-.
    apply conn_ok_accept; auto.
Qed.

Lemma conn_ok_initial (ws : nat) : conn_ok initial ws.
Proof. constructor; try reflexivity. intros t Ht. discriminate Ht. Qed.

Lemma conn_ok_run (schedule : list (nat * event)) (st st' : state) :
  run schedule st = Some st' ->
  (forall ws, conn_ok st ws) -> forall ws, conn_ok st' ws.
Proof.
  revert st. induction schedule as [|[ws ev] schedule IH]; intros st Hrun Hok.
  - injection Hrun as <-. exact Hok.
  - simpl in Hrun. destruct (handler ws ev st) as [st1|] eqn:Hstep;
      [|discriminate Hrun].
    apply (IH st1 Hrun). eapply conn_ok_handler; eauto.
Qed.

Lemma reachable_conn_ok (st : state) (ws : nat) :
  reachable st -> conn_ok st ws.
Proof.
  intros [schedule Hrun]. revert ws.
  eapply conn_ok_run; [exact Hrun|]. exact conn_ok_initial.
Qed.

(** *** One message *)

Lemma valid_envelope_text (msg user_text : str) :
  valid_envelope msg user_text ->
  rbind (loads msg) get_text = Ok user_text /\ user_text <> [].
Proof.
  intros (d & s & Hloads & Hget & -> & Hne). split; [|exact Hne].
  rewrite Hloads. simpl. rewrite Hget. reflexivity.
Qed.

Lemma get_text_raises (v : json) (e : exn) :
  get_text v = Raise e -> is_Exception e = true.
Proof.
  unfold get_text. intros H.
  destruct v as [|b|n|f|s|items|d]; try (injection H as <-; reflexivity).
  destruct (default (JStr []) (dict_get d (lit "text")));
    try discriminate H; injection H as <-; reflexivity.
Qed.

Lemma loads_raises_exception (s : str) (e : exn) :
  loads s = Raise e -> is_Exception e = true.
Proof.
  intros H. apply loads_raises_decode_error in H.
  unfold is_Exception. rewrite H. reflexivity.
Qed.

(** While a handler runs, the registered history is its own list. *)
Lemma running_history (st : state) (ws : nat) (t : task) :
  reachable st -> tasks st !! ws = Some t -> running (at_ t) = true ->
  CONNECTIONS st !! ws = Some (history t)
  /\ history_of st ws = heap st !! history t
  /\ is_Some (heap st !! history t).
Proof.
  intros Hreach Ht Hrun.
  destruct (reachable_conn_ok st ws Hreach) as [E H _ _ _ _].
  unfold is_open in E. rewrite Ht, Hrun in E. cbn in E.
  unfold history_of. rewrite E. cbn. auto.
Qed.

(** A frame that does not decode to a dict with a usable ["text"]. *)
Lemma on_message_rejected (st : state) (ws : nat) (t : task) (msg : str)
    (agent : agent_call) (e : exn) :
  rbind (loads msg) get_text = Raise e ->
  on_message ws t msg agent st = send ws t SendingError (error_frame e) st.
Proof.
  intros H. unfold on_message, except. rewrite H.
  assert (Hexc : is_Exception e = true).
  { destruct (loads msg) as [v|e'] eqn:Hloads; simpl in H.
    - eapply get_text_raises; eauto.
    - injection H as <-. eapply loads_raises_exception; eauto. }
  rewrite Hexc. reflexivity.
Qed.

(** A valid envelope: the agent is invoked, and what follows depends on
    its outcome. *)
Lemma on_message_valid (st : state) (ws : nat) (t : task) (msg : str)
    (agent : agent_call) (user_text : str) (h : list BaseMessage) :
  valid_envelope msg user_text ->
  heap st !! history t = Some h ->
  on_message ws t msg agent st
  = match agent (h ++ [HumanMessage (user_text ++ no_think)]) with
    | Ok ai_msg =>
        send ws t SendingAgent (agent_frame (content ai_msg))
          (extend (history t) [HumanMessage user_text; ai_msg]
             (log (Invoked ws (h ++ [HumanMessage (user_text ++ no_think)]))
                st))
    | Raise e =>
        except ws t e
          (log (Invoked ws (h ++ [HumanMessage (user_text ++ no_think)])) st)
    end.
Proof.
  intros Hvalid Hh. apply valid_envelope_text in Hvalid as [Htext Hne].
  unfold on_message. rewrite Htext, Hh.
  destruct user_text as [|c user_text]; [congruence|]. reflexivity.
Qed.

(** C2 as stated fails: a frame that is not JSON is answered.  On the
    connection that has just been greeted, the frame [not json] makes
    the handler send one [error] envelope. *)
Lemma malformed_frame_is_answered :
  exists st st' e,
    run [(0%nat, Accepted); (0%nat, Sent)] initial = Some st
    /\ loads (lit "not json") = Raise e
    /\ handler 0 (Frame (lit "not json") (fun _ => Ok (AIMessage (lit "ok"))))
         st = Some st'
    /\ sent 0 (trace st')
       = sent 0 (trace st)
         ++ [qlit "{'type': 'error', 'text': 'Server error: "
             ++ lit "Expecting value: line 1 column 1 (char 0)"
             ++ qlit "'}"]
    /\ length (sent 0 (trace st')) = S (length (sent 0 (trace st))).
Proof.
  eexists _, _, _.
  split; [vm_compute; reflexivity|].
  split; [vm_compute; reflexivity|].
  split; [vm_compute; reflexivity|].
  split; vm_compute; reflexivity.
Qed.

(** C2, amended.  While the handler of [ws] waits for a message: a frame
    that decodes to a JSON object without ["text"], or whose ["text"] is
    a string that is empty once trimmed, leaves the whole state as it
    was (nothing sent, no agent call, history untouched); a frame that is
    not valid JSON, or whose value is not an object with a string
    ["text"], is answered with exactly one [error] envelope carrying the
    description, without an agent call and with the history
    untouched. *)
Theorem frame_without_text_or_malformed (st : state) (ws : nat) (t : task)
    (msg : str) (agent : agent_call) :
  tasks st !! ws = Some t -> at_ t = Receiving ->
  (forall d,
      loads msg = Ok (JDict d) ->
      (dict_get d (lit "text") = None
       \/ exists s, dict_get d (lit "text") = Some (JStr s) /\ strip s = []) ->
      handler ws (Frame msg agent) st = Some st)
  /\ (forall e,
        (loads msg = Raise e
         \/ exists v, loads msg = Ok v /\ get_text v = Raise e) ->
        exists st',
          handler ws (Frame msg agent) st = Some st'
          /\ sent ws (trace st') = sent ws (trace st) ++ [error_frame e]
          /\ invocations ws (trace st') = invocations ws (trace st)
          /\ heap st' = heap st
          /\ CONNECTIONS st' = CONNECTIONS st).
Proof.
  intros Ht Hat. unfold handler. rewrite Ht, Hat. split.
  - intros d Hloads Htext. f_equal. unfold on_message.
    rewrite Hloads. simpl.
    destruct Htext as [->|(s & -> & Hs)]; simpl; [reflexivity|].
    rewrite Hs. reflexivity.
  - intros e He. eexists. split; [reflexivity|].
    rewrite (on_message_rejected st ws t msg agent e).
    + unfold send. cbn [trace heap CONNECTIONS]. trace_simpl. auto.
    + destruct He as [->|(v & -> & Hv)]; [reflexivity|exact Hv].
Qed.

Lemma handler_receiving (st : state) (ws : nat) (t : task) (msg : str)
    (agent : agent_call) :
  tasks st !! ws = Some t -> at_ t = Receiving ->
  handler ws (Frame msg agent) st = Some (on_message ws t msg agent st).
Proof. intros Ht Hat. unfold handler. rewrite Ht, Hat. reflexivity. Qed.

(** *** Opening and closing a connection *)

(** A frame with a text to answer is a valid envelope. *)
Lemma text_valid_envelope (msg user_text : str) :
  rbind (loads msg) get_text = Ok user_text -> user_text <> [] ->
  valid_envelope msg user_text.
Proof.
  intros H Hne. destruct (loads msg) as [v|e] eqn:Hloads; [|discriminate H].
  cbn [rbind] in H. unfold get_text in H.
  destruct v as [| | | | | |d]; try discriminate H.
  destruct (dict_get d (lit "text")) as [x|] eqn:Hget; cbn [default] in H.
  - destruct x as [| | | |s| |]; try discriminate H. injection H as <-.
    exists d, s. repeat split; auto.
  - injection H as <-. exfalso. apply Hne. reflexivity.
Qed.

(** The [finally] clause on a registered connection. *)
Lemma finally_removes (st : state) (ws : nat) (t : task) (outcome : pc)
    (effs : list effect) (st0 : state) :
  conn_ok st ws -> tasks st !! ws = Some t -> running (at_ t) = true ->
  running outcome = false ->
  heap st0 = heap st -> CONNECTIONS st0 = CONNECTIONS st ->
  tasks st0 = tasks st -> trace st0 = trace st ++ effs ->
  removals ws effs = 0%nat ->
  let st' := finally ws t outcome st0 in
  is_Some (CONNECTIONS st !! ws)
  /\ CONNECTIONS st' = delete ws (CONNECTIONS st)
  /\ S (size (CONNECTIONS st')) = size (CONNECTIONS st)
  /\ is_closed st' ws = true
  /\ removals ws (trace st) = 0%nat
  /\ removals ws (trace st') = 1%nat
  /\ forall ev', handler ws ev' st' = None.
Proof.
  intros [E _ _ P _ _] Ht Hrun Hout Hh Hc Htasks Htr Heffs st'.
  unfold is_open, is_closed in E, P. rewrite Ht, Hrun in E, P.
  cbn [negb fmap option_fmap option_map] in E, P.
  assert (Hsome : is_Some (CONNECTIONS st !! ws)) by (rewrite E; eauto).
  subst st'. unfold finally, is_closed, handler.
  cbn [CONNECTIONS tasks trace]. rewrite Hc, Htasks, Htr, lookup_insert_eq.
  cbn [at_]. rewrite Hout. cbn [negb].
  split; [exact Hsome|]. split; [reflexivity|].
  split.
  { rewrite <- (insert_delete_id (CONNECTIONS st) ws _ E) at 2.
    rewrite map_size_insert_None by apply lookup_delete_eq. reflexivity. }
  split; [reflexivity|]. split; [exact P|]. split.
  - rewrite !removals_app, P, Heffs. unfold removals.
    cbn [List.filter]. rewrite bool_decide_eq_true_2 by exact Hsome.
    rewrite bool_decide_eq_true_2 by reflexivity. reflexivity.
  - intros ev'. destruct outcome; try discriminate Hout;
      destruct ev'; reflexivity.
Qed.

(** C4. In every state the process can reach, [CONNECTIONS] has an entry
    for a websocket exactly when that connection is open (its handler
    has started and has not left), so the registry has as many entries
    as there are open connections; the entry was created once and, for
    a connection that has closed, removed once, by a [pop] that found
    it.  Event by event: accepting a connection creates its entry, a
    fresh empty history, and the registry grows by one; every event
    that ends a connection ([leaves]: the receive loop ends or raises,
    the send of the greeting or of an [error] envelope raises, the send
    of an [agent] envelope or the agent call raises past
    [except Exception], also while a message is being processed)
    removes the entry, the registry shrinks by one, and the handler
    takes no further event, so the removal happens once; every other
    event the handler takes leaves the registry as it is and the
    connection open. *)
Theorem connections_track_open_handlers (st : state) :
  reachable st ->
  (forall ws, is_Some (CONNECTIONS st !! ws) <-> is_open st ws = true)
  /\ size (CONNECTIONS st) = size (open_connections st)
  /\ (forall ws,
        registrations ws (trace st)
        = (if is_open st ws || is_closed st ws then 1%nat else 0%nat)
        /\ removals ws (trace st) = (if is_closed st ws then 1%nat else 0%nat)
        /\ missed ws (trace st) = 0%nat)
  /\ (forall ws,
        tasks st !! ws = None ->
        exists st' a,
          handler ws Accepted st = Some st'
          /\ CONNECTIONS st !! ws = None
          /\ CONNECTIONS st' = <[ws := a]> (CONNECTIONS st)
          /\ heap st' !! a = Some []
          /\ size (CONNECTIONS st') = S (size (CONNECTIONS st))
          /\ is_open st' ws = true
          /\ registrations ws (trace st) = 0%nat
          /\ registrations ws (trace st') = 1%nat)
  /\ (forall ws t ev,
        tasks st !! ws = Some t -> leaves st t ev ->
        exists st',
          handler ws ev st = Some st'
          /\ is_Some (CONNECTIONS st !! ws)
          /\ CONNECTIONS st' = delete ws (CONNECTIONS st)
          /\ S (size (CONNECTIONS st')) = size (CONNECTIONS st)
          /\ is_closed st' ws = true
          /\ removals ws (trace st) = 0%nat
          /\ removals ws (trace st') = 1%nat
          /\ forall ev', handler ws ev' st' = None)
  /\ (forall ws t ev st',
        tasks st !! ws = Some t -> handler ws ev st = Some st' ->
        ~ leaves st t ev ->
        CONNECTIONS st' = CONNECTIONS st /\ is_open st' ws = true).
Proof.
  intros Hreach.
  assert (Hentry : forall ws,
             is_Some (CONNECTIONS st !! ws) <-> is_open st ws = true).
  { intros ws. destruct (reachable_conn_ok st ws Hreach) as [E _ _ _ _ _].
    rewrite E. unfold is_open.
    destruct (tasks st !! ws) as [t|]; [destruct (running (at_ t))|]; cbn;
      split; intros H; try discriminate H; try reflexivity; eauto;
      destruct H as [x Hx]; discriminate Hx. }
  split; [exact Hentry|]. split; [|split; [|split; [|split]]].
  - rewrite <- !size_dom. f_equal. apply set_eq. intros ws.
    rewrite !elem_of_dom, Hentry. unfold is_open, open_connections.
    split.
    + intros Hrun. destruct (tasks st !! ws) as [t|] eqn:Ht;
        [|discriminate Hrun].
      exists t. apply map_lookup_filter_Some. split; [exact Ht|exact Hrun].
    + intros [t Ht]. apply map_lookup_filter_Some in Ht as [Ht Hrun].
      rewrite Ht. exact Hrun.
  - intros ws. destruct (reachable_conn_ok st ws Hreach) as [_ _ R P M _].
    rewrite R, P, M. unfold is_open, is_closed.
    destruct (tasks st !! ws) as [t|]; [destruct (running (at_ t))|]; auto.
  - intros ws Hnone.
    destruct (reachable_conn_ok st ws Hreach) as [E _ R _ _ _].
    unfold is_open in E. rewrite Hnone in E, R.
    exists (on_accept ws st), (fresh (dom (heap st))).
    unfold handler. rewrite Hnone.
    unfold on_accept, send, is_open.
    cbn [heap CONNECTIONS tasks trace history].
    rewrite !lookup_insert_eq. cbn [at_ running].
    repeat split; try assumption.
    + apply map_size_insert_None. exact E.
    + rewrite !registrations_app, R. unfold registrations.
      cbn [List.filter]. rewrite bool_decide_eq_true_2 by reflexivity.
      reflexivity.
  - intros ws t ev Ht Hleaves.
    pose proof (reachable_conn_ok st ws Hreach) as Hok.
    unfold leaves in Hleaves. unfold handler. rewrite Ht.
    destruct t as [p h]. cbn [at_ history] in *.
    destruct p, ev; try contradiction.
    + eexists. split; [reflexivity|].
      apply (finally_removes st ws (Task SendingSystem h) _ [] st);
        auto; symmetry; apply app_nil_r.
    + destruct Hleaves as (user_text & e & Hvalid & Hagent & Hexc).
      eexists. split; [reflexivity|].
      destruct (valid_envelope_text _ _ Hvalid) as [Htext Hne].
      unfold on_message. rewrite Htext.
      destruct user_text as [|c u]; [contradiction|].
      cbn [history]. rewrite Hagent. unfold except. rewrite Hexc.
      apply (finally_removes st ws (Task Receiving h) _
               [Invoked ws (default [] (heap st !! h)
                            ++ [HumanMessage ((c :: u) ++ no_think)])]);
        auto.
    + eexists. split; [reflexivity|].
      apply (finally_removes st ws (Task Receiving h) _ [] st);
        auto; symmetry; apply app_nil_r.
    + eexists. split; [reflexivity|].
      apply (finally_removes st ws (Task Receiving h) _ [] st);
        auto; symmetry; apply app_nil_r.
    + eexists. split; [reflexivity|].
      unfold except. rewrite Hleaves.
      apply (finally_removes st ws (Task SendingAgent h) _ [] st);
        auto; symmetry; apply app_nil_r.
    + eexists. split; [reflexivity|].
      apply (finally_removes st ws (Task SendingError h) _ [] st);
        auto; symmetry; apply app_nil_r.
  - intros ws t ev st' Ht Hstep Hstays.
    unfold leaves in Hstays. unfold handler in Hstep. rewrite Ht in Hstep.
    destruct t as [p h]. cbn [at_ history] in *.
    destruct p, ev; try discriminate Hstep; injection Hstep as <-;
      try (exfalso; apply Hstays; exact I);
      try (unfold proceed, is_open; cbn [CONNECTIONS tasks];
           rewrite lookup_insert_eq; split; reflexivity).
    + destruct (rbind (loads msg) get_text) as [user_text|e] eqn:Htext.
      * unfold on_message. rewrite Htext.
        destruct user_text as [|c u].
        { unfold is_open. rewrite Ht. split; reflexivity. }
        cbn [history].
        destruct (agent _) as [ai_msg|e] eqn:Hagent.
        { unfold send, extend, log, is_open. cbn [CONNECTIONS tasks].
          rewrite lookup_insert_eq. split; reflexivity. }
        unfold except. destruct (is_Exception e) eqn:Hexc.
        { unfold send, log, is_open. cbn [CONNECTIONS tasks].
          rewrite lookup_insert_eq. split; reflexivity. }
        exfalso. apply Hstays. exists (c :: u), e.
        split; [|split; [exact Hagent|exact Hexc]].
        apply text_valid_envelope; [exact Htext|discriminate].
      * rewrite (on_message_rejected st ws (Task Receiving h) msg agent e
                   Htext).
        unfold send, is_open. cbn [CONNECTIONS tasks].
        rewrite lookup_insert_eq. split; reflexivity.
    + unfold except. destruct (is_Exception e) eqn:Hexc.
      * unfold send, is_open. cbn [CONNECTIONS tasks].
        rewrite lookup_insert_eq. split; reflexivity.
      * exfalso. apply Hstays. reflexivity.
Qed.


(** C10. For a valid envelope with trimmed text [user_text], received
    with history [h]: the agent is invoked on [h] followed by a human
    message whose text is [user_text] with ["\n /no_think"] appended;
    when the call succeeds, the human turn appended to the history holds
    [user_text] alone, so it is not the message the agent was shown. *)
Theorem agent_sees_suffix_history_does_not (st : state) (ws : nat)
    (t : task) (h : list BaseMessage) (msg user_text : str)
    (agent : agent_call) :
  reachable st ->
  tasks st !! ws = Some t -> at_ t = Receiving ->
  history_of st ws = Some h ->
  valid_envelope msg user_text ->
  exists st',
    handler ws (Frame msg agent) st = Some st'
    /\ invocations ws (trace st')
       = invocations ws (trace st)
         ++ [h ++ [HumanMessage (user_text ++ lit "
 /no_think")]]
    /\ (forall ai_msg,
          agent (h ++ [HumanMessage (user_text ++ no_think)]) = Ok ai_msg ->
          history_of st' ws = Some (h ++ [HumanMessage user_text; ai_msg]))
    /\ HumanMessage user_text <> HumanMessage (user_text ++ no_think).
Proof.
  intros Hreach Ht Hat Hh Hvalid.
  assert (Hrun : running (at_ t) = true) by (rewrite Hat; reflexivity).
  destruct (running_history st ws t Hreach Ht Hrun) as (Hentry & Hhist & _).
  rewrite Hh in Hhist. symmetry in Hhist.
  eexists. split; [exact (handler_receiving st ws t msg agent Ht Hat)|].
  rewrite (on_message_valid st ws t msg agent user_text h Hvalid Hhist).
  change (lit "
 /no_think") with no_think.
  split; [|split].
  - destruct (agent _) as [ai_msg|e];
      [|unfold except; destruct (is_Exception e)];
      unfold send, finally, extend, log; cbn [trace]; trace_simpl; reflexivity.
  - intros ai_msg ->.
    unfold history_of, send, extend, log. cbn [CONNECTIONS heap].
    rewrite Hentry. cbn. rewrite lookup_insert_eq, Hhist. reflexivity.
  - intros [= Heq]. apply (f_equal (@length Z)) in Heq.
    rewrite length_app in Heq. simpl in Heq. lia.
Qed.

(** *** The greeting and the first turn *)


Lemma hi_envelope_valid : valid_envelope (qlit "{'text':'hi'}") (lit "hi").
Proof.
  exists [(lit "text", JStr (lit "hi"))], (lit "hi").
  repeat split; try (vm_compute; reflexivity). discriminate.
Qed.


(** *** Sample runs *)

Example busy_summary :
  history_of busy 0 = Some [HumanMessage (lit "hi"); AIMessage (lit "hello")]
  /\ history_of busy 1 = None
  /\ sent 1 (trace busy)
     = [system_frame;
        error_frame (Exn (OtherException "APIConnectionError")
                       (lit "Connection error."))]
  /\ invocations 1 (trace busy) = [[HumanMessage (lit "x" ++ no_think)]]
  /\ size (CONNECTIONS busy) = 1%nat.
Proof. repeat split; vm_compute; reflexivity. Qed.

Lemma frame_without_text_or_malformed_witness :
  handler 0 (Frame (qlit "{'text': '  '}") echo_agent) greeted = Some greeted
  /\ exists st',
       handler 0 (Frame (qlit "[1, 2]") echo_agent) greeted = Some st'
       /\ sent 0 (trace st')
          = sent 0 (trace greeted)
            ++ [error_frame (Exn AttributeError
                  (lit "'list' object has no attribute 'get'"))].
Proof.
  assert (Ht : tasks greeted !! 0%nat = Some (Task Receiving 0))
    by (vm_compute; reflexivity).
  split.
  - apply (proj1 (frame_without_text_or_malformed greeted 0
                    (Task Receiving 0) (qlit "{'text': '  '}") echo_agent
                    Ht eq_refl)
             [(lit "text", JStr (lit "  "))]).
    + vm_compute. reflexivity.
    + right. exists (lit "  "). split; vm_compute; reflexivity.
  - destruct (proj2 (frame_without_text_or_malformed greeted 0
                       (Task Receiving 0) (qlit "[1, 2]") echo_agent
                       Ht eq_refl)
                (Exn AttributeError
                   (lit "'list' object has no attribute 'get'")))
      as (st' & Hstep & Hsent & _).
    + right. exists (JList [JInt 1; JInt 2]). split; vm_compute; reflexivity.
    + exists st'. split; [exact Hstep|exact Hsent].
Defined.


Lemma connections_track_open_handlers_witness :
  size (CONNECTIONS busy) = size (open_connections busy)
  /\ removals 1 (trace busy) = 1%nat
  /\ (exists st' a,
        handler 2 Accepted busy = Some st'
        /\ CONNECTIONS st' = <[2%nat := a]> (CONNECTIONS busy)
        /\ size (CONNECTIONS st') = S (size (CONNECTIONS busy)))
  /\ (exists st',
        handler 0 Exhausted busy = Some st'
        /\ CONNECTIONS st' = delete 0%nat (CONNECTIONS busy)
        /\ S (size (CONNECTIONS st')) = size (CONNECTIONS busy)
        /\ removals 0 (trace st') = 1%nat
        /\ forall ev', handler 0 ev' st' = None).
Proof.
  destruct (connections_track_open_handlers busy)
    as (_ & Hsize & Hcount & Hopen & Hclose & _).
  - exists busy_schedule. vm_compute. reflexivity.
  - split; [exact Hsize|]. split; [|split].
    + destruct (Hcount 1%nat) as (_ & Hremoved & _). exact Hremoved.
    + destruct (Hopen 2%nat) as (st' & a & H1 & _ & H3 & _ & H5 & _);
        [vm_compute; reflexivity|].
      exists st', a. auto.
    + destruct (Hclose 0%nat (Task Receiving 0) Exhausted)
        as (st' & H1 & _ & H3 & H4 & _ & _ & H7 & H8);
        [vm_compute; reflexivity|exact I|].
      exists st'. auto.
Defined.

Lemma agent_sees_suffix_history_does_not_witness :
  exists st',
    handler 0 (Frame (qlit "{'text': ' hi '}") echo_agent) greeted = Some st'
    /\ invocations 0 (trace st')
       = invocations 0 (trace greeted)
         ++ [[] ++ [HumanMessage (lit "hi" ++ no_think)]]
    /\ history_of st' 0
       = Some ([] ++ [HumanMessage (lit "hi"); AIMessage (lit "hello")]).
Proof.
  destruct (agent_sees_suffix_history_does_not greeted 0 (Task Receiving 0)
              [] (qlit "{'text': ' hi '}") (lit "hi") echo_agent)
    as (st' & H1 & H2 & H3 & _).
  - exists greeted_schedule. vm_compute. reflexivity.
  - vm_compute. reflexivity.
  - reflexivity.
  - vm_compute. reflexivity.
  - exists [(lit "text", JStr (lit " hi "))], (lit " hi ").
    repeat split; try (vm_compute; reflexivity). discriminate.
  - exists st'. split; [exact H1|]. split; [exact H2|].
    apply H3. reflexivity.
Defined.


(** ** Decoding what the encoder wrote *)

(** *** Digits and integers *)

Ltac zb :=
  repeat match goal with
         | |- context [?a =? ?b] =>
             destruct (Z.eqb_spec a b); try lia
         | |- context [?a <=? ?b] =>
             destruct (Z.leb_spec a b); try lia
         | |- context [?a <? ?b] =>
             destruct (Z.ltb_spec a b); try lia
         end.

Lemma uint_chars_digits (d : Decimal.uint) :
  Forall (fun c => is_digit c = true) (uint_chars d).
Proof. induction d; simpl; constructor; auto. Qed.

Lemma uint_of_uint_chars (d : Decimal.uint) :
  uint_of_chars (uint_chars d) = d.
Proof. induction d; simpl; try rewrite IHd; reflexivity. Qed.

Lemma span_digits_all (ds rest : str) :
  Forall (fun c => is_digit c = true) ds ->
  match rest with [] => True | c :: _ => is_digit c = false end ->
  span_digits (ds ++ rest) = (ds, rest).
Proof.
  intros Hds Hrest. induction Hds as [|c ds Hc _ IH]; simpl.
  - destruct rest as [|c rest]; [reflexivity|]. simpl. rewrite Hrest.
    reflexivity.
  - rewrite Hc, IH. reflexivity.
Qed.

Lemma pos_to_uint_canonical (p : positive) :
  canonical_digits (uint_chars (Pos.to_uint p)).
Proof.
  split; [apply uint_chars_digits|]. right.
  pose proof (DecimalPos.Unsigned.to_uint_nonnil p) as Hnil.
  assert (Hnorm : unorm (Pos.to_uint p) = Pos.to_uint p).
  { change (Pos.to_uint p) with (N.to_uint (Npos p)) at 2.
    rewrite <- (DecimalPos.Unsigned.of_to p).
    symmetry. apply DecimalPos.Unsigned.to_of. }
  assert (Hhead : forall d', Pos.to_uint p <> D0 d').
  { intros d' Heq. rewrite Heq, unorm_D0 in Hnorm. unfold unorm in Hnorm.
    destruct (nzhead d') eqn:Hnz; try discriminate Hnorm.
    - injection Hnorm as <-.
      exact (DecimalPos.Unsigned.to_uint_nonzero p Heq).
    - exact (nzhead_nonzero d' _ Hnz). }
  destruct (Pos.to_uint p) as [|d|d|d|d|d|d|d|d|d|d]; try congruence;
    try (eexists _, _; split; [reflexivity|discriminate]).
Qed.

(** [str(n)] is an optional minus sign and canonical digits, and [int]
    reads it back. *)
Lemma str_of_int_shape (n : Z) :
  exists negative ds,
    str_of_int n = (if negative : bool then [45] else []) ++ ds
    /\ canonical_digits ds
    /\ int_of_lexeme negative ds = n.
Proof.
  unfold str_of_int, int_of_lexeme. destruct n as [|p|p].
  - exists false, [48]. repeat split.
    + repeat constructor.
    + left. reflexivity.
  - exists false, (uint_chars (Pos.to_uint p)).
    split; [reflexivity|]. split; [apply pos_to_uint_canonical|].
    rewrite uint_of_uint_chars. exact (DecimalZ.of_to (Z.pos p)).
  - exists true, (uint_chars (Pos.to_uint p)).
    split; [reflexivity|]. split; [apply pos_to_uint_canonical|].
    rewrite uint_of_uint_chars. exact (DecimalZ.of_to (Z.neg p)).
Qed.

Lemma match_integer_canonical (negative : bool) (ds rest : str) :
  canonical_digits ds ->
  match rest with [] => True | c :: _ => is_digit c = false end ->
  match_integer ((if negative then [45] else []) ++ ds ++ rest)
  = Some (negative, ds, rest).
Proof.
  intros [Hds Hshape] Hrest. unfold match_integer.
  assert (Hbody :
    match ds ++ rest with
    | c :: s2 =>
        if c =? 48 then Some (negative, [c], s2)
        else if is_digit c then
          let '(ds0, rest0) := span_digits (ds ++ rest) in
          Some (negative, ds0, rest0)
        else None
    | [] => None
    end = Some (negative, ds, rest)).
  { destruct Hshape as [->|(c & ds' & -> & Hc)]; [reflexivity|].
    rewrite (span_digits_all (c :: ds') rest Hds Hrest).
    cbn [app]. destruct (Z.eqb_spec c 48) as [|_]; [congruence|].
    inversion Hds as [|? ? Hdc Hds']; subst. rewrite Hdc. reflexivity. }
  destruct negative; simpl app.
  - simpl. exact Hbody.
  - destruct Hshape as [->|(c & ds' & -> & Hc)]; simpl app.
    + simpl. reflexivity.
    + inversion Hds as [|? ? Hdc Hds']; subst.
      assert (Hne : (c =? 45) = false).
      { destruct (Z.eqb_spec c 45) as [->|_];
          [discriminate Hdc|reflexivity]. }
      rewrite Hne. exact Hbody.
Qed.

(** *** Floats *)

Lemma match_frac_fraction (frac tail : str) :
  fraction frac ->
  match tail with
  | [] => True
  | c :: _ => is_digit c = false /\ c <> 46
  end ->
  match_frac (frac ++ tail) = (frac, tail).
Proof.
  intros [->|(c & fd & -> & Hfd)] Htail; unfold match_frac.
  - simpl app. destruct tail as [|dot [|c tail]]; try reflexivity.
    destruct Htail as [_ Hdot].
    destruct (Z.eqb_spec dot 46) as [|_]; [congruence|]. reflexivity.
  - cbn [app]. inversion Hfd as [|? ? Hc Hfd']; subst.
    rewrite Hc. cbn [Z.eqb Pos.eqb andb].
    change (c :: fd ++ tail) with ((c :: fd) ++ tail).
    rewrite (span_digits_all (c :: fd) tail Hfd).
    + reflexivity.
    + destruct tail; [exact I|apply Htail].
Qed.

Lemma match_exp_exponent (exp rest : str) :
  exponent exp -> number_end rest ->
  match_exp (exp ++ rest) = (exp, rest).
Proof.
  intros [->|(e & sign & c & ed & -> & He & Hsign & Hed)] Hrest;
    unfold match_exp.
  - simpl app. destruct rest as [|e rest]; [reflexivity|].
    destruct Hrest as (_ & _ & H101 & H69).
    destruct (Z.eqb_spec e 101) as [|_]; [congruence|].
    destruct (Z.eqb_spec e 69) as [|_]; [congruence|]. reflexivity.
  - assert (Hrest' : match rest with
                     | [] => True
                     | c :: _ => is_digit c = false
                     end) by (destruct rest; [exact I|apply Hrest]).
    inversion Hed as [|? ? Hc Hed']; subst.
    assert (He' : (e =? 101) || (e =? 69) = true)
      by (destruct He as [->| ->]; reflexivity).
    cbn [app]. rewrite He'.
    destruct Hsign as [->|[->| ->]]; cbn [app Z.eqb Pos.eqb orb].
    + assert (Hc45 : (c =? 45) = false)
        by (destruct (Z.eqb_spec c 45) as [->|_];
            [discriminate Hc|reflexivity]).
      assert (Hc43 : (c =? 43) = false)
        by (destruct (Z.eqb_spec c 43) as [->|_];
            [discriminate Hc|reflexivity]).
      rewrite Hc45, Hc43, Hc. cbn [orb].
      change (c :: ed ++ rest) with ((c :: ed) ++ rest).
      rewrite (span_digits_all (c :: ed) rest Hed Hrest'). reflexivity.
    + rewrite Hc. change (c :: ed ++ rest) with ((c :: ed) ++ rest).
      rewrite (span_digits_all (c :: ed) rest Hed Hrest'). reflexivity.
    + rewrite Hc. change (c :: ed ++ rest) with ((c :: ed) ++ rest).
      rewrite (span_digits_all (c :: ed) rest Hed Hrest'). reflexivity.
Qed.

(** The first character of a fraction, an exponent or the text after a
    number is no digit. *)
Lemma numeral_tail_head (frac exp rest : str) :
  fraction frac -> exponent exp -> number_end rest ->
  match frac ++ exp ++ rest with
  | [] => True
  | c :: _ => is_digit c = false
  end
  /\ match exp ++ rest with
     | [] => True
     | c :: _ => is_digit c = false /\ c <> 46
     end.
Proof.
  intros Hfrac Hexp Hrest.
  assert (Hexp_rest : match exp ++ rest with
                      | [] => True
                      | c :: _ => is_digit c = false /\ c <> 46
                      end).
  { destruct Hexp as [->|(e & sign & c & ed & -> & He & _)].
    - simpl. destruct rest; [exact I|]. split; apply Hrest.
    - cbn [app]. destruct He as [->| ->]; split; [reflexivity|lia| |lia];
        reflexivity. }
  split; [|exact Hexp_rest].
  destruct Hfrac as [->|(c & fd & -> & _)]; [|reflexivity].
  simpl. destruct (exp ++ rest); [exact I|apply Hexp_rest].
Qed.

Lemma match_number_int (n : Z) (rest : str) :
  number_end rest ->
  match_number (str_of_int n ++ rest) = Some (JInt n, rest).
Proof.
  intros Hrest. destruct (str_of_int_shape n) as (neg & ds & -> & Hds & Hn).
  unfold match_number. rewrite <- app_assoc.
  rewrite (match_integer_canonical neg ds rest Hds)
    by (destruct rest; [exact I|apply Hrest]).
  pose proof (match_frac_fraction [] rest (or_introl eq_refl)) as Hfrac.
  pose proof (match_exp_exponent [] rest (or_introl eq_refl) Hrest) as Hexp.
  cbn [app] in Hfrac, Hexp. rewrite Hfrac, Hexp, Hn; [reflexivity|].
  destruct rest; [exact I|split; apply Hrest].
Qed.

Lemma match_number_float (numeral rest : str) :
  float_numeral numeral -> number_end rest ->
  match_number (numeral ++ rest) = Some (JFloat (Finite numeral), rest).
Proof.
  intros (neg & ds & frac & exp & -> & Hds & Hfrac & Hexp & Hsome) Hrest.
  destruct (numeral_tail_head frac exp rest Hfrac Hexp Hrest)
    as [Hhead1 Hhead2].
  unfold match_number.
  replace (((if neg then [45] else []) ++ ds ++ frac ++ exp) ++ rest)
    with ((if neg then [45] else []) ++ ds ++ frac ++ exp ++ rest)
    by (rewrite <- !app_assoc; reflexivity).
  rewrite (match_integer_canonical neg ds _ Hds Hhead1).
  rewrite (match_frac_fraction frac _ Hfrac Hhead2).
  rewrite (match_exp_exponent exp rest Hexp Hrest).
  destruct frac as [|f frac]; [destruct exp as [|e exp]|]; try reflexivity.
  destruct Hsome; congruence.
Qed.

(** *** Strings *)

Lemma hexval_hexdigit (d : Z) :
  0 <= d < 16 -> hexval (hexdigit d) = Some d.
Proof.
  intros Hd.
  assert (Hcases : d = 0 \/ d = 1 \/ d = 2 \/ d = 3 \/ d = 4 \/ d = 5
                   \/ d = 6 \/ d = 7 \/ d = 8 \/ d = 9 \/ d = 10 \/ d = 11
                   \/ d = 12 \/ d = 13 \/ d = 14 \/ d = 15) by lia.
  repeat (destruct Hcases as [->|Hcases]; [reflexivity|]).
  subst d. reflexivity.
Qed.

Lemma decode_escape_u (n : Z) :
  0 <= n < 65536 ->
  exists h1 h2 h3 h4,
    escape_u n = [92; 117; h1; h2; h3; h4]
    /\ decode_uXXXX h1 h2 h3 h4 = Some n.
Proof.
  intros Hn. eexists _, _, _, _. split; [reflexivity|].
  unfold decode_uXXXX.
  rewrite !hexval_hexdigit.
  - f_equal.
    pose proof (Z.div_mod n 16 ltac:(lia)).
    pose proof (Z.div_mod (n / 16) 16 ltac:(lia)).
    pose proof (Z.div_mod (n / 16 / 16) 16 ltac:(lia)).
    replace (n / 256) with (n / 16 / 16)
      by (rewrite Z.div_div by lia; reflexivity).
    replace (n / 4096) with (n / 16 / 16 / 16)
      by (rewrite !Z.div_div by lia; reflexivity).
    assert (Htop : n / 16 / 16 / 16 < 16).
    { rewrite !Z.div_div by lia. apply Z.div_lt_upper_bound; lia. }
    pose proof (Z.mod_small (n / 16 / 16 / 16) 16
                  ltac:(split; [repeat apply Z.div_pos; lia|lia])).
    lia.
  - apply Z.mod_pos_bound. lia.
  - apply Z.mod_pos_bound. lia.
  - apply Z.mod_pos_bound. lia.
  - split; [apply Z.div_pos; lia|apply Z.div_lt_upper_bound; lia].
Qed.

Lemma scanstring_plain (begin acc tail : str) (c : Z) :
  32 <= c -> c <> 34 -> c <> 92 ->
  scanstring begin acc (c :: tail) = scanstring begin (c :: acc) tail.
Proof. intros H32 H34 H92. simpl. zb. reflexivity. Qed.

Lemma scanstring_u (begin acc tail : str) (h1 h2 h3 h4 uni : Z) :
  decode_uXXXX h1 h2 h3 h4 = Some uni ->
  ~ (55296 <= uni <= 56319) ->
  scanstring begin acc (92 :: 117 :: h1 :: h2 :: h3 :: h4 :: tail)
  = scanstring begin (uni :: acc) tail.
Proof.
  intros Hdec Hrange. cbn [scanstring Z.eqb Pos.eqb Z.leb Z.ltb Z.compare
                           Pos.compare Pos.compare_cont andb].
  rewrite Hdec.
  destruct (Z.leb_spec 55296 uni), (Z.leb_spec uni 56319); cbn [andb];
    try reflexivity; lia.
Qed.

Lemma scanstring_pair (begin acc tail : str)
    (h1 h2 h3 h4 l1 l2 l3 l4 hi lo : Z) :
  decode_uXXXX h1 h2 h3 h4 = Some hi ->
  decode_uXXXX l1 l2 l3 l4 = Some lo ->
  55296 <= hi <= 56319 -> 56320 <= lo <= 57343 ->
  scanstring begin acc
    (92 :: 117 :: h1 :: h2 :: h3 :: h4
     :: 92 :: 117 :: l1 :: l2 :: l3 :: l4 :: tail)
  = scanstring begin
      (65536 + Z.lor (Z.shiftl (hi - 55296) 10) (lo - 56320) :: acc) tail.
Proof.
  intros Hhi Hlo Hrhi Hrlo.
  cbn [scanstring Z.eqb Pos.eqb Z.leb Z.ltb Z.compare Pos.compare
       Pos.compare_cont andb].
  rewrite Hhi.
  destruct (Z.leb_spec 55296 hi), (Z.leb_spec hi 56319); try lia.
  cbn [andb]. rewrite Hlo.
  destruct (Z.leb_spec 56320 lo), (Z.leb_spec lo 57343); try lia.
  reflexivity.
Qed.

Lemma lor_shifted (a b n : Z) :
  0 <= n -> 0 <= b < 2 ^ n -> Z.lor (a * 2 ^ n) b = a * 2 ^ n + b.
Proof.
  intros Hn Hb.
  assert (Hland : Z.land (a * 2 ^ n) b = 0).
  { apply Z.bits_inj'. intros i Hi. rewrite Z.land_spec, Z.bits_0.
    destruct (Z.lt_ge_cases i n) as [Hlt|Hge].
    - rewrite Z.mul_pow2_bits_low by lia. reflexivity.
    - destruct (Z.eq_dec b 0) as [->|Hb0].
      + rewrite Z.bits_0. apply andb_false_r.
      + rewrite (Z.bits_above_log2 b i); [apply andb_false_r|lia|].
        assert (Z.log2 b < n) by (apply Z.log2_lt_pow2; lia). lia. }
  rewrite <- Z.lxor_lor by exact Hland.
  symmetry. apply Z.add_nocarry_lxor. exact Hland.
Qed.

Lemma surrogate_pair (c : Z) :
  65536 <= c <= 1114111 ->
  let n := c - 65536 in
  let s1 := Z.lor 55296 (Z.land (Z.shiftr n 10) 1023) in
  let s2 := Z.lor 56320 (Z.land n 1023) in
  55296 <= s1 <= 56319 /\ 56320 <= s2 <= 57343
  /\ 65536 + Z.lor (Z.shiftl (s1 - 55296) 10) (s2 - 56320) = c.
Proof.
  intros Hc n s1 s2.
  assert (Hn : 0 <= n < 1048576) by (unfold n; lia).
  assert (Hhi : 0 <= n / 1024 < 1024)
    by (split; [apply Z.div_pos; lia|apply Z.div_lt_upper_bound; lia]).
  assert (Hlo : 0 <= n mod 1024 < 1024) by (apply Z.mod_pos_bound; lia).
  assert (Hs1 : s1 = 55296 + n / 1024).
  { unfold s1. rewrite Z.shiftr_div_pow2 by lia.
    change 1023 with (Z.ones 10). rewrite Z.land_ones by lia.
    change (2 ^ 10) with 1024. rewrite (Z.mod_small (n / 1024)) by lia.
    change 55296 with (54 * 2 ^ 10). apply lor_shifted; [lia|].
    change (2 ^ 10) with 1024. lia. }
  assert (Hs2 : s2 = 56320 + n mod 1024).
  { unfold s2. change 1023 with (Z.ones 10). rewrite Z.land_ones by lia.
    change (2 ^ 10) with 1024.
    change 56320 with (55 * 2 ^ 10). apply lor_shifted; [lia|].
    change (2 ^ 10) with 1024. lia. }
  rewrite Hs1, Hs2. split; [lia|]. split; [lia|].
  replace (55296 + n / 1024 - 55296) with (n / 1024) by lia.
  replace (56320 + n mod 1024 - 56320) with (n mod 1024) by lia.
  rewrite Z.shiftl_mul_pow2 by lia. rewrite lor_shifted; [|lia|].
  - change (2 ^ 10) with 1024. pose proof (Z.div_mod n 1024 ltac:(lia)).
    unfold n in *. lia.
  - change (2 ^ 10) with 1024. lia.
Qed.

(** The decoder reads one encoded character back. *)
Lemma scanstring_escape_dct (begin acc tail e : str) (c : Z) :
  escape_dct c = Some e ->
  scanstring begin acc (e ++ tail) = scanstring begin (c :: acc) tail.
Proof.
  unfold escape_dct. intros He.
  destruct (Z.eqb_spec c 92) as [Heq|_];
    [subst c; injection He as <-; reflexivity|].
  destruct (Z.eqb_spec c 34) as [Heq|_];
    [subst c; injection He as <-; reflexivity|].
  destruct (Z.eqb_spec c 8) as [Heq|_];
    [subst c; injection He as <-; reflexivity|].
  destruct (Z.eqb_spec c 12) as [Heq|_];
    [subst c; injection He as <-; reflexivity|].
  destruct (Z.eqb_spec c 10) as [Heq|_];
    [subst c; injection He as <-; reflexivity|].
  destruct (Z.eqb_spec c 13) as [Heq|_];
    [subst c; injection He as <-; reflexivity|].
  destruct (Z.eqb_spec c 9) as [Heq|_];
    [subst c; injection He as <-; reflexivity|].
  destruct (Z.leb_spec 0 c) as [H0|_]; [|discriminate He].
  destruct (Z.ltb_spec c 32) as [H32|_]; [|discriminate He].
  injection He as <-.
  destruct (decode_escape_u c ltac:(lia)) as (h1 & h2 & h3 & h4 & -> & Hdec).
  apply scanstring_u; [exact Hdec|lia].
Qed.

Lemma escape_dct_none (c : Z) :
  0 <= c -> escape_dct c = None -> 32 <= c /\ c <> 34 /\ c <> 92.
Proof.
  unfold escape_dct. intros H0 He.
  destruct (Z.eqb_spec c 92); [discriminate He|].
  destruct (Z.eqb_spec c 34); [discriminate He|].
  destruct (Z.eqb_spec c 8); [discriminate He|].
  destruct (Z.eqb_spec c 12); [discriminate He|].
  destruct (Z.eqb_spec c 10); [discriminate He|].
  destruct (Z.eqb_spec c 13); [discriminate He|].
  destruct (Z.eqb_spec c 9); [discriminate He|].
  destruct (Z.leb_spec 0 c); [|lia].
  destruct (Z.ltb_spec c 32); [discriminate He|]. lia.
Qed.

Lemma scanstring_encode_char (begin acc tail : str) (c : Z) :
  scalar c ->
  scanstring begin acc (encode_char c ++ tail)
  = scanstring begin (c :: acc) tail.
Proof.
  intros [Hc _]. unfold encode_char.
  destruct (escape_dct c) as [e|] eqn:He.
  - apply scanstring_escape_dct. exact He.
  - destruct (escape_dct_none c ltac:(lia) He) as (H32 & H34 & H92).
    apply scanstring_plain; assumption.
Qed.

Lemma scanstring_encode_char_ascii (begin acc tail : str) (c : Z) :
  scalar c ->
  scanstring begin acc (encode_char_ascii c ++ tail)
  = scanstring begin (c :: acc) tail.
Proof.
  intros [Hc Hsur]. unfold encode_char_ascii.
  destruct (escape_dct c) as [e|] eqn:He.
  - apply scanstring_escape_dct. exact He.
  - destruct (escape_dct_none c ltac:(lia) He) as (H32 & H34 & H92).
    destruct (Z.leb_spec 32 c) as [_|]; [|lia].
    destruct (Z.leb_spec c 126) as [H126|H126]; cbn [andb].
    + apply scanstring_plain; assumption.
    + destruct (Z.ltb_spec c 65536) as [Hbmp|Hastral].
      * destruct (decode_escape_u c ltac:(lia))
          as (h1 & h2 & h3 & h4 & -> & Hdec).
        apply scanstring_u; [exact Hdec|lia].
      * destruct (surrogate_pair c ltac:(lia)) as (Hs1 & Hs2 & Hback).
        cbv zeta in Hs1, Hs2, Hback.
        set (s1 := Z.lor 55296 (Z.land (Z.shiftr (c - 65536) 10) 1023)) in *.
        set (s2 := Z.lor 56320 (Z.land (c - 65536) 1023)) in *.
        destruct (decode_escape_u s1 ltac:(lia))
          as (h1 & h2 & h3 & h4 & -> & Hdec1).
        destruct (decode_escape_u s2 ltac:(lia))
          as (l1 & l2 & l3 & l4 & -> & Hdec2).
        cbn [app].
        rewrite (scanstring_pair begin acc tail _ _ _ _ _ _ _ _ _ _
                   Hdec1 Hdec2 Hs1 Hs2).
        rewrite Hback. reflexivity.
Qed.

Lemma scanstring_encoded (o : dump_opts) (begin acc s rest : str) :
  Forall scalar s ->
  scanstring begin acc
    (flat_map (if ensure_ascii o then encode_char_ascii else encode_char) s
     ++ 34 :: rest)
  = Scanned (rev acc ++ s) rest.
Proof.
  intros Hs. revert acc. induction Hs as [|c s Hc _ IH]; intros acc.
  - simpl. rewrite app_nil_r. reflexivity.
  - cbn [flat_map]. rewrite <- app_assoc.
    destruct (ensure_ascii o).
    + rewrite scanstring_encode_char_ascii by exact Hc.
      rewrite IH. cbn [rev]. rewrite <- app_assoc. reflexivity.
    + rewrite scanstring_encode_char by exact Hc.
      rewrite IH. cbn [rev]. rewrite <- app_assoc. reflexivity.
Qed.

(** *** Values *)

(** Induction over a value and the values inside it. *)
Lemma json_nested_ind (P : json -> Prop) :
  P JNull -> (forall b, P (JBool b)) -> (forall n, P (JInt n)) ->
  (forall f, P (JFloat f)) -> (forall s, P (JStr s)) ->
  (forall items, Forall P items -> P (JList items)) ->
  (forall items, Forall (fun kv => P (snd kv)) items -> P (JDict items)) ->
  forall v, P v.
Proof.
  intros Hnull Hbool Hint Hfloat Hstr Hlist Hdict.
  fix go 1. intros [|b|n|f|s|items|items].
  - exact Hnull.
  - apply Hbool.
  - apply Hint.
  - apply Hfloat.
  - apply Hstr.
  - apply Hlist. induction items as [|x items IH]; constructor.
    + apply go.
    + exact IH.
  - apply Hdict. induction items as [|[k x] items IH]; constructor.
    + apply go.
    + exact IH.
Qed.

Lemma encode_list_cons (o : dump_opts) (level : nat) (x : json)
    (xs : list json) :
  encode o level (JList (x :: xs))
  = 91 :: newline_indent o (S level) ++ encode o (S level) x
    ++ encode_list_tail o level xs ++ newline_indent o level ++ [93].
Proof.
  cbn [encode]. change (lit "[") with [91]. change (lit "]") with [93].
  cbn [app]. do 3 f_equal.
  induction xs as [|y xs IH]; [reflexivity|].
  cbn [encode_list_tail]. rewrite <- !app_assoc. do 3 f_equal. exact IH.
Qed.

Lemma encode_dict_cons (o : dump_opts) (level : nat) (k : str) (x : json)
    (xs : list (str * json)) :
  encode o level (JDict ((k, x) :: xs))
  = 123 :: newline_indent o (S level) ++ encode_str o k ++ key_separator
    ++ encode o (S level) x
    ++ encode_dict_tail o level xs ++ newline_indent o level ++ [125].
Proof.
  cbn [encode]. change (lit "{") with [123]. change (lit "}") with [125].
  cbn [app]. do 5 f_equal.
  induction xs as [|[k' y] xs IH]; [reflexivity|].
  cbn [encode_dict_tail]. rewrite <- !app_assoc. do 5 f_equal. exact IH.
Qed.

Lemma value_head_facts (c : Z) :
  value_head c = true ->
  is_ws c = false /\ (c =? 93) = false /\ (c =? 125) = false
  /\ (c =? 65279) = false.
Proof.
  unfold value_head, is_digit, is_ws. intros H.
  destruct (Z.leb_spec 48 c), (Z.leb_spec c 57), (Z.eqb_spec c 45),
    (Z.eqb_spec c 34), (Z.eqb_spec c 91), (Z.eqb_spec c 123),
    (Z.eqb_spec c 110), (Z.eqb_spec c 116), (Z.eqb_spec c 102);
    cbn in H; try discriminate H; repeat split; zb; reflexivity.
Qed.

Lemma canonical_digits_head (ds : str) :
  canonical_digits ds -> exists c ds', ds = c :: ds' /\ is_digit c = true.
Proof.
  intros [Hds [->|(c & ds' & -> & _)]].
  - exists 48, []. split; reflexivity.
  - exists c, ds'. split; [reflexivity|]. inversion Hds; assumption.
Qed.

Lemma signed_digits_head (negative : bool) (ds tail : str) :
  canonical_digits ds ->
  exists c s, (if negative then [45] else []) ++ ds ++ tail = c :: s
    /\ (is_digit c = true \/ c = 45).
Proof.
  intros Hds. destruct negative; cbn [app].
  - eexists _, _. split; [reflexivity|]. right. reflexivity.
  - destruct (canonical_digits_head ds Hds) as (c & ds' & -> & Hc).
    eexists _, _. split; [reflexivity|]. left. exact Hc.
Qed.

Lemma encode_head (o : dump_opts) (level : nat) (v : json) :
  scalar_json v ->
  exists c s, encode o level v = c :: s /\ value_head c = true.
Proof.
  intros Hv. destruct Hv as [|[|]|n|numeral Hnum|s Hs|items _|items _ _].
  - eexists _, _. split; reflexivity.
  - eexists _, _. split; reflexivity.
  - eexists _, _. split; reflexivity.
  - cbn [encode].
    destruct (str_of_int_shape n) as (neg & ds & -> & Hds & _).
    destruct (signed_digits_head neg ds [] Hds) as (c & s & Heq & Hc).
    rewrite app_nil_r in Heq. rewrite Heq. exists c, s.
    split; [reflexivity|]. unfold value_head.
    destruct Hc as [->| ->]; reflexivity.
  - cbn [encode floatstr].
    destruct Hnum as (neg & ds & frac & exp & -> & Hds & _).
    destruct (signed_digits_head neg ds (frac ++ exp) Hds)
      as (c & s & -> & Hc).
    exists c, s. split; [reflexivity|]. unfold value_head.
    destruct Hc as [->| ->]; reflexivity.
  - eexists _, _. split; reflexivity.
  - destruct items; eexists _, _; split; reflexivity.
  - destruct items as [|[k x] items]; eexists _, _; split; reflexivity.
Qed.

(** *** White space between the tokens *)

Lemma skip_ws_spaces (n : nat) (s : str) :
  skip_ws (repeat 32 n ++ s) = skip_ws s.
Proof. induction n as [|n IH]; [reflexivity|exact IH]. Qed.

Lemma skip_ws_newline_indent (o : dump_opts) (level : nat) (s : str) :
  skip_ws (newline_indent o level ++ s) = skip_ws s.
Proof.
  unfold newline_indent. destruct (indent o) as [k|]; [|reflexivity].
  cbn [app skip_ws is_ws Z.eqb Pos.eqb orb]. apply skip_ws_spaces.
Qed.

Lemma skip_ws_head (c : Z) (s : str) :
  is_ws c = false -> skip_ws (c :: s) = c :: s.
Proof. intros Hc. cbn [skip_ws]. rewrite Hc. reflexivity. Qed.

Lemma skip_ws_encode (o : dump_opts) (level : nat) (v : json) (s : str) :
  scalar_json v ->
  skip_ws (encode o level v ++ s) = encode o level v ++ s.
Proof.
  intros Hv. destruct (encode_head o level v Hv) as (c & s' & -> & Hc).
  apply skip_ws_head. apply value_head_facts. exact Hc.
Qed.

(** The item separator is a comma and then white space only. *)
Lemma item_separator_shape (o : dump_opts) (level : nat) (s : str) :
  exists w,
    item_separator o ++ newline_indent o level ++ s = 44 :: w
    /\ skip_ws w = skip_ws s.
Proof.
  unfold item_separator, newline_indent.
  destruct (indent o) as [k|]; eexists; (split; [reflexivity|]).
  - cbn [app skip_ws is_ws Z.eqb Pos.eqb orb]. apply skip_ws_spaces.
  - reflexivity.
Qed.

Lemma newline_indent_closer (o : dump_opts) (level : nat) (c : Z)
    (rest : str) :
  is_ws c = false -> (is_digit c = false /\ c <> 46 /\ c <> 101 /\ c <> 69) ->
  skip_ws (newline_indent o level ++ c :: rest) = c :: rest
  /\ number_end (newline_indent o level ++ c :: rest).
Proof.
  intros Hws Hc. split.
  - rewrite skip_ws_newline_indent. apply skip_ws_head. exact Hws.
  - unfold newline_indent. destruct (indent o); cbn [app number_end].
    + repeat split; (reflexivity || lia).
    + exact Hc.
Qed.

(** *** [dict(pairs)] on distinct keys *)

Lemma str_eqb_eq (a b : str) : str_eqb a b = true <-> a = b.
Proof. unfold str_eqb. apply bool_decide_eq_true. Qed.

Lemma dict_set_fresh (d : list (str * json)) (k : str) (v : json) :
  ~ In k (List.map fst d) -> dict_set d k v = d ++ [(k, v)].
Proof.
  induction d as [|[k' v'] d IH]; intros Hk; [reflexivity|].
  cbn [dict_set]. destruct (str_eqb k k') eqn:Heq.
  - apply str_eqb_eq in Heq. subst k'. exfalso. apply Hk. left. reflexivity.
  - rewrite IH; [reflexivity|]. intros Hin. apply Hk. right. exact Hin.
Qed.

Lemma dict_of_pairs_distinct (l : list (str * json)) :
  NoDup (List.map fst l) -> dict_of_pairs l = l.
Proof.
  unfold dict_of_pairs.
  assert (Hgen : forall d,
             NoDup (List.map fst (d ++ l)) ->
             fold_left (fun d kv => dict_set d (fst kv) (snd kv)) l d
             = d ++ l).
  { induction l as [|[k v] l IH]; intros d Hd.
    - rewrite app_nil_r. reflexivity.
    - cbn [fold_left fst snd].
      assert (Hfresh : ~ In k (List.map fst d)).
      { rewrite List.map_app in Hd. cbn [List.map fst] in Hd.
        apply NoDup_ListNoDup in Hd. apply List.NoDup_remove_2 in Hd.
        intros Hin. apply Hd. apply List.in_or_app. left. exact Hin. }
      rewrite (dict_set_fresh d k v Hfresh).
      rewrite IH; rewrite <- app_assoc; [reflexivity|exact Hd]. }
  intros Hl. apply (Hgen []). exact Hl.
Qed.

(** *** The scanner on encoded values *)

Lemma scan_once_number (fuel : nat) (c : Z) (s rest : str) (v : json) :
  is_digit c = true \/ c = 45 ->
  match_number (c :: s) = Some (v, rest) ->
  scan_once (S fuel) (c :: s) = Scanned v rest.
Proof.
  intros Hc Hnum. cbn [scan_once].
  assert (H34 : (c =? 34) = false /\ (c =? 123) = false /\ (c =? 91) = false
                /\ (110 =? c) = false /\ (116 =? c) = false
                /\ (102 =? c) = false).
  { unfold is_digit in Hc. repeat split; zb; destruct Hc as [Hc|Hc];
      try lia; revert Hc; zb; discriminate. }
  destruct H34 as (-> & -> & -> & Hn & Ht & Hf).
  unfold scan_atom. cbn [starts_with lit List.map list_ascii_of_string].
  change (Z.of_N (N_of_ascii "n")) with 110.
  change (Z.of_N (N_of_ascii "t")) with 116.
  change (Z.of_N (N_of_ascii "f")) with 102.
  rewrite Hn, Ht, Hf, Hnum. reflexivity.
Qed.

Lemma scan_once_str (o : dump_opts) (fuel : nat) (s rest : str) :
  Forall scalar s ->
  scan_once (S fuel) (encode_str o s ++ rest) = Scanned (JStr s) rest.
Proof.
  intros Hs. unfold encode_str. cbn [app scan_once Z.eqb Pos.eqb].
  rewrite <- app_assoc. cbn [app].
  rewrite (scanstring_encoded o _ [] s rest Hs). reflexivity.
Qed.

Ltac scan_key o k Hk :=
  match goal with
  | |- context [scanstring ?b ?a (?p ++ ?q :: ?r)] =>
      rewrite (scanstring_encoded o b a k r Hk)
  end.

(** The loop of [JSONArray] on the items [x :: xs] as [encode] writes
    them, when the scanner reads back each item. *)
Lemma array_items_encoded (o : dump_opts) (level : nat) (rest : str)
    (xs : list json) :
  Forall scalar_json xs ->
  Forall (fun v => forall fuel rest',
            (length (encode o (S level) v) < fuel)%nat -> number_end rest' ->
            scan_once fuel (encode o (S level) v ++ rest') = Scanned v rest')
    xs ->
  forall (x : json) (acc : list json) (fuel : nat),
    scalar_json x ->
    (forall fuel rest',
        (length (encode o (S level) x) < fuel)%nat -> number_end rest' ->
        scan_once fuel (encode o (S level) x ++ rest') = Scanned x rest') ->
    (length (encode o (S level) x) + length (encode_list_tail o level xs) + 1
     < fuel)%nat ->
    array_items fuel acc
      (encode o (S level) x ++ encode_list_tail o level xs
       ++ newline_indent o level ++ 93 :: rest)
    = Scanned (JList (rev acc ++ x :: xs)) rest.
Proof.
  intros Hrep Hscan. induction Hscan as [|y xs Hy Hxs IH];
    intros x acc fuel Hx Hscanx Hfuel.
  - destruct fuel as [|fuel]; [lia|]. cbn [array_items encode_list_tail app].
    destruct (newline_indent_closer o level 93 rest eq_refl)
      as [Hskip Hend]; [repeat split; (reflexivity || lia)|].
    rewrite (Hscanx fuel _ ltac:(cbn [encode_list_tail length] in Hfuel; lia)
               Hend).
    rewrite Hskip. cbn [Z.eqb Pos.eqb rev]. reflexivity.
  - inversion Hrep as [|? ? Hrepy Hrepxs]; subst.
    destruct fuel as [|fuel]; [lia|]. cbn [array_items encode_list_tail].
    destruct (item_separator_shape o (S level)
                (encode o (S level) y ++ encode_list_tail o level xs
                 ++ newline_indent o level ++ 93 :: rest))
      as (w & Hsep & Hw).
    assert (Hlen : (1 <= length (item_separator o))%nat).
    { unfold item_separator. destruct (indent o); cbn; lia. }
    cbn [encode_list_tail] in Hfuel. rewrite !length_app in Hfuel.
    rewrite <- !app_assoc. rewrite Hsep.
    rewrite (Hscanx fuel (44 :: w) ltac:(lia))
      by (repeat split; (reflexivity || lia)).
    cbn [skip_ws is_ws Z.eqb Pos.eqb orb]. rewrite Hw.
    rewrite (skip_ws_encode o (S level) y _ Hrepy).
    rewrite (IH Hrepxs y (x :: acc) fuel Hrepy Hy) by lia.
    cbn [rev]. rewrite <- app_assoc. reflexivity.
Qed.

(** The loop of [JSONObject], likewise. *)
Lemma object_items_encoded (o : dump_opts) (level : nat) (rest : str)
    (xs : list (str * json)) :
  Forall (fun kv => Forall scalar (fst kv) /\ scalar_json (snd kv))
    xs ->
  Forall (fun kv => forall fuel rest',
            (length (encode o (S level) (snd kv)) < fuel)%nat ->
            number_end rest' ->
            scan_once fuel (encode o (S level) (snd kv) ++ rest')
            = Scanned (snd kv) rest')
    xs ->
  forall (k : str) (x : json) (acc : list (str * json)) (fuel : nat),
    Forall scalar k -> scalar_json x ->
    (forall fuel rest',
        (length (encode o (S level) x) < fuel)%nat -> number_end rest' ->
        scan_once fuel (encode o (S level) x ++ rest') = Scanned x rest') ->
    (length (encode o (S level) x) + length (encode_dict_tail o level xs) + 1
     < fuel)%nat ->
    object_items fuel acc
      (encode_str o k ++ key_separator ++ encode o (S level) x
       ++ encode_dict_tail o level xs
       ++ newline_indent o level ++ 125 :: rest)
    = Scanned (JDict (dict_of_pairs (rev acc ++ (k, x) :: xs))) rest.
Proof.
  intros Hrep Hscan. induction Hscan as [|[k' y] xs Hy Hxs IH];
    intros k x acc fuel Hk Hx Hscanx Hfuel.
  - destruct fuel as [|fuel]; [lia|].
    cbn [object_items encode_dict_tail app].
    destruct (newline_indent_closer o level 125 rest eq_refl)
      as [Hskip Hend]; [repeat split; (reflexivity || lia)|].
    unfold encode_str at 1. cbn [app Z.eqb Pos.eqb].
    rewrite <- app_assoc. cbn [app].
    scan_key o k Hk.
    change key_separator with [58; 32].
    cbn [app skip_ws is_ws Z.eqb Pos.eqb orb rev].
    rewrite (skip_ws_encode o (S level) x _ Hx).
    rewrite (Hscanx fuel _ ltac:(cbn [encode_dict_tail length] in Hfuel; lia)
               Hend).
    rewrite Hskip. cbn [Z.eqb Pos.eqb rev]. reflexivity.
  - inversion Hrep as [|? ? [Hk' Hrepy] Hrepxs]; subst.
    cbn [fst snd] in *.
    destruct fuel as [|fuel]; [lia|]. cbn [object_items encode_dict_tail].
    destruct (item_separator_shape o (S level)
                (encode_str o k' ++ key_separator ++ encode o (S level) y
                 ++ encode_dict_tail o level xs
                 ++ newline_indent o level ++ 125 :: rest))
      as (w & Hsep & Hw).
    assert (Hlen : (1 <= length (item_separator o))%nat).
    { unfold item_separator. destruct (indent o); cbn; lia. }
    cbn [encode_dict_tail] in Hfuel. rewrite !length_app in Hfuel.
    unfold encode_str at 1. cbn [app Z.eqb Pos.eqb].
    rewrite <- !app_assoc. cbn [app].
    scan_key o k Hk.
    change key_separator with [58; 32] at 1.
    cbn [app skip_ws is_ws Z.eqb Pos.eqb orb rev].
    rewrite (skip_ws_encode o (S level) x _ Hx).
    rewrite Hsep.
    rewrite (Hscanx fuel (44 :: w) ltac:(lia))
      by (repeat split; (reflexivity || lia)).
    cbn [skip_ws is_ws Z.eqb Pos.eqb orb]. rewrite Hw.
    assert (Hkey : skip_ws (encode_str o k' ++ key_separator
                            ++ encode o (S level) y
                            ++ encode_dict_tail o level xs
                            ++ newline_indent o level ++ 125 :: rest)
                   = encode_str o k' ++ key_separator
                     ++ encode o (S level) y
                     ++ encode_dict_tail o level xs
                     ++ newline_indent o level ++ 125 :: rest)
      by reflexivity.
    rewrite Hkey.
    rewrite (IH Hrepxs k' y ((k, x) :: acc) fuel Hk' Hrepy Hy) by lia.
    cbn [rev]. rewrite <- app_assoc. reflexivity.
Qed.

Lemma scan_once_array_open (fuel : nat) (s1 s : str) (c : Z) :
  skip_ws s1 = c :: s -> (c =? 93) = false ->
  scan_once (S fuel) (91 :: s1) = array_items fuel [] (c :: s).
Proof.
  intros Hskip Hc. cbn [scan_once Z.eqb Pos.eqb]. rewrite Hskip, Hc.
  reflexivity.
Qed.

Lemma scan_once_object_open (fuel : nat) (s1 s : str) (c : Z) :
  skip_ws s1 = c :: s -> (c =? 125) = false ->
  scan_once (S fuel) (123 :: s1) = object_items fuel [] (c :: s).
Proof.
  intros Hskip Hc. cbn [scan_once Z.eqb Pos.eqb]. rewrite Hskip, Hc.
  reflexivity.
Qed.

(** The scanner reads an encoded value back, whatever the options of the
    encoder, and leaves the rest of the input. *)
Lemma scan_once_encode (o : dump_opts) (v : json) :
  scalar_json v ->
  forall (level fuel : nat) (rest : str),
    (length (encode o level v) < fuel)%nat -> number_end rest ->
    scan_once fuel (encode o level v ++ rest) = Scanned v rest.
Proof.
  induction v as [|b|n|f|s|items IH|items IH] using json_nested_ind;
    intros Hrep level fuel rest Hfuel Hrest;
    (destruct fuel as [|fuel]; [lia|]).
  - reflexivity.
  - destruct b; reflexivity.
  - pose proof (match_number_int n rest Hrest) as Hnum.
    destruct (str_of_int_shape n) as (neg & ds & Heq & Hds & _).
    destruct (signed_digits_head neg ds [] Hds) as (c & s & Hhead & Hc).
    rewrite app_nil_r, <- Heq in Hhead. cbn [encode].
    rewrite Hhead in *. cbn [app] in *.
    apply scan_once_number; assumption.
  - inversion Hrep as [| | |numeral Hnum| | |]; subst.
    pose proof (match_number_float numeral rest Hnum Hrest) as Hmatch.
    destruct Hnum as (neg & ds & frac & exp & Heq & Hds & _).
    destruct (signed_digits_head neg ds (frac ++ exp) Hds)
      as (c & s & Hhead & Hc).
    rewrite <- Heq in Hhead. cbn [encode floatstr].
    rewrite Hhead in *. cbn [app] in *.
    apply scan_once_number; assumption.
  - inversion Hrep; subst. apply scan_once_str. assumption.
  - inversion Hrep as [| | | | |? Hitems|]; subst.
    destruct items as [|x xs]; [reflexivity|].
    inversion Hitems as [|? ? Hx Hxs]; subst.
    inversion IH as [|? ? IHx IHxs]; subst.
    rewrite encode_list_cons in *. cbn [app length] in Hfuel |- *.
    rewrite !length_app in Hfuel. cbn [length] in Hfuel.
    rewrite <- !app_assoc. cbn [app].
    set (X := encode_list_tail o level xs
              ++ newline_indent o level ++ 93 :: rest).
    assert (Hskip : skip_ws (newline_indent o (S level)
                             ++ encode o (S level) x ++ X)
                    = encode o (S level) x ++ X).
    { rewrite skip_ws_newline_indent. apply skip_ws_encode. exact Hx. }
    transitivity (array_items fuel [] (encode o (S level) x ++ X)).
    + destruct (encode_head o (S level) x Hx) as (c & s & Hhead & Hc).
      destruct (value_head_facts c Hc) as (_ & H93 & _ & _).
      rewrite Hhead in Hskip |- *.
      exact (scan_once_array_open fuel _ (s ++ X) c Hskip H93).
    + unfold X.
      apply (array_items_encoded o level rest xs Hxs).
      * clear -Hxs IHxs. induction IHxs as [|y xs Hy _ IHl]; constructor.
        -- intros fuel' rest'. apply Hy. inversion Hxs; assumption.
        -- apply IHl. inversion Hxs; assumption.
      * exact Hx.
      * intros fuel' rest'. apply IHx. exact Hx.
      * lia.
  - inversion Hrep as [| | | | | |? Hkeys Hitems]; subst.
    destruct items as [|[k x] xs]; [reflexivity|].
    inversion Hitems as [|? ? [Hk Hx] Hxs]; subst. cbn [fst snd] in Hk, Hx.
    inversion IH as [|? ? IHx IHxs]; subst. cbn [snd] in IHx.
    rewrite encode_dict_cons in *. cbn [app length] in Hfuel |- *.
    rewrite !length_app in Hfuel. cbn [length] in Hfuel.
    rewrite <- !app_assoc. cbn [app].
    set (X := encode_str o k ++ key_separator ++ encode o (S level) x
              ++ encode_dict_tail o level xs
              ++ newline_indent o level ++ 125 :: rest).
    assert (Hskip : skip_ws (newline_indent o (S level) ++ X) = X).
    { rewrite skip_ws_newline_indent. reflexivity. }
    transitivity (object_items fuel [] X).
    + exact (scan_once_object_open fuel _ _ 34 Hskip eq_refl).
    + unfold X.
      rewrite (object_items_encoded o level rest xs Hxs).
      * cbn [rev app]. rewrite (dict_of_pairs_distinct _ Hkeys). reflexivity.
      * clear -Hxs IHxs. induction IHxs as [|[k' y] xs Hy _ IHl]; constructor.
        -- intros fuel' rest'. apply Hy. inversion Hxs as [|? ? [_ ?] ?].
           assumption.
        -- apply IHl. inversion Hxs; assumption.
      * exact Hk.
      * exact Hx.
      * intros fuel' rest'. apply IHx. exact Hx.
      * lia.
Qed.

(** [json.loads] undoes [json.dumps], under each set of options. *)
Lemma loads_dumps (o : dump_opts) (v : json) :
  scalar_json v -> loads (dumps o v) = Ok v.
Proof.
  intros Hv. unfold loads, decode, dumps.
  destruct (encode_head o 0 v Hv) as (c & s & Hhead & Hc).
  destruct (value_head_facts c Hc) as (Hws & _ & _ & Hbom).
  assert (Hbom' : starts_with_bom (encode o 0 v) = false)
    by (rewrite Hhead; exact Hbom).
  rewrite Hbom'.
  assert (Hskip : skip_ws (encode o 0 v) = encode o 0 v)
    by (rewrite Hhead; apply skip_ws_head; exact Hws).
  rewrite Hskip.
  rewrite <- (app_nil_r (encode o 0 v)) at 2.
  rewrite (scan_once_encode o v Hv 0 _ []); [reflexivity|lia|exact I].
Qed.

(** *** Writing, then reading *)

Lemma write_json_succeeded (filepath : str) (data : json)
    (fs fs' : filesystem) (s : str) :
  write_json filepath data fs = (Ok s, fs') -> success_message s ->
  write_json_try filepath data fs = (Ok s, fs').
Proof.
  unfold write_json. intros Hwrite [tail Hs].
  destruct (write_json_try filepath data fs) as [[s0|e] fs0];
    [exact Hwrite|].
  destruct (is_Exception e); [|discriminate Hwrite].
  injection Hwrite as <- <-. cbn in Hs. discriminate Hs.
Qed.


(** *** Deciding representability *)

(** What the UTF-8 codec accepts of an encoded string tells that the
    string holds scalar values only. *)
Lemma encode_char_encodable (c : Z) :
  code_point c = true -> utf8_encodable (encode_char c) = true -> scalar c.
Proof.
  unfold code_point, scalar. intros Hc Henc.
  apply andb_true_iff in Hc as [H0 Hmax].
  apply Z.leb_le in H0. apply Z.leb_le in Hmax. split; [lia|].
  intros Hsur.
  assert (Hplain : encode_char c = [c]).
  { unfold encode_char, escape_dct. zb; reflexivity. }
  rewrite Hplain in Henc. unfold utf8_encodable, is_surrogate in Henc.
  cbn [forallb] in Henc. revert Henc. zb; discriminate.
Qed.

Lemma utf8_encodable_app (a b : str) :
  utf8_encodable (a ++ b) = utf8_encodable a && utf8_encodable b.
Proof. apply forallb_app. Qed.

Lemma encode_str_encodable (s : str) :
  forallb code_point s = true ->
  utf8_encodable (encode_str pretty_unicode s) = true ->
  Forall scalar s.
Proof.
  unfold encode_str. cbn [ensure_ascii pretty_unicode].
  change (34 :: flat_map encode_char s ++ [34])
    with ([34] ++ flat_map encode_char s ++ [34]).
  rewrite !utf8_encodable_app. intros Hs Henc.
  apply andb_true_iff in Henc as [_ Henc].
  apply andb_true_iff in Henc as [Henc _].
  induction s as [|c s IH]; constructor.
  - cbn [forallb flat_map] in Hs, Henc. rewrite utf8_encodable_app in Henc.
    apply andb_true_iff in Hs as [Hc _].
    apply andb_true_iff in Henc as [Hencc _].
    apply encode_char_encodable; assumption.
  - cbn [forallb flat_map] in Hs, Henc. rewrite utf8_encodable_app in Henc.
    apply andb_true_iff in Hs as [_ Hs].
    apply andb_true_iff in Henc as [_ Henc]. apply IH; assumption.
Qed.

Lemma span_digits_spec (s : str) :
  s = fst (span_digits s) ++ snd (span_digits s)
  /\ Forall (fun c => is_digit c = true) (fst (span_digits s)).
Proof.
  induction s as [|c s [IHeq IHall]]; [split; [reflexivity|constructor]|].
  cbn [span_digits]. destruct (is_digit c) eqn:Hc.
  - destruct (span_digits s) as [ds rest]. cbn [fst snd] in *.
    split; [rewrite IHeq at 1; reflexivity|constructor; assumption].
  - split; [reflexivity|constructor].
Qed.

Lemma take_if_spec (p : Z -> bool) (s : str) :
  s = fst (take_if p s) ++ snd (take_if p s)
  /\ (fst (take_if p s) = []
      \/ exists c, fst (take_if p s) = [c] /\ p c = true).
Proof.
  unfold take_if.
  destruct s as [|c t]; [split; [reflexivity|left; reflexivity]|].
  destruct (p c) eqn:Hc; cbn [fst snd app].
  - split; [reflexivity|]. right. exists c. split; [reflexivity|exact Hc].
  - split; [reflexivity|]. left. reflexivity.
Qed.

Lemma canonical_digitsb_canonical (ds : str) :
  Forall (fun c => is_digit c = true) ds ->
  canonical_digitsb ds = true -> canonical_digits ds.
Proof.
  intros Hds Hb. split; [exact Hds|].
  destruct ds as [|c ds']; [discriminate Hb|]. cbn in Hb.
  destruct (Z.eqb_spec c 48) as [->|Hc].
  - destruct ds'; [left; reflexivity|discriminate Hb].
  - right. exists c, ds'. split; [reflexivity|exact Hc].
Qed.

Lemma nonempty_cons {A} (l : list A) :
  nonempty l = true -> exists x l', l = x :: l'.
Proof. destruct l as [|x l']; [discriminate|eauto]. Qed.

Lemma float_numeralb_sound (numeral : str) :
  float_numeralb numeral = true -> float_numeral numeral.
Proof.
  unfold float_numeralb.
  destruct (take_if_spec (fun c => c =? 45) numeral) as [E1 S1].
  destruct (take_if (fun c => c =? 45) numeral) as [sign s1].
  destruct (span_digits_spec s1) as [E2 D2].
  destruct (span_digits s1) as [ds s2].
  destruct (take_if_spec (fun c => c =? 46) s2) as [E3 S3].
  destruct (take_if (fun c => c =? 46) s2) as [dot s3].
  cbn [fst snd] in *.
  assert (Hfd : exists fd s4,
             match dot with [] => ([], s3) | _ :: _ => span_digits s3 end
             = (fd, s4)
             /\ s3 = fd ++ s4
             /\ Forall (fun c => is_digit c = true) fd
             /\ (dot = [] -> fd = [])).
  { destruct dot.
    - exists [], s3. repeat split. constructor.
    - destruct (span_digits_spec s3) as [E D].
      destruct (span_digits s3) as [fd s4]. exists fd, s4.
      repeat split; auto. discriminate. }
  destruct Hfd as (fd & s4 & -> & E4 & D4 & N4).
  destruct (take_if_spec (fun c => (c =? 101) || (c =? 69)) s4) as [E5 S5].
  destruct (take_if (fun c => (c =? 101) || (c =? 69)) s4) as [e s5].
  cbn [fst snd] in *.
  assert (Hes : exists esign s6,
             match e with
             | [] => ([], s5)
             | _ :: _ => take_if (fun c => (c =? 45) || (c =? 43)) s5
             end = (esign, s6)
             /\ s5 = esign ++ s6
             /\ (esign = [] \/ esign = [45] \/ esign = [43])
             /\ (e = [] -> esign = [])).
  { destruct e.
    - exists [], s5. repeat split. left. reflexivity.
    - destruct (take_if_spec (fun c => (c =? 45) || (c =? 43)) s5) as [E S].
      destruct (take_if _ s5) as [esign s6]. exists esign, s6.
      cbn [fst snd] in *. split; [reflexivity|]. split; [exact E|].
      split; [|discriminate].
      destruct S as [->|(c & -> & Hc)]; [left; reflexivity|right].
      destruct (Z.eqb_spec c 45) as [->|_]; [left; reflexivity|].
      destruct (Z.eqb_spec c 43) as [->|_]; [right; reflexivity|].
      discriminate Hc. }
  destruct Hes as (esign & s6 & -> & E6 & S6 & N6).
  assert (Hed : exists ed s7,
             match e with [] => ([], s6) | _ :: _ => span_digits s6 end
             = (ed, s7)
             /\ s6 = ed ++ s7
             /\ Forall (fun c => is_digit c = true) ed
             /\ (e = [] -> ed = [])).
  { destruct e.
    - exists [], s6. repeat split. constructor.
    - destruct (span_digits_spec s6) as [E D].
      destruct (span_digits s6) as [ed s7]. exists ed, s7.
      repeat split; auto. discriminate. }
  destruct Hed as (ed & s7 & -> & E7 & D7 & N7).
  intros Hb.
  apply andb_true_iff in Hb as [Hb Hend].
  apply andb_true_iff in Hb as [Hb Hsome].
  apply andb_true_iff in Hb as [Hb Hexp].
  apply andb_true_iff in Hb as [Hcanon Hfrac].
  destruct s7; [|discriminate Hend].
  exists (nonempty sign), ds, (dot ++ fd), (e ++ esign ++ ed).
  assert (Hfraction : fraction (dot ++ fd)).
  { destruct S3 as [Hdot|(c & Hdot & Hc)].
    - left. rewrite Hdot, (N4 Hdot). reflexivity.
    - right. apply Z.eqb_eq in Hc. subst c. rewrite Hdot in Hfrac |- *.
      cbn in Hfrac. destruct (nonempty_cons fd Hfrac) as (c & fd' & ->).
      exists c, fd'. split; [reflexivity|exact D4]. }
  assert (Hexponent : exponent (e ++ esign ++ ed)).
  { destruct S5 as [He|(c & He & Hc)].
    - left. rewrite He, (N6 He), (N7 He). reflexivity.
    - right. rewrite He in Hexp |- *. cbn in Hexp.
      destruct (nonempty_cons ed Hexp) as (d & ed' & ->).
      exists c, esign, d, ed'. split; [reflexivity|].
      split; [|split; [exact S6|exact D7]].
      destruct (Z.eqb_spec c 101); [left; assumption|].
      destruct (Z.eqb_spec c 69); [right; assumption|discriminate Hc]. }
  split; [|split; [|split; [|split]]].
  - rewrite E1, E2, E3, E4, E5, E6, E7, app_nil_r, <- !app_assoc.
    f_equal. destruct S1 as [->|(c & -> & Hc)]; [reflexivity|].
    apply Z.eqb_eq in Hc. subst c. reflexivity.
  - apply canonical_digitsb_canonical; assumption.
  - exact Hfraction.
  - exact Hexponent.
  - apply orb_true_iff in Hsome as [Hdot|He].
    + left. destruct (nonempty_cons dot Hdot) as (x & l & ->). discriminate.
    + right. destruct (nonempty_cons e He) as (x & l & ->). discriminate.
Qed.

Lemma encode_list_tail_encodable (o : dump_opts) (level : nat)
    (xs : list json) :
  utf8_encodable (encode_list_tail o level xs) = true ->
  Forall (fun y => utf8_encodable (encode o (S level) y) = true) xs.
Proof.
  induction xs as [|y xs IH]; intros H; constructor;
    cbn [encode_list_tail] in H; rewrite !utf8_encodable_app in H;
    repeat (apply andb_true_iff in H as [? H]); auto.
Qed.

Lemma encode_dict_tail_encodable (o : dump_opts) (level : nat)
    (xs : list (str * json)) :
  utf8_encodable (encode_dict_tail o level xs) = true ->
  Forall (fun kv => utf8_encodable (encode_str o (fst kv)) = true
                    /\ utf8_encodable (encode o (S level) (snd kv)) = true)
    xs.
Proof.
  induction xs as [|[k y] xs IH]; intros H; constructor;
    cbn [encode_dict_tail] in H; rewrite !utf8_encodable_app in H;
    repeat (apply andb_true_iff in H as [? H]); cbn [fst snd]; auto.
Qed.

(** A representable value whose indented text the codec accepts holds
    scalar values only. *)
Lemma representable_sound (v : json) :
  forall level,
    representable v = true ->
    utf8_encodable (encode pretty_unicode level v) = true ->
    scalar_json v.
Proof.
  induction v as [|b|n|f|s|items IH|items IH] using json_nested_ind;
    intros level Hv Henc; cbn [representable] in Hv.
  - constructor.
  - constructor.
  - constructor.
  - destruct f as [numeral| | |]; try discriminate Hv.
    constructor. apply float_numeralb_sound. exact Hv.
  - constructor. apply encode_str_encodable; assumption.
  - constructor. destruct items as [|x xs]; [constructor|].
    rewrite encode_list_cons in Henc.
    change (91 :: ?l) with ([91] ++ l) in Henc.
    rewrite !utf8_encodable_app in Henc.
    apply andb_true_iff in Henc as [_ Henc].
    apply andb_true_iff in Henc as [_ Henc].
    apply andb_true_iff in Henc as [Hx Henc].
    apply andb_true_iff in Henc as [Hxs _].
    apply encode_list_tail_encodable in Hxs.
    assert (Hall : Forall (fun y => utf8_encodable
                                      (encode pretty_unicode (S level) y)
                                    = true) (x :: xs))
      by (constructor; assumption).
    clear Hx Hxs.
    induction IH as [|y l Hy _ IHl]; constructor.
    + cbn [forallb] in Hv. apply andb_true_iff in Hv as [Hvy _].
      inversion Hall; subst. eapply Hy; eassumption.
    + cbn [forallb] in Hv. apply andb_true_iff in Hv as [_ Hvl].
      inversion Hall; subst. apply IHl; assumption.
  - apply andb_true_iff in Hv as [Hkeys Hv].
    constructor; [apply bool_decide_eq_true in Hkeys; exact Hkeys|].
    clear Hkeys. destruct items as [|[k x] xs]; [constructor|].
    rewrite encode_dict_cons in Henc.
    change (123 :: ?l) with ([123] ++ l) in Henc.
    rewrite !utf8_encodable_app in Henc.
    apply andb_true_iff in Henc as [_ Henc].
    apply andb_true_iff in Henc as [_ Henc].
    apply andb_true_iff in Henc as [Hk Henc].
    apply andb_true_iff in Henc as [_ Henc].
    apply andb_true_iff in Henc as [Hx Henc].
    apply andb_true_iff in Henc as [Hxs _].
    apply encode_dict_tail_encodable in Hxs.
    assert (Hall :
      Forall (fun kv =>
                utf8_encodable (encode_str pretty_unicode (fst kv)) = true
                /\ utf8_encodable
                     (encode pretty_unicode (S level) (snd kv)) = true)
        ((k, x) :: xs))
      by (constructor; [split|]; assumption).
    clear Hk Hx Hxs.
    induction IH as [|[k' y] l Hy _ IHl]; constructor.
    + cbn [forallb] in Hv. apply andb_true_iff in Hv as [Hvy _].
      apply andb_true_iff in Hvy as [Hvk Hvy].
      inversion Hall as [|? ? [Hk Hx] _]; subst. cbn [fst snd] in *.
      split; [apply encode_str_encodable; assumption|].
      eapply Hy; eassumption.
    + cbn [forallb] in Hv. apply andb_true_iff in Hv as [_ Hvl].
      inversion Hall; subst. apply IHl; assumption.
Qed.

(** *** Line ends *)

Lemma translate_newlines_no_cr (d s : str) :
  no_cr d = true ->
  translate_newlines false (d ++ s) = d ++ translate_newlines false s.
Proof.
  induction d as [|c d IH]; [reflexivity|].
  unfold no_cr. cbn [forallb app]. intros H.
  apply andb_true_iff in H as [Hc H]. apply negb_true_iff in Hc.
  cbn [translate_newlines]. rewrite Hc, andb_false_r.
  f_equal. exact (IH H).
Qed.

Lemma universal_newlines_no_cr (s : str) :
  no_cr s = true -> universal_newlines s = s.
Proof.
  intros H. unfold universal_newlines.
  rewrite <- (app_nil_r s) at 1.
  rewrite (translate_newlines_no_cr s [] H). apply app_nil_r.
Qed.

(** A character that is no line end closes what was pending. *)
Lemma translate_newlines_head (pendingcr : bool) (a : str) (c : Z)
    (rest : str) :
  c <> 10 -> c <> 13 ->
  translate_newlines pendingcr (a ++ c :: rest)
  = translate_newlines pendingcr a ++ c :: translate_newlines false rest.
Proof.
  intros H10 H13. revert pendingcr.
  induction a as [|x a IH]; intros pendingcr; cbn [app translate_newlines].
  - destruct (Z.eqb_spec c 13); [contradiction|].
    destruct (Z.eqb_spec c 10); [contradiction|]. reflexivity.
  - destruct (x =? 13); [rewrite IH; reflexivity|].
    destruct ((x =? 10) && pendingcr); rewrite IH; reflexivity.
Qed.

Lemma translate_newlines_blank (pendingcr : bool) (s : str) :
  blank s = true -> blank (translate_newlines pendingcr s) = true.
Proof.
  revert pendingcr. induction s as [|c s IH]; intros pendingcr;
    [reflexivity|].
  unfold blank in *. cbn [forallb translate_newlines]. intros H.
  apply andb_true_iff in H as [Hc H].
  destruct (c =? 13); [cbn [forallb]; rewrite IH by exact H; reflexivity|].
  destruct ((c =? 10) && pendingcr); [exact (IH _ H)|].
  cbn [forallb]. rewrite Hc. exact (IH _ H).
Qed.

Lemma translate_newlines_code_points (pendingcr : bool) (s : str) :
  code_points s = true -> code_points (translate_newlines pendingcr s) = true.
Proof.
  revert pendingcr. induction s as [|c s IH]; intros pendingcr;
    [reflexivity|].
  unfold code_points in *. cbn [forallb translate_newlines]. intros H.
  apply andb_true_iff in H as [Hc H].
  destruct (c =? 13); [cbn [forallb]; rewrite IH by exact H; reflexivity|].
  destruct ((c =? 10) && pendingcr); [exact (IH _ H)|].
  cbn [forallb]. rewrite Hc. exact (IH _ H).
Qed.

(** The encoder writes no carriage return: it escapes those of the
    strings, and its own line ends are line feeds. *)
Lemma no_cr_app (a b : str) : no_cr (a ++ b) = no_cr a && no_cr b.
Proof. apply forallb_app. Qed.

Lemma digits_no_cr (ds : str) :
  Forall (fun c => is_digit c = true) ds -> no_cr ds = true.
Proof.
  intros H. induction H as [|c ds Hd _ IH]; [reflexivity|].
  unfold no_cr in *. cbn [forallb]. rewrite IH, andb_true_r.
  unfold is_digit in Hd. apply andb_true_iff in Hd as [H1 _].
  apply Z.leb_le in H1. apply negb_true_iff, Z.eqb_neq. lia.
Qed.

Lemma str_of_int_no_cr (n : Z) : no_cr (str_of_int n) = true.
Proof.
  destruct (str_of_int_shape n) as (negative & ds & -> & [Hds _] & _).
  rewrite no_cr_app, (digits_no_cr ds Hds). destruct negative; reflexivity.
Qed.

Lemma float_numeral_no_cr (numeral : str) :
  float_numeral numeral -> no_cr numeral = true.
Proof.
  intros (negative & ds & frac & exp & -> & [Hds _] & Hfrac & Hexp & _).
  rewrite !no_cr_app, (digits_no_cr ds Hds).
  assert (Hf : no_cr frac = true).
  { destruct Hfrac as [->|(c & fd & -> & Hfd)]; [reflexivity|].
    change (46 :: c :: fd) with ([46] ++ c :: fd).
    rewrite no_cr_app, (digits_no_cr _ Hfd). reflexivity. }
  assert (He : no_cr exp = true).
  { destruct Hexp as [->|(e & sign & c & ed & -> & He & Hsign & Hed)];
      [reflexivity|].
    change (e :: sign ++ c :: ed) with ([e] ++ sign ++ c :: ed).
    rewrite !no_cr_app, (digits_no_cr _ Hed).
    destruct He as [->| ->], Hsign as [->|[->| ->]]; reflexivity. }
  rewrite Hf, He. destruct negative; reflexivity.
Qed.

Lemma escape_u_no_cr (n : Z) : 0 <= n -> no_cr (escape_u n) = true.
Proof.
  intros Hn.
  assert (Hhex : forall d, 0 <= d -> negb (hexdigit d =? 13) = true).
  { intros d Hd. apply negb_true_iff, Z.eqb_neq. unfold hexdigit.
    destruct (d <? 10); lia. }
  unfold escape_u, no_cr. cbn [forallb].
  rewrite !Hhex; [reflexivity| | | |].
  - apply Z.mod_pos_bound. lia.
  - apply Z.mod_pos_bound. lia.
  - apply Z.mod_pos_bound. lia.
  - apply Z.div_pos; lia.
Qed.

Lemma escape_dct_no_cr (c : Z) (e : str) :
  escape_dct c = Some e -> no_cr e = true.
Proof.
  unfold escape_dct.
  repeat match goal with
         | |- context [?a =? ?b] => destruct (Z.eqb_spec a b)
         end; try (intros [= <-]; reflexivity).
  destruct (Z.leb_spec 0 c), (Z.ltb_spec c 32); cbn [andb];
    try discriminate.
  intros [= <-]. apply escape_u_no_cr. assumption.
Qed.

Lemma escape_dct_not_cr (c : Z) :
  escape_dct c = None -> (c =? 13) = false.
Proof.
  destruct (Z.eqb_spec c 13) as [->|]; [discriminate|reflexivity].
Qed.

Lemma encode_char_no_cr (c : Z) : no_cr (encode_char c) = true.
Proof.
  unfold encode_char. destruct (escape_dct c) as [e|] eqn:He;
    [exact (escape_dct_no_cr c e He)|].
  unfold no_cr. cbn [forallb]. rewrite (escape_dct_not_cr c He). reflexivity.
Qed.

Lemma encode_char_ascii_no_cr (c : Z) :
  0 <= c -> no_cr (encode_char_ascii c) = true.
Proof.
  intros Hc. unfold encode_char_ascii.
  destruct (escape_dct c) as [e|] eqn:He;
    [exact (escape_dct_no_cr c e He)|].
  destruct ((32 <=? c) && (c <=? 126)).
  - unfold no_cr. cbn [forallb]. rewrite (escape_dct_not_cr c He).
    reflexivity.
  - destruct (c <? 65536); [apply escape_u_no_cr; exact Hc|].
    rewrite no_cr_app, !escape_u_no_cr; [reflexivity| |].
    + apply Z.lor_nonneg. split; [lia|]. apply Z.land_nonneg. right. lia.
    + apply Z.lor_nonneg. split; [lia|]. apply Z.land_nonneg. right. lia.
Qed.

Lemma encode_str_no_cr (o : dump_opts) (s : str) :
  Forall scalar s -> no_cr (encode_str o s) = true.
Proof.
  intros Hs. unfold encode_str.
  change (34 :: ?l ++ [34]) with ([34] ++ l ++ [34]).
  rewrite !no_cr_app. change (no_cr [34]) with true.
  rewrite andb_true_r. cbn [andb].
  induction Hs as [|c s [Hc _] _ IH]; [reflexivity|].
  cbn [flat_map]. rewrite no_cr_app, IH, andb_true_r.
  destruct (ensure_ascii o);
    [apply encode_char_ascii_no_cr; lia|apply encode_char_no_cr].
Qed.

Lemma newline_indent_no_cr (o : dump_opts) (level : nat) :
  no_cr (newline_indent o level) = true.
Proof.
  unfold newline_indent. destruct (indent o) as [k|]; [|reflexivity].
  unfold no_cr. cbn [forallb].
  induction (k * level)%nat as [|n IH]; [reflexivity|exact IH].
Qed.

Lemma item_separator_no_cr (o : dump_opts) : no_cr (item_separator o) = true.
Proof. unfold item_separator. destruct (indent o); reflexivity. Qed.

Lemma encode_no_cr (o : dump_opts) (v : json) :
  scalar_json v -> forall level, no_cr (encode o level v) = true.
Proof.
  induction v as [|b|n|f|s|items IH|items IH] using json_nested_ind;
    intros Hv level; inversion Hv as [| | |? Hnum|? Hs|? Hitems|? _ Hitems];
    subst.
  - reflexivity.
  - destruct b; reflexivity.
  - apply str_of_int_no_cr.
  - apply float_numeral_no_cr. exact Hnum.
  - apply encode_str_no_cr. exact Hs.
  - destruct items as [|x xs]; [reflexivity|].
    rewrite encode_list_cons.
    change (91 :: ?l) with ([91] ++ l).
    rewrite !no_cr_app, !newline_indent_no_cr.
    change (no_cr [91]) with true. change (no_cr [93]) with true.
    inversion IH as [|? ? IHx IHxs]; subst.
    inversion Hitems as [|? ? Hx Hxs]; subst.
    rewrite (IHx Hx). cbn [andb]. rewrite andb_true_r.
    clear IH IHx Hx Hitems Hv.
    induction IHxs as [|y l Hy _ IHl]; [reflexivity|].
    inversion Hxs; subst. cbn [encode_list_tail].
    rewrite !no_cr_app, item_separator_no_cr, newline_indent_no_cr,
      Hy, IHl by assumption. reflexivity.
  - destruct items as [|[k x] xs]; [reflexivity|].
    rewrite encode_dict_cons.
    change (123 :: ?l) with ([123] ++ l).
    rewrite !no_cr_app, !newline_indent_no_cr.
    change (no_cr [123]) with true. change (no_cr [125]) with true.
    change (no_cr key_separator) with true.
    inversion IH as [|? ? IHx IHxs]; subst.
    inversion Hitems as [|? ? [Hk Hx] Hxs]; subst. cbn [fst snd] in *.
    rewrite (IHx Hx), (encode_str_no_cr o k Hk).
    cbn [andb]. rewrite andb_true_r.
    clear IH IHx Hx Hk Hitems Hv.
    induction IHxs as [|[k' y] l Hy _ IHl]; [reflexivity|].
    inversion Hxs as [|? ? [Hk' Hy'] Hl]; subst. cbn [fst snd] in *.
    cbn [encode_dict_tail].
    rewrite !no_cr_app, item_separator_no_cr, newline_indent_no_cr,
      (encode_str_no_cr o k' Hk'), (Hy Hy'), (IHl Hl).
    change (no_cr key_separator) with true. reflexivity.
Qed.

Lemma universal_newlines_dumps (o : dump_opts) (v : json) :
  scalar_json v -> universal_newlines (dumps o v) = dumps o v.
Proof.
  intros Hv. apply universal_newlines_no_cr. apply encode_no_cr. exact Hv.
Qed.

(** Around an encoded value, the line ends of what comes before and of
    what comes after are translated apart. *)
Lemma universal_newlines_padded (o : dump_opts) (v : json)
    (before tail : str) :
  scalar_json v ->
  universal_newlines (before ++ dumps o v ++ tail)
  = universal_newlines before ++ dumps o v ++ universal_newlines tail.
Proof.
  intros Hv. pose proof (encode_no_cr o v Hv 0%nat) as Hcr.
  destruct (encode_head o 0 v Hv) as (c & s & Hhead & Hc).
  unfold dumps, universal_newlines. rewrite Hhead in Hcr |- *.
  apply value_head_facts in Hc as (Hws & _).
  unfold no_cr in Hcr. cbn [forallb] in Hcr.
  apply andb_true_iff in Hcr as [_ Hs].
  cbn [app]. rewrite translate_newlines_head.
  - do 2 f_equal. apply translate_newlines_no_cr. exact Hs.
  - intros ->. discriminate Hws.
  - intros ->. discriminate Hws.
Qed.

(** C5. For a JSON-representable [data] (finite floats, strings of code
    points, objects with each key once): after a [write_json(path, data)]
    that reported success, [read_json(path)] returns a text, and that
    text parses to [data] itself. *)
Theorem write_then_read_roundtrip (filepath : str) (data : json)
    (fs fs' : filesystem) (s : str) :
  representable data = true ->
  write_json filepath data fs = (Ok s, fs') -> success_message s ->
  exists text, read_json filepath fs' = Ok text /\ loads text = Ok data.
Proof.
  intros Hdata Hwrite Hs.
  apply (write_json_succeeded _ _ _ _ _ Hwrite) in Hs.
  apply write_json_success in Hs as (Hfile & Hencodable & _).
  apply (representable_sound data 0) in Hdata; [|exact Hencodable].
  exists (dumps pretty_ascii data). split.
  - unfold read_json, read_json_try, open_r. rewrite Hfile. cbn [rbind].
    rewrite (universal_newlines_dumps pretty_unicode data Hdata).
    rewrite (loads_dumps pretty_unicode data Hdata). reflexivity.
  - apply loads_dumps. exact Hdata.
Qed.

Lemma write_then_read_roundtrip_witness :
  exists text,
    read_json (lit "users.json")
      (snd (write_json (lit "users.json") demo_data demo_fs)) = Ok text
    /\ loads text = Ok demo_data.
Proof.
  assert (Hmsg : fst (write_json (lit "users.json") demo_data demo_fs)
                 = Ok (lit "Successfully wrote JSON data to 'users.json' "
                       ++ lit "(138 characters)."))
    by (vm_compute; reflexivity).
  destruct (write_json (lit "users.json") demo_data demo_fs) as [r fs']
    eqn:Hwrite.
  cbn [fst snd] in *. subst r.
  apply (write_then_read_roundtrip (lit "users.json") demo_data demo_fs fs'
           _ ltac:(vm_compute; reflexivity) Hwrite).
  eexists. reflexivity.
Defined.

(** ** The fuel of the decoder is never used up *)

Lemma skip_ws_length (s : str) : (length (skip_ws s) <= length s)%nat.
Proof.
  induction s as [|c s IH]; [reflexivity|]. cbn [skip_ws].
  destruct (is_ws c); cbn [length]; lia.
Qed.

Lemma span_digits_length (s : str) :
  (length (snd (span_digits s)) <= length s)%nat.
Proof.
  induction s as [|c s IH]; [reflexivity|]. cbn [span_digits].
  destruct (is_digit c); [|reflexivity].
  destruct (span_digits s) as [ds rest]. cbn [snd length] in *. lia.
Qed.

Lemma starts_with_length (p s rest : str) :
  starts_with p s = Some rest -> (length rest + length p = length s)%nat.
Proof.
  revert s. induction p as [|a p IH]; intros s H.
  - injection H as <-. cbn. lia.
  - destruct s as [|b s]; [discriminate H|]. cbn [starts_with] in H.
    destruct (a =? b); [|discriminate H]. apply IH in H. cbn [length]. lia.
Qed.

Lemma match_frac_length (s : str) :
  (length (snd (match_frac s)) <= length s)%nat.
Proof.
  unfold match_frac. destruct s as [|dot [|c s]]; try reflexivity.
  destruct ((dot =? 46) && is_digit c); [|reflexivity].
  pose proof (span_digits_length (c :: s)).
  destruct (span_digits (c :: s)) as [ds rest]. cbn [snd length] in *. lia.
Qed.

Lemma match_exp_length (s : str) :
  (length (snd (match_exp s)) <= length s)%nat.
Proof.
  unfold match_exp. destruct s as [|e s1]; [reflexivity|].
  destruct ((e =? 101) || (e =? 69)); [|reflexivity].
  destruct s1 as [|c s2]; [reflexivity|].
  destruct ((c =? 45) || (c =? 43)).
  - destruct s2 as [|c2 s3]; [reflexivity|].
    destruct (is_digit c2); [|reflexivity].
    pose proof (span_digits_length (c2 :: s3)).
    destruct (span_digits (c2 :: s3)) as [ds rest].
    cbn [snd length] in *. lia.
  - destruct (is_digit c); [|reflexivity].
    pose proof (span_digits_length (c :: s2)).
    destruct (span_digits (c :: s2)) as [ds rest].
    cbn [snd length] in *. lia.
Qed.

Lemma match_integer_length (s rest ds : str) (negative : bool) :
  match_integer s = Some (negative, ds, rest) ->
  (length rest < length s)%nat.
Proof.
  unfold match_integer.
  assert (Hbody : forall s1 : str,
             match s1 with
             | [] => None
             | c :: s2 =>
                 if c =? 48 then Some (negative, [c], s2)
                 else if is_digit c then
                   let '(ds0, rest0) := span_digits s1 in
                   Some (negative, ds0, rest0)
                 else None
             end = Some (negative, ds, rest) ->
             (length rest < length s1)%nat).
  { intros [|c s2] H; [discriminate H|].
    destruct (c =? 48); [injection H as <- <-; cbn; lia|].
    destruct (is_digit c) eqn:Hc; [|discriminate H].
    cbn [span_digits] in H. rewrite Hc in H.
    pose proof (span_digits_length s2).
    destruct (span_digits s2) as [ds0 rest0].
    injection H as <- <-. cbn [snd length] in *. lia. }
  destruct s as [|c s']; [intros H; discriminate H|].
  destruct (c =? 45); intros H.
  - assert (Hneg : negative = true).
    { destruct s' as [|c' s'']; [discriminate H|].
      destruct (c' =? 48); [congruence|].
      destruct (is_digit c'); [|discriminate H].
      destruct (span_digits (c' :: s'')). congruence. }
    subst negative. pose proof (Hbody s' H). cbn [length]. lia.
  - assert (Hneg : negative = false).
    { destruct (c =? 48); [congruence|].
      destruct (is_digit c); [|discriminate H].
      destruct (span_digits (c :: s')). congruence. }
    subst negative. exact (Hbody (c :: s') H).
Qed.

Lemma match_number_length (s rest : str) (v : json) :
  match_number s = Some (v, rest) -> (length rest < length s)%nat.
Proof.
  unfold match_number.
  destruct (match_integer s) as [[[negative ds] r0]|] eqn:Hint;
    [|intros H; discriminate H].
  apply match_integer_length in Hint.
  pose proof (match_frac_length r0) as Hfrac.
  destruct (match_frac r0) as [frac r1].
  pose proof (match_exp_length r1) as Hexp.
  destruct (match_exp r1) as [exp r2]. cbn [snd] in *.
  intros H. assert (rest = r2)
    by (destruct frac; [destruct exp|]; congruence).
  subst rest. lia.
Qed.

Lemma scan_atom_progress (s : str) :
  match scan_atom s with
  | Scanned _ rest => (length rest < length s)%nat
  | Failed m _ => m <> exhausted
  end.
Proof.
  unfold scan_atom.
  repeat match goal with
         | |- context [starts_with ?p s] =>
             let H := fresh "H" in
             destruct (starts_with p s) eqn:H;
             [apply starts_with_length in H;
              let n := eval vm_compute in (length p) in
              change (length p) with n in H; lia|]
         | |- context [match_number s] =>
             let H := fresh "H" in
             destruct (match_number s) as [[? ?]|] eqn:H;
             [apply match_number_length in H; exact H|]
         end.
  unfold exhausted. discriminate.
Qed.

Ltac scanstring_leaf IH :=
  first
    [ unfold exhausted; discriminate
    | match goal with
      | |- match scanstring ?b ?a ?s' with _ => _ end =>
          let H := fresh "Hrec" in
          pose proof (IH s' ltac:(cbn [length] in *; lia) b a) as H;
          destruct (scanstring b a s');
          [cbn [length] in *; lia|exact H]
      end
    | cbn [length]; lia ].

Lemma scanstring_progress (n : nat) :
  forall (s : str), (length s <= n)%nat ->
  forall (begin acc : str),
    match scanstring begin acc s with
    | Scanned _ rest => (length rest < length s)%nat
    | Failed m _ => m <> exhausted
    end.
Proof.
  induction n as [|n IH]; intros s Hn begin acc.
  - destruct s; [|cbn [length] in Hn; lia]. unfold exhausted. discriminate.
  - destruct s as [|c s1]; [unfold exhausted; discriminate|].
    cbn [scanstring].
    destruct (c =? 34); [scanstring_leaf IH|].
    destruct ((0 <=? c) && (c <? 32)); [scanstring_leaf IH|].
    destruct (c =? 92); [|scanstring_leaf IH].
    destruct s1 as [|esc s2]; [scanstring_leaf IH|].
    destruct (esc =? 117).
    + destruct s2 as [|h1 [|h2 [|h3 [|h4 s3]]]]; try scanstring_leaf IH.
      destruct (decode_uXXXX h1 h2 h3 h4) as [uni|]; [|scanstring_leaf IH].
      destruct ((55296 <=? uni) && (uni <=? 56319)); [|scanstring_leaf IH].
      destruct s3 as [|b0 [|u s4]]; try scanstring_leaf IH.
      destruct ((b0 =? 92) && (u =? 117)); [|scanstring_leaf IH].
      destruct s4 as [|l1 [|l2 [|l3 [|l4 s5]]]]; try scanstring_leaf IH.
      destruct (decode_uXXXX l1 l2 l3 l4) as [uni2|]; [|scanstring_leaf IH].
      destruct ((56320 <=? uni2) && (uni2 <=? 57343)); scanstring_leaf IH.
    + destruct (backslash esc); scanstring_leaf IH.
Qed.

Lemma scanstring_shorter (begin acc s t rest : str) :
  scanstring begin acc s = Scanned t rest -> (length rest < length s)%nat.
Proof.
  intros H. pose proof (scanstring_progress (length s) s (le_n _) begin acc)
    as Hp. rewrite H in Hp. exact Hp.
Qed.

Lemma scanstring_not_exhausted (begin acc s a : str) (m : string) :
  scanstring begin acc s = Failed m a -> m <> exhausted.
Proof.
  intros H. pose proof (scanstring_progress (length s) s (le_n _) begin acc)
    as Hp. rewrite H in Hp. exact Hp.
Qed.

Lemma progresses_shorter (s s' : str) (r : scan json) :
  (length s' <= length s)%nat -> progresses s' r -> progresses s r.
Proof. destruct r; cbn; [lia|auto]. Qed.

Lemma skip_ws_cons_length (s rest : str) (c : Z) :
  skip_ws s = c :: rest -> (S (length rest) <= length s)%nat.
Proof.
  intros H. pose proof (skip_ws_length s) as Hlen. rewrite H in Hlen.
  exact Hlen.
Qed.

Lemma scanner_fuel (fuel : nat) :
  (forall s, (2 * length s < fuel)%nat -> progresses s (scan_once fuel s))
  /\ (forall acc s, (2 * length s + 1 < fuel)%nat ->
      progresses s (array_items fuel acc s))
  /\ (forall acc s, (2 * length s + 1 < fuel)%nat ->
      progresses s (object_items fuel acc s)).
Proof.
  induction fuel as [|fuel (IHscan & IHarray & IHobject)];
    [repeat split; intros; lia|].
  split; [|split].
  - intros s Hfuel. destruct s as [|c s1]; [unfold progresses, exhausted;
                                            cbn; discriminate|].
    cbn [scan_once]. cbn [length] in Hfuel.
    destruct (c =? 34).
    { destruct (scanstring (c :: s1) [] s1) as [t rest|m a] eqn:Hstr.
      - apply scanstring_shorter in Hstr. cbn. lia.
      - apply scanstring_not_exhausted in Hstr. exact Hstr. }
    destruct (c =? 123).
    { destruct (skip_ws s1) as [|c2 rest] eqn:Hskip.
      - apply (progresses_shorter _ []); [cbn; lia|].
        apply IHobject. cbn. lia.
      - apply skip_ws_cons_length in Hskip.
        destruct (c2 =? 125); [cbn; lia|].
        apply (progresses_shorter _ (c2 :: rest)); [cbn; lia|].
        apply IHobject. cbn [length]. lia. }
    destruct (c =? 91).
    { destruct (skip_ws s1) as [|c2 rest] eqn:Hskip.
      - apply (progresses_shorter _ []); [cbn; lia|].
        apply IHarray. cbn. lia.
      - apply skip_ws_cons_length in Hskip.
        destruct (c2 =? 93); [cbn; lia|].
        apply (progresses_shorter _ (c2 :: rest)); [cbn; lia|].
        apply IHarray. cbn [length]. lia. }
    apply scan_atom_progress.
  - intros acc s Hfuel. cbn [array_items].
    pose proof (IHscan s ltac:(lia)) as Hvalue.
    destruct (scan_once fuel s) as [v rest|m a]; [|exact Hvalue].
    cbn in Hvalue.
    destruct (skip_ws rest) as [|c rest'] eqn:Hskip;
      [unfold progresses, exhausted; discriminate|].
    apply skip_ws_cons_length in Hskip.
    destruct (c =? 93); [cbn; lia|].
    destruct (c =? 44); [|unfold progresses, exhausted; discriminate].
    pose proof (skip_ws_length rest') as Hnext.
    apply (progresses_shorter _ (skip_ws rest')); [lia|].
    apply IHarray. lia.
  - intros acc s Hfuel. cbn [object_items].
    destruct s as [|q s1]; [unfold progresses, exhausted; discriminate|].
    cbn [length] in Hfuel.
    destruct (q =? 34); [|unfold progresses, exhausted; discriminate].
    destruct (scanstring (q :: s1) [] s1) as [key rest|m a] eqn:Hstr;
      [|apply scanstring_not_exhausted in Hstr; exact Hstr].
    apply scanstring_shorter in Hstr.
    destruct (skip_ws rest) as [|c rest1] eqn:Hskip;
      [unfold progresses, exhausted; discriminate|].
    apply skip_ws_cons_length in Hskip.
    destruct (c =? 58); [|unfold progresses, exhausted; discriminate].
    pose proof (skip_ws_length rest1) as Hvalue_at.
    pose proof (IHscan (skip_ws rest1) ltac:(lia)) as Hvalue.
    destruct (scan_once fuel (skip_ws rest1)) as [v rest2|m a];
      [|exact Hvalue].
    cbn in Hvalue.
    destruct (skip_ws rest2) as [|c' rest3] eqn:Hskip2;
      [unfold progresses, exhausted; discriminate|].
    apply skip_ws_cons_length in Hskip2.
    destruct (c' =? 125); [cbn; lia|].
    destruct (c' =? 44); [|unfold progresses, exhausted; discriminate].
    pose proof (skip_ws_length rest3) as Hnext.
    apply (progresses_shorter _ (skip_ws rest3)); [cbn [length]; lia|].
    apply IHobject. lia.
Qed.

(** [json.loads] never stops for lack of fuel: every failure it reports
    is one of the decoder's own. *)
Lemma decode_fuel_suffices (s : str) (m : string) (a : str) :
  scan_once (2 * length s + 2) (skip_ws s) = Failed m a -> m <> exhausted.
Proof.
  intros H. pose proof (skip_ws_length s) as Hlen.
  pose proof (proj1 (scanner_fuel (2 * length s + 2)) (skip_ws s)
                ltac:(lia)) as Hp.
  rewrite H in Hp. exact Hp.
Qed.

(* ===================================================================== *)
(** * Further properties                                                  *)
(* ===================================================================== *)

(** ** [generate_sample_users]: dates, draws and saving *)

Lemma randint_draw (a b : Z) (w : world) :
  a <= b ->
  randint a b w
  = (Ok (a + entropy w (drawn w) mod (b - a + 1)),
     World (entropy w) (S (drawn w)) (clock w) (read w)).
Proof.
  intros Hab. unfold randint.
  destruct (Z.ltb_spec b a) as [Hlt|_]; [lia|]. reflexivity.
Qed.

Lemma code_points_app (a b : str) :
  code_points (a ++ b) = code_points a && code_points b.
Proof. apply forallb_app. Qed.

Lemma code_points_cons (c : Z) (s : str) :
  code_points (c :: s) = code_point c && code_points s.
Proof. reflexivity. Qed.

Lemma code_points_tail (c : Z) (s : str) :
  code_points (c :: s) = true -> code_points s = true.
Proof.
  rewrite code_points_cons. intros H.
  apply andb_true_iff in H as [_ H]. exact H.
Qed.

Lemma code_point_range (c : Z) : 0 <= c <= 1114111 -> code_point c = true.
Proof.
  intros H. unfold code_point. apply andb_true_iff.
  split; apply Z.leb_le; lia.
Qed.

Lemma digits_code_points (ds : str) :
  Forall (fun c => is_digit c = true) ds -> code_points ds = true.
Proof.
  intros H. induction H as [|c ds Hd _ IH]; [reflexivity|].
  rewrite code_points_cons, IH, andb_true_r.
  unfold is_digit in Hd. apply andb_true_iff in Hd as [H1 H2].
  apply Z.leb_le in H1. apply Z.leb_le in H2.
  apply code_point_range. lia.
Qed.

Lemma str_of_int_code_points (n : Z) : code_points (str_of_int n) = true.
Proof.
  destruct (str_of_int_shape n) as (negative & ds & -> & [Hds _] & _).
  rewrite code_points_app, (digits_code_points ds Hds).
  destruct negative; reflexivity.
Qed.

Lemma ascii_lower_code_points (s : str) :
  code_points s = true -> code_points (ascii_lower s) = true.
Proof.
  intros H. induction s as [|c s IH]; [reflexivity|].
  rewrite code_points_cons in H. apply andb_true_iff in H as [Hc Hs].
  cbn [ascii_lower List.map]. fold (ascii_lower s).
  rewrite code_points_cons, (IH Hs), andb_true_r.
  unfold code_point in Hc. apply andb_true_iff in Hc as [H1 H2].
  apply Z.leb_le in H1. apply Z.leb_le in H2.
  destruct ((65 <=? c) && (c <=? 90)) eqn:Hup;
    [|apply code_point_range; lia].
  apply andb_true_iff in Hup as [H3 H4].
  apply Z.leb_le in H3. apply Z.leb_le in H4.
  apply code_point_range. lia.
Qed.

Lemma lookup_code_points (l : list str) (i : nat) (s : str) :
  Forall (fun s => code_points s = true) l -> l !! i = Some s ->
  code_points s = true.
Proof. intros Hl Hs. exact (Forall_lookup_1 _ _ _ _ Hl Hs). Qed.

Section SampleUsersDraws.

Variable lower : str -> str.
Variable isoformat : Z -> str.

(** One iteration: what it draws, reads and appends. *)
Lemma sample_user_draws first_names last_names domains min_age max_age
    (i : nat) (users : list user) (w : world) (first last domain : str) :
  first_names !! i = Some first ->
  last_names !! (i mod length last_names)%nat = Some last ->
  domains !! (i mod length domains)%nat = Some domain ->
  min_age <= max_age ->
  sample_user lower isoformat first_names last_names domains
    min_age max_age (Z.of_nat i) users w
  = (Ok (users
         ++ [{| id := Z.of_nat i + 1;
                firstName := first;
                lastName := last;
                email :=
                  lower first ++ lit "." ++ lower last ++ lit "@" ++ domain;
                username :=
                  lower first
                  ++ str_of_int (100 + entropy w (drawn w) mod 900);
                age :=
                  min_age
                  + entropy w (S (drawn w)) mod (max_age - min_age + 1);
                registeredAt :=
                  isoformat
                    (minus_days (clock w (read w))
                       (1 + entropy w (S (S (drawn w))) mod 365)) |}]),
     World (entropy w) (S (S (S (drawn w)))) (clock w) (S (read w))).
Proof.
  intros Hfirst Hlast Hdomain Hage.
  assert (Hl : last_names <> []) by (intros ->; discriminate Hlast).
  assert (Hd : domains <> []) by (intros ->; discriminate Hdomain).
  unfold sample_user, bind, lift.
  rewrite (getitem_lookup _ _ _ Hfirst).
  rewrite (py_mod_len i last_names Hl), (getitem_lookup _ _ _ Hlast).
  rewrite (py_mod_len i domains Hd), (getitem_lookup _ _ _ Hdomain).
  rewrite (randint_draw 100 999 w) by lia.
  rewrite (randint_draw min_age max_age) by exact Hage.
  unfold datetime_now. cbn [entropy drawn clock read].
  rewrite randint_draw by lia. cbn [entropy drawn clock read].
  reflexivity.
Qed.

(** The loop, started at index [k] with [n] indices to go, in terms of
    the state [w0] at the start of the call. *)
Lemma sample_loop_draws first_names last_names domains min_age max_age
    (n k : nat) (users : list user) (w0 w : world) :
  (k + n = length first_names)%nat ->
  last_names <> [] -> domains <> [] -> min_age <= max_age ->
  w = World (entropy w0) (drawn w0 + 3 * k) (clock w0) (read w0 + k) ->
  exists new,
    for_each (List.map Z.of_nat (seq k n))
      (sample_user lower isoformat first_names last_names domains
         min_age max_age) users w
    = (Ok (users ++ new),
       World (entropy w0) (drawn w0 + 3 * (k + n)) (clock w0)
             (read w0 + (k + n)))
    /\ length new = n
    /\ forall j u, new !! j = Some u ->
         exists first last domain,
           first_names !! (k + j)%nat = Some first
           /\ last_names !! ((k + j) mod length last_names)%nat = Some last
           /\ domains !! ((k + j) mod length domains)%nat = Some domain
           /\ u = drawn_user lower isoformat min_age max_age w0 (k + j)
                    first last domain.
Proof.
  intros Hkn Hl Hd Hage. revert k users w Hkn.
  induction n as [|n IH]; intros k users w Hkn Hw.
  - exists []. simpl. rewrite app_nil_r, Nat.add_0_r. subst w.
    split; [reflexivity|]. split; [reflexivity|].
    intros j u Hj. destruct j; discriminate.
  - destruct (lookup_lt_is_Some_2 first_names k ltac:(lia)) as [first Hfirst].
    destruct (lookup_mod_length k last_names Hl) as [last Hlast].
    destruct (lookup_mod_length k domains Hd) as [domain Hdomain].
    simpl. unfold bind at 1.
    rewrite (sample_user_draws _ _ _ _ _ k users w first last domain
               Hfirst Hlast Hdomain Hage).
    subst w. cbn [entropy drawn clock read].
    destruct (IH (S k) (users ++ [drawn_user lower isoformat min_age max_age
                                    w0 k first last domain])
                (World (entropy w0) (drawn w0 + 3 * S k) (clock w0)
                       (read w0 + S k)) ltac:(lia) eq_refl)
      as (new & Hloop & Hlen & Hnew).
    exists (drawn_user lower isoformat min_age max_age w0 k first last domain
            :: new).
    split; [|split; [simpl; lia|]].
    + unfold drawn_user in *.
      replace (S (S (S (drawn w0 + 3 * k)))) with (drawn w0 + 3 * S k)%nat
        by lia.
      replace (S (read w0 + k)) with (read w0 + S k)%nat by lia.
      replace (S (drawn w0 + 3 * k)) with (drawn w0 + 3 * k + 1)%nat by lia.
      replace (S (drawn w0 + 3 * k + 1)) with (drawn w0 + 3 * k + 2)%nat
        by lia.
      rewrite Hloop. rewrite <- app_assoc. simpl.
      replace (k + S n)%nat with (S k + n)%nat by lia. reflexivity.
    + intros [|j] u Hj; simpl in Hj.
      * injection Hj as <-. rewrite Nat.add_0_r.
        exists first, last, domain. auto.
      * replace (k + S j)%nat with (S k + j)%nat by lia. eauto.
Qed.

(** The whole call on valid arguments. *)
Lemma generate_sample_users_draws
    (first_names last_names domains : list str) (min_age max_age : Z)
    (w : world) :
  first_names <> [] -> last_names <> [] -> domains <> [] ->
  0 <= min_age -> min_age <= max_age ->
  exists users,
    generate_sample_users lower isoformat first_names last_names domains
      min_age max_age w
    = (Ok (SampleUsers users (len first_names)),
       World (entropy w) (drawn w + 3 * length first_names) (clock w)
             (read w + length first_names))
    /\ forall i u, users !! i = Some u ->
         exists first last domain,
           first_names !! i = Some first
           /\ last_names !! (i mod length last_names)%nat = Some last
           /\ domains !! (i mod length domains)%nat = Some domain
           /\ u = drawn_user lower isoformat min_age max_age w i
                    first last domain.
Proof.
  intros Hf Hl Hd Hmin Hage.
  destruct (sample_loop_draws first_names last_names domains
              min_age max_age (length first_names) 0 [] w w eq_refl Hl Hd
              Hage) as (users & Hloop & Hlen & Hrec).
  { destruct w. cbn. f_equal; lia. }
  exists users. split; [|exact Hrec].
  unfold generate_sample_users.
  destruct first_names as [|f0 fs]; [congruence|].
  destruct last_names as [|l0 ls]; [congruence|].
  destruct domains as [|d0 ds]; [congruence|].
  destruct (Z.ltb_spec max_age min_age) as [Hlt|_]; [lia|].
  destruct (Z.ltb_spec min_age 0) as [Hlt|_]; [lia|].
  destruct (Z.ltb_spec max_age 0) as [Hlt|_]; [lia|].
  cbv beta iota. unfold orb.
  unfold len at 1. rewrite range_seq. unfold bind.
  rewrite Hloop. unfold ret, len. simpl app. rewrite Hlen. reflexivity.
Qed.

(** X1. On valid arguments, the [registeredAt] of the record at
    position [i] is the clock reading of its iteration (the [i]-th
    reading since the call started) moved back by a whole number of days
    between 1 and 365, rendered by [isoformat]; and the call draws three
    random numbers and reads the clock once per record, no more. *)
Theorem sample_users_registered_within_a_year
    (first_names last_names domains : list str) (min_age max_age : Z)
    (w : world) :
  first_names <> [] -> last_names <> [] -> domains <> [] ->
  0 <= min_age -> min_age <= max_age ->
  exists users w',
    generate_sample_users lower isoformat first_names last_names domains
      min_age max_age w = (Ok (SampleUsers users (len first_names)), w')
    /\ (forall i u, users !! i = Some u ->
          exists days,
            1 <= days <= 365
            /\ registeredAt u
               = isoformat (clock w (read w + i) - days * 86400000000))
    /\ entropy w' = entropy w
    /\ drawn w' = (drawn w + 3 * length first_names)%nat
    /\ clock w' = clock w
    /\ read w' = (read w + length first_names)%nat.
Proof.
  intros Hf Hl Hd Hmin Hage.
  destruct (generate_sample_users_draws first_names last_names domains
              min_age max_age w Hf Hl Hd Hmin Hage) as (users & Hgen & Hrec).
  eexists users, _. split; [exact Hgen|]. split; [|cbn; auto].
  intros i u Hu.
  destruct (Hrec i u Hu) as (first & last & domain & _ & _ & _ & ->).
  exists (1 + entropy w (drawn w + 3 * i + 2) mod 365).
  split; [|reflexivity].
  pose proof (Z.mod_pos_bound (entropy w (drawn w + 3 * i + 2)) 365). lia.
Qed.

End SampleUsersDraws.

Section SampleUsersSaved.

Variable lower : str -> str.
Variable isoformat : Z -> str.

(** [str.lower] and [datetime.isoformat] return strings. *)
Hypothesis lower_code_points :
  forall s, code_points s = true -> code_points (lower s) = true.
Hypothesis isoformat_code_points :
  forall t, code_points (isoformat t) = true.

Lemma drawn_user_representable (min_age max_age : Z) (w : world) (i : nat)
    (first last domain : str) :
  code_points first = true -> code_points last = true ->
  code_points domain = true ->
  representable
    (user_dict (drawn_user lower isoformat min_age max_age w i
                  first last domain)) = true.
Proof.
  intros Hf Hl Hd. unfold user_dict, drawn_user.
  cbn [id firstName lastName email username age registeredAt].
  cbn [representable List.map fst forallb].
  repeat match goal with |- context [forallb code_point ?s] =>
    change (forallb code_point s) with (code_points s) end.
  rewrite !code_points_app, Hf, Hl, Hd, !lower_code_points,
    str_of_int_code_points, isoformat_code_points by assumption.
  vm_compute. reflexivity.
Qed.

(** X2. Whatever its arguments, [generate_sample_users] returns a dict
    and does not raise; the dict is JSON-representable; and once
    [write_json] has stored it with success, [read_json] on the same
    path returns a text that parses to that very dict. *)
Theorem sample_users_can_be_saved
    (first_names last_names domains : list str) (min_age max_age : Z)
    (w : world) :
  Forall (fun s => code_points s = true) first_names ->
  Forall (fun s => code_points s = true) last_names ->
  Forall (fun s => code_points s = true) domains ->
  exists r w',
    generate_sample_users lower isoformat first_names last_names domains
      min_age max_age w = (Ok r, w')
    /\ representable (sample_dict r) = true
    /\ forall filepath fs fs' s,
         write_json filepath (sample_dict r) fs = (Ok s, fs') ->
         success_message s ->
         exists text,
           read_json filepath fs' = Ok text
           /\ loads text = Ok (sample_dict r).
Proof.
  intros Hfirst Hlast Hdomains.
  assert (Hgen : exists r w',
             generate_sample_users lower isoformat first_names last_names
               domains min_age max_age w = (Ok r, w')
             /\ representable (sample_dict r) = true).
  { destruct first_names as [|f0 fs] eqn:Hf;
      [eexists _, _; split; reflexivity|].
    destruct last_names as [|l0 ls] eqn:Hl;
      [eexists _, _; split; reflexivity|].
    destruct domains as [|d0 ds] eqn:Hd;
      [eexists _, _; split; reflexivity|].
    destruct (Z.ltb_spec max_age min_age) as [Hlt|Hle].
    { unfold generate_sample_users.
      destruct (Z.ltb_spec max_age min_age) as [_|Hge]; [|lia].
      eexists _, _. split; [reflexivity|].
      cbn [sample_dict representable List.map fst forallb].
      change (forallb code_point ?s) with (code_points s).
      rewrite !code_points_app, !str_of_int_code_points.
      vm_compute. reflexivity. }
    destruct ((min_age <? 0) || (max_age <? 0)) eqn:Hneg.
    { unfold generate_sample_users.
      destruct (Z.ltb_spec max_age min_age) as [Hlt|_]; [lia|].
      rewrite Hneg. eexists _, _. split; reflexivity. }
    apply orb_false_iff in Hneg as [Hmin _]. apply Z.ltb_ge in Hmin.
    rewrite <- Hf, <- Hl, <- Hd in *.
    destruct (generate_sample_users_draws lower isoformat first_names
                last_names domains min_age max_age w
                ltac:(subst; discriminate) ltac:(subst; discriminate)
                ltac:(subst; discriminate) Hmin Hle)
      as (users & Hgen & Hrec).
    eexists _, _. split; [exact Hgen|].
    cbn [sample_dict representable List.map fst forallb].
    apply andb_true_iff. split; [vm_compute; reflexivity|].
    apply andb_true_iff. split; [|vm_compute; reflexivity].
    apply andb_true_iff. split; [vm_compute; reflexivity|].
    apply List.forallb_forall. intros x Hx.
    apply List.in_map_iff in Hx as (u & <- & Hu).
    apply list_elem_of_In, list_elem_of_lookup in Hu as [i Hi].
    destruct (Hrec i u Hi) as (first & last & domain & H1 & H2 & H3 & ->).
    apply drawn_user_representable.
    - exact (lookup_code_points _ _ _ Hfirst H1).
    - exact (lookup_code_points _ _ _ Hlast H2).
    - exact (lookup_code_points _ _ _ Hdomains H3). }
  destruct Hgen as (r & w' & Hgen & Hrep).
  exists r, w'. split; [exact Hgen|]. split; [exact Hrep|].
  intros filepath fs fs' s Hwrite Hs.
  apply (write_json_succeeded _ _ _ _ _ Hwrite) in Hs.
  apply write_json_success in Hs as (Hfile & Hencodable & _).
  apply (representable_sound (sample_dict r) 0) in Hrep; [|exact Hencodable].
  exists (dumps pretty_ascii (sample_dict r)). split.
  - unfold read_json, read_json_try, open_r. rewrite Hfile. cbn [rbind].
    rewrite (universal_newlines_dumps pretty_unicode _ Hrep).
    rewrite (loads_dumps pretty_unicode _ Hrep). reflexivity.
  - apply loads_dumps. exact Hrep.
Qed.

End SampleUsersSaved.

Lemma sample_users_registered_within_a_year_witness :
  exists users w',
    generate_sample_users ascii_lower str_of_int
      [lit "Ada"; lit "Bob"; lit "Cy"] [lit "Low"; lit "Ray"] [lit "x.org"]
      18 30 demo_world = (Ok (SampleUsers users 3), w')
    /\ (forall i u, users !! i = Some u ->
          exists days,
            1 <= days <= 365
            /\ registeredAt u
               = str_of_int (1762250000000000 + Z.of_nat i
                             - days * 86400000000))
    /\ drawn w' = 9%nat /\ read w' = 3%nat.
Proof.
  destruct (sample_users_registered_within_a_year ascii_lower str_of_int
              [lit "Ada"; lit "Bob"; lit "Cy"] [lit "Low"; lit "Ray"]
              [lit "x.org"] 18 30 demo_world)
    as (users & w' & Hgen & Hdates & _ & Hdrawn & _ & Hread);
    [discriminate | discriminate | discriminate | lia | lia |].
  exists users, w'. split; [exact Hgen|]. split; [exact Hdates|].
  split; [exact Hdrawn|exact Hread].
Defined.

Lemma sample_users_can_be_saved_witness :
  exists w',
    generate_sample_users ascii_lower str_of_int
      [lit "Ada"; lit "Bob"; lit "Cy"] [lit "Low"; lit "Ray"] [lit "x.org"]
      18 30 demo_world = (Ok demo_sample, w')
    /\ representable (sample_dict demo_sample) = true
    /\ exists text,
         read_json (lit "users.json")
           (snd (write_json (lit "users.json") (sample_dict demo_sample)
                   demo_fs))
         = Ok text
         /\ loads text = Ok (sample_dict demo_sample).
Proof.
  destruct (sample_users_can_be_saved ascii_lower str_of_int
              ascii_lower_code_points str_of_int_code_points
              [lit "Ada"; lit "Bob"; lit "Cy"] [lit "Low"; lit "Ray"]
              [lit "x.org"] 18 30 demo_world)
    as (r & w' & Hgen & Hrep & Hsave);
    [repeat constructor | repeat constructor | repeat constructor |].
  assert (Hr : Ok r = Ok demo_sample).
  { transitivity (fst (generate_sample_users ascii_lower str_of_int
                         [lit "Ada"; lit "Bob"; lit "Cy"]
                         [lit "Low"; lit "Ray"] [lit "x.org"]
                         18 30 demo_world)).
    - rewrite Hgen. reflexivity.
    - vm_compute. reflexivity. }
  injection Hr as ->.
  exists w'. split; [exact Hgen|]. split; [exact Hrep|].
  assert (Hmsg : fst (write_json (lit "users.json") (sample_dict demo_sample)
                        demo_fs)
                 = Ok (lit "Successfully wrote JSON data to 'users.json' "
                       ++ lit "(455 characters)."))
    by (vm_compute; reflexivity).
  destruct (write_json (lit "users.json") (sample_dict demo_sample) demo_fs)
    as [res fs'] eqn:Hwrite.
  cbn [fst snd] in *. subst res.
  apply (Hsave _ _ _ _ Hwrite). eexists. reflexivity.
Defined.

(** ** [write_json]: outcomes and what it leaves on disk *)

(** X3. [write_json] never raises.  It returns either the success
    message, and then the file holds the indented rendering of [data],
    or a text that starts with ["Error writing JSON: "]; the two cannot
    be mistaken for one another. *)
Theorem write_json_never_raises (filepath : str) (data : json)
    (fs : filesystem) :
  exists s fs',
    write_json filepath data fs = (Ok s, fs')
    /\ ((s = lit "Successfully wrote JSON data to '" ++ filepath
             ++ lit "' (" ++ str_of_int (len (dumps compact data))
             ++ lit " characters)."
         /\ entries fs' !! filepath
            = Some (TextFile (dumps pretty_unicode data))
         /\ ~ failure_message s)
        \/ (failure_message s /\ ~ success_message s)).
Proof.
  unfold write_json.
  destruct (write_json_try filepath data fs) as [[s|e] fs'] eqn:Htry.
  - exists s, fs'. split; [reflexivity|]. left.
    apply write_json_success in Htry as (Hfile & _ & ->).
    split; [reflexivity|]. split; [exact Hfile|].
    intros [d Hd]. cbn in Hd. discriminate Hd.
  - assert (Hexc : is_Exception e = true).
    { unfold write_json_try, open_w, write_text in Htry.
      destruct (entries fs !! filepath) as [[text| | |]|];
        [| | | |destruct (creatable fs filepath)];
        try (destruct (utf8_encodable (dumps pretty_unicode data)));
        try discriminate Htry; injection Htry as <- _; reflexivity. }
    rewrite Hexc. eexists _, fs'. split; [reflexivity|]. right.
    split; [eexists; reflexivity|].
    intros [tail Hs]. cbn in Hs. discriminate Hs.
Qed.

Lemma read_json_entry (p : str) (fs fs' : filesystem) :
  entries fs' !! p = entries fs !! p -> read_json p fs' = read_json p fs.
Proof.
  intros H. unfold read_json, read_json_try, open_r. rewrite H. reflexivity.
Qed.

(** X4. Whether it succeeds or fails, [write_json] changes nothing at
    any other path: the entry there is the same, and [read_json] on it
    returns what it returned before. *)
Theorem write_json_touches_only_its_path (filepath : str) (data : json)
    (fs : filesystem) (p : str) :
  p <> filepath ->
  entries (snd (write_json filepath data fs)) !! p = entries fs !! p
  /\ creatable (snd (write_json filepath data fs)) = creatable fs
  /\ read_json p (snd (write_json filepath data fs)) = read_json p fs.
Proof.
  intros Hp.
  assert (H : entries (snd (write_json filepath data fs)) !! p
              = entries fs !! p
              /\ creatable (snd (write_json filepath data fs))
                 = creatable fs).
  { unfold write_json, write_json_try, open_w, write_text.
    destruct (entries fs !! filepath) as [[text| | |]|];
      [| | | |destruct (creatable fs filepath)];
      try (destruct (utf8_encodable (dumps pretty_unicode data)));
      cbn [snd fst is_Exception exc_type os_error entries creatable];
      rewrite ?lookup_insert_ne by congruence; auto. }
  destruct H as [He Hc]. split; [exact He|]. split; [exact Hc|].
  apply read_json_entry. exact He.
Qed.

(** X5. [write_json] is idempotent: repeating a call right away returns
    the same message and leaves the file system as the first call left
    it, whether that call succeeded or failed. *)
Theorem write_json_twice (filepath : str) (data : json) (fs : filesystem) :
  write_json filepath data (snd (write_json filepath data fs))
  = write_json filepath data fs.
Proof.
  unfold write_json, write_json_try, open_w, write_text.
  destruct (entries fs !! filepath) as [[text| | |]|] eqn:He;
    [| | | |destruct (creatable fs filepath) eqn:Hc];
    try (destruct (utf8_encodable (dumps pretty_unicode data)) eqn:Hu);
    cbn [snd fst is_Exception exc_type os_error entries creatable];
    rewrite ?lookup_insert_eq, ?He, ?Hc, ?Hu;
    cbn [snd fst is_Exception exc_type os_error entries creatable];
    rewrite ?insert_insert_eq; reflexivity.
Qed.

Lemma encodable_prefix_spec (text : str) :
  utf8_encodable text = false ->
  utf8_encodable (encodable_prefix text) = true
  /\ exists rest, text = encodable_prefix text ++ rest /\ rest <> [].
Proof.
  unfold utf8_encodable.
  induction text as [|c text IH]; [discriminate|].
  cbn [forallb encodable_prefix]. destruct (is_surrogate c) eqn:Hc.
  - intros _. split; [reflexivity|]. exists (c :: text).
    split; [reflexivity|discriminate].
  - cbn [negb andb]. intros H. destruct (IH H) as (Henc & rest & Heq & Hne).
    split; [cbn [forallb]; rewrite Hc, Henc; reflexivity|].
    exists rest. split; [cbn [app]; f_equal; exact Heq|exact Hne].
Qed.

(** X6. [write_json] is not atomic.  When [data] holds a character that
    UTF-8 cannot encode (a lone surrogate), a call on an existing file
    returns an error message, and the file is left with a proper prefix
    of the JSON text in place of its former content: [open] has
    truncated it before the encoder failed. *)
Theorem write_json_failure_leaves_partial_file (filepath : str) (data : json)
    (fs : filesystem) (old : str) :
  entries fs !! filepath = Some (TextFile old) ->
  utf8_encodable (dumps pretty_unicode data) = false ->
  exists s fs' written rest,
    write_json filepath data fs = (Ok s, fs')
    /\ failure_message s
    /\ entries fs' !! filepath = Some (TextFile written)
    /\ dumps pretty_unicode data = written ++ rest
    /\ rest <> []
    /\ utf8_encodable written = true.
Proof.
  intros Hfile Hbad.
  destruct (encodable_prefix_spec _ Hbad) as (Henc & rest & Heq & Hne).
  unfold write_json, write_json_try, open_w, write_text.
  rewrite Hfile, Hbad. cbn [is_Exception exc_type].
  eexists _, _, _, rest. split; [reflexivity|].
  split; [eexists; reflexivity|].
  cbn [entries]. rewrite lookup_insert_eq.
  split; [reflexivity|]. auto.
Qed.

Lemma write_json_touches_only_its_path_witness :
  entries (snd (write_json (lit "users.json") demo_data stocked_fs))
    !! lit "notes.json"
  = Some (TextFile (qlit "[1, 2]"))
  /\ read_json (lit "notes.json")
       (snd (write_json (lit "users.json") demo_data stocked_fs))
     = read_json (lit "notes.json") stocked_fs.
Proof.
  destruct (write_json_touches_only_its_path (lit "users.json") demo_data
              stocked_fs (lit "notes.json") ltac:(discriminate))
    as (Hentry & _ & Hread).
  split; [|exact Hread].
  rewrite Hentry. vm_compute. reflexivity.
Defined.

Lemma write_json_failure_leaves_partial_file_witness :
  exists s fs' written rest,
    write_json (lit "users.json") unencodable_data stocked_fs = (Ok s, fs')
    /\ failure_message s
    /\ entries fs' !! lit "users.json" = Some (TextFile written)
    /\ dumps pretty_unicode unencodable_data = written ++ rest
    /\ rest <> []
    /\ written <> qlit "{'count': 0}".
Proof.
  destruct (write_json_failure_leaves_partial_file (lit "users.json")
              unencodable_data stocked_fs (qlit "{'count': 0}"))
    as (s & fs' & written & rest & Hwrite & Hs & Hfile & Heq & Hne & _).
  - vm_compute. reflexivity.
  - vm_compute. reflexivity.
  - exists s, fs', written, rest. repeat split; try assumption.
    intros ->. vm_compute in Heq. discriminate Heq.
Defined.

(** ** [read_json]: what it rejects, what it accepts, what it returns *)

Lemma read_json_invalid (filepath : str) (fs : filesystem) (text : str)
    (e : exn) :
  entries fs !! filepath = Some (TextFile text) ->
  loads (universal_newlines text) = Raise e ->
  read_json filepath fs
  = Ok (lit "Error: Invalid JSON in file - " ++ exc_str e).
Proof.
  intros Hfile Hloads. unfold read_json, read_json_try, open_r.
  rewrite Hfile. cbn [rbind]. rewrite Hloads. cbn [rbind].
  apply loads_raises_decode_error in Hloads.
  unfold is_FileNotFoundError, is_JSONDecodeError. rewrite Hloads.
  reflexivity.
Qed.

Lemma read_json_valid (filepath : str) (fs : filesystem) (text : str)
    (v : json) :
  entries fs !! filepath = Some (TextFile text) ->
  loads (universal_newlines text) = Ok v ->
  read_json filepath fs = Ok (dumps pretty_ascii v).
Proof.
  intros Hfile Hloads. unfold read_json, read_json_try, open_r.
  rewrite Hfile. cbn [rbind]. rewrite Hloads. reflexivity.
Qed.

(** *** Positions in error messages *)

Lemma last_line_single (s : str) :
  count_newlines s = 0 -> last_line s = s.
Proof.
  unfold count_newlines, last_line, len. intros H.
  assert (Hnone : Forall (fun c => (c =? 10) = false) (rev s)).
  { apply Forall_rev. induction s as [|c s IH]; constructor;
      cbn [List.filter] in H; destruct (c =? 10) eqn:Hc;
      try reflexivity; try (cbn [length] in H; lia); auto. }
  rewrite <- (rev_involutive s) at 2. f_equal.
  induction Hnone as [|c l Hc _ IH]; [reflexivity|].
  rewrite Hc, IH. reflexivity.
Qed.

(** The line, column and offset that [JSONDecodeError] reports for the
    position at the end of [before]. *)
Lemma decode_error_position (msg : string) (before at_ : str) :
  exc_str (decode_error msg (before ++ at_) at_)
  = lit msg ++ lit ": line " ++ str_of_int (count_newlines before + 1)
    ++ lit " column " ++ str_of_int (len (last_line before) + 1)
    ++ lit " (char " ++ str_of_int (len before) ++ lit ")".
Proof.
  unfold decode_error. cbn [exc_str].
  assert (Hpos : len (before ++ at_) - len at_ = len before)
    by (unfold len; rewrite length_app; lia).
  assert (Hbefore : firstn (Z.to_nat (len before)) (before ++ at_) = before).
  { unfold len. rewrite Nat2Z.id, firstn_app, Nat.sub_diag, firstn_all.
    cbn [firstn]. apply app_nil_r. }
  rewrite Hpos, Hbefore.
  destruct (Z.eqb_spec (count_newlines before) 0) as [H0|_];
    [|reflexivity].
  rewrite (last_line_single before H0). reflexivity.
Qed.

(** X7. A file that starts with a byte order mark is never read: with
    [encoding="utf-8"] the mark reaches [json.load] as U+FEFF, and
    [read_json] returns the "invalid JSON" text with the decoder's
    message about the mark, whatever follows it. *)
Theorem read_json_rejects_byte_order_mark (filepath : str) (fs : filesystem)
    (rest : str) :
  entries fs !! filepath = Some (TextFile (65279 :: rest)) ->
  read_json filepath fs
  = Ok (lit "Error: Invalid JSON in file - "
        ++ lit "Unexpected UTF-8 BOM (decode using utf-8-sig)"
        ++ lit ": line 1 column 1 (char 0)").
Proof.
  intros Hfile.
  rewrite (read_json_invalid filepath fs (65279 :: rest)
             (decode_error "Unexpected UTF-8 BOM (decode using utf-8-sig)"
                ([] ++ 65279 :: universal_newlines rest)
                (65279 :: universal_newlines rest)) Hfile);
    [|reflexivity].
  rewrite decode_error_position. reflexivity.
Qed.

(** *** White space around a document *)

Lemma skip_ws_blank (b s : str) :
  blank b = true -> skip_ws (b ++ s) = skip_ws s.
Proof.
  induction b as [|c b IH]; [reflexivity|]. cbn [blank forallb app skip_ws].
  intros H. apply andb_true_iff in H as [-> H]. exact (IH H).
Qed.

Lemma starts_with_bom_blank (b s : str) :
  blank b = true ->
  starts_with_bom (b ++ s)
  = match b with [] => starts_with_bom s | _ => false end.
Proof.
  destruct b as [|c b]; [reflexivity|].
  cbn [blank forallb app starts_with_bom]. intros H.
  apply andb_true_iff in H as [Hc _].
  unfold is_ws in Hc. revert Hc. zb; intros; try discriminate; reflexivity.
Qed.

Lemma loads_blank (text : str) :
  blank text = true ->
  loads text = Raise (decode_error "Expecting value" (text ++ []) []).
Proof.
  intros Hblank. unfold loads, decode. rewrite app_nil_r.
  pose proof (starts_with_bom_blank text [] Hblank) as Hbom.
  rewrite app_nil_r in Hbom. rewrite Hbom.
  assert (Hskip : skip_ws text = []).
  { rewrite <- (app_nil_r text). rewrite skip_ws_blank by exact Hblank.
    reflexivity. }
  rewrite Hskip. destruct text; reflexivity.
Qed.

(** X8. An empty file, or one that holds JSON white space only, is
    reported as invalid JSON: "Expecting value" at the end of the text,
    with the line, the column and the offset of that position in the
    text as it is read, its line ends translated (a carriage return
    with the line feed after it counts as one character). *)
Theorem read_json_blank_file (filepath : str) (fs : filesystem) (text : str) :
  blank text = true ->
  entries fs !! filepath = Some (TextFile text) ->
  read_json filepath fs
  = Ok (lit "Error: Invalid JSON in file - Expecting value: line "
        ++ str_of_int (count_newlines (universal_newlines text) + 1)
        ++ lit " column "
        ++ str_of_int (len (last_line (universal_newlines text)) + 1)
        ++ lit " (char "
        ++ str_of_int (len (universal_newlines text)) ++ lit ")").
Proof.
  intros Hblank Hfile.
  apply (translate_newlines_blank false) in Hblank.
  rewrite (read_json_invalid filepath fs text _ Hfile
             (loads_blank _ Hblank)).
  rewrite decode_error_position. reflexivity.
Qed.


Lemma starts_with_bom_padded (o : dump_opts) (v : json) (before tail : str) :
  scalar_json v -> blank before = true ->
  starts_with_bom (before ++ dumps o v ++ tail) = false.
Proof.
  intros Hv Hb. rewrite starts_with_bom_blank by exact Hb.
  destruct before; [|reflexivity].
  destruct (encode_head o 0 v Hv) as (c & s & Hhead & Hc).
  unfold dumps. rewrite Hhead. cbn [app starts_with_bom].
  apply value_head_facts. exact Hc.
Qed.

(** The decoder on an encoded value with white space in front of it and
    any text after it that cannot continue a numeral. *)
Lemma scan_padded (o : dump_opts) (v : json) (before tail : str) :
  scalar_json v -> blank before = true -> number_end tail ->
  scan_once (2 * length (before ++ dumps o v ++ tail) + 2)
    (skip_ws (before ++ dumps o v ++ tail))
  = Scanned v tail.
Proof.
  intros Hv Hb Htail. rewrite skip_ws_blank by exact Hb.
  unfold dumps. rewrite skip_ws_encode by exact Hv.
  apply scan_once_encode; [exact Hv| |exact Htail].
  rewrite !length_app. lia.
Qed.



(** X10. A file in which a document is followed by anything but white
    space (a second document, as in a JSON Lines file, or stray text) is
    reported as invalid JSON: "Extra data" at the first character after
    the document and the white space that follows it, the position
    being counted in the text as it is read, its line ends translated
    (a carriage return with the line feed after it counts as one
    character). *)
Theorem read_json_rejects_trailing_data (filepath : str) (fs : filesystem)
    (o : dump_opts) (v : json) (before after : str) (c : Z) (rest : str) :
  scalar_json v -> blank before = true -> blank after = true ->
  is_ws c = false -> number_end (after ++ c :: rest) ->
  entries fs !! filepath
  = Some (TextFile (before ++ dumps o v ++ after ++ c :: rest)) ->
  read_json filepath fs
  = Ok (lit "Error: Invalid JSON in file - Extra data: line "
        ++ str_of_int
             (count_newlines
                (universal_newlines (before ++ dumps o v ++ after)) + 1)
        ++ lit " column "
        ++ str_of_int
             (len (last_line
                     (universal_newlines (before ++ dumps o v ++ after)))
              + 1)
        ++ lit " (char "
        ++ str_of_int
             (len (universal_newlines (before ++ dumps o v ++ after)))
        ++ lit ")").
Proof.
  intros Hv Hb Ha Hc Hend Hfile.
  assert (Hc10 : c <> 10) by (intros ->; discriminate Hc).
  assert (Hc13 : c <> 13) by (intros ->; discriminate Hc).
  assert (Hend' : number_end (universal_newlines after
                              ++ c :: universal_newlines rest)).
  { destruct after as [|x after]; [exact Hend|].
    unfold universal_newlines. cbn [translate_newlines andb].
    rewrite andb_false_r.
    cbn [blank forallb] in Ha. apply andb_true_iff in Ha as [Hx _].
    destruct (Z.eqb_spec x 13) as [->|_].
    - cbn. repeat split; discriminate.
    - cbn [app number_end]. unfold is_ws in Hx. unfold is_digit.
      revert Hx. zb; intros; try discriminate; repeat split; try lia. }
  rewrite (universal_newlines_padded o v before after Hv).
  apply (translate_newlines_blank false) in Hb, Ha.
  fold (universal_newlines before) in Hb.
  fold (universal_newlines after) in Ha.
  rewrite (read_json_invalid filepath fs _
             (decode_error "Extra data"
                ((universal_newlines before ++ dumps o v
                  ++ universal_newlines after)
                 ++ c :: universal_newlines rest)
                (c :: universal_newlines rest)) Hfile).
  - rewrite decode_error_position. reflexivity.
  - rewrite (universal_newlines_padded o v before _ Hv).
    unfold universal_newlines at 2.
    rewrite (translate_newlines_head false after c rest Hc10 Hc13).
    fold (universal_newlines after). fold (universal_newlines rest).
    rewrite <- !app_assoc. unfold loads, decode.
    rewrite starts_with_bom_padded by assumption.
    rewrite scan_padded; try assumption.
    rewrite skip_ws_blank by exact Ha. cbn [skip_ws]. rewrite Hc.
    reflexivity.
Qed.

(** *** ASCII out, whatever came in *)

Lemma ascii_under_app (o : dump_opts) (a b : str) :
  ascii_under o (a ++ b) = ascii_under o a && ascii_under o b.
Proof. apply forallb_app. Qed.

Lemma ascii_under_printable (o : dump_opts) (s : str) :
  forallb printable s = true -> ascii_under o s = true.
Proof.
  unfold ascii_under. induction s as [|c s IH]; [reflexivity|].
  cbn [forallb]. intros H. apply andb_true_iff in H as [-> H].
  rewrite (IH H). reflexivity.
Qed.

Lemma hexdigit_printable (d : Z) :
  0 <= d < 16 -> printable (hexdigit d) = true.
Proof.
  intros Hd. unfold hexdigit, printable.
  destruct (Z.ltb_spec d 10); apply andb_true_iff; split; apply Z.leb_le;
    lia.
Qed.

Lemma escape_u_printable (n : Z) :
  0 <= n < 65536 -> forallb printable (escape_u n) = true.
Proof.
  intros Hn. unfold escape_u. cbn [forallb].
  rewrite !hexdigit_printable; [reflexivity| | | |].
  - apply Z.mod_pos_bound. lia.
  - apply Z.mod_pos_bound. lia.
  - apply Z.mod_pos_bound. lia.
  - split; [apply Z.div_pos; lia|apply Z.div_lt_upper_bound; lia].
Qed.

Lemma escape_dct_printable (c : Z) (e : str) :
  escape_dct c = Some e -> forallb printable e = true.
Proof.
  unfold escape_dct.
  repeat match goal with
         | |- context [?a =? ?b] => destruct (Z.eqb_spec a b)
         end; try (intros [= <-]; reflexivity).
  destruct (Z.leb_spec 0 c), (Z.ltb_spec c 32); cbn [andb];
    try discriminate.
  intros [= <-]. apply escape_u_printable. lia.
Qed.

Lemma encode_char_ascii_printable (c : Z) :
  code_point c = true -> forallb printable (encode_char_ascii c) = true.
Proof.
  unfold code_point. intros Hc. apply andb_true_iff in Hc as [H0 Hmax].
  apply Z.leb_le in H0. apply Z.leb_le in Hmax.
  unfold encode_char_ascii.
  destruct (escape_dct c) as [e|] eqn:He;
    [exact (escape_dct_printable c e He)|].
  destruct ((32 <=? c) && (c <=? 126)) eqn:Hp.
  - cbn [forallb]. unfold printable. rewrite Hp. reflexivity.
  - destruct (Z.ltb_spec c 65536) as [Hbmp|Hastral].
    + apply escape_u_printable. lia.
    + destruct (surrogate_pair c ltac:(lia)) as (Hs1 & Hs2 & _).
      cbv zeta in Hs1, Hs2. rewrite forallb_app.
      rewrite !escape_u_printable by lia. reflexivity.
Qed.

Lemma encode_str_printable (o : dump_opts) (s : str) :
  ensure_ascii o = true -> code_points s = true ->
  forallb printable (encode_str o s) = true.
Proof.
  intros Ho Hs. unfold encode_str. rewrite Ho. cbn [forallb].
  rewrite forallb_app. cbn [forallb]. rewrite andb_true_r.
  change (printable 34) with true. cbn [andb].
  induction s as [|c s IH]; [reflexivity|].
  cbn [code_points forallb] in Hs. apply andb_true_iff in Hs as [Hc Hs].
  cbn [flat_map]. rewrite forallb_app, (IH Hs).
  rewrite encode_char_ascii_printable by exact Hc. reflexivity.
Qed.

Lemma digits_printable (ds : str) :
  Forall (fun c => is_digit c = true) ds -> forallb printable ds = true.
Proof.
  intros H. induction H as [|c ds Hd _ IH]; [reflexivity|].
  cbn [forallb]. rewrite IH, andb_true_r.
  unfold is_digit in Hd. apply andb_true_iff in Hd as [H1 H2].
  apply Z.leb_le in H1. apply Z.leb_le in H2.
  unfold printable. apply andb_true_iff. split; apply Z.leb_le; lia.
Qed.

Lemma str_of_int_printable (n : Z) : forallb printable (str_of_int n) = true.
Proof.
  destruct (str_of_int_shape n) as (negative & ds & -> & [Hds _] & _).
  rewrite forallb_app, (digits_printable ds Hds).
  destruct negative; reflexivity.
Qed.

Lemma newline_indent_ascii (o : dump_opts) (level : nat) :
  ascii_under o (newline_indent o level) = true.
Proof.
  unfold ascii_under, newline_indent.
  destruct (indent o) as [k|]; [|reflexivity].
  cbn [forallb]. change (10 =? 10) with true. rewrite orb_true_r.
  cbn [andb]. induction (k * level)%nat as [|n IH]; [reflexivity|].
  cbn [repeat forallb]. rewrite IH. reflexivity.
Qed.

Lemma item_separator_ascii (o : dump_opts) :
  ascii_under o (item_separator o) = true.
Proof.
  apply ascii_under_printable. unfold item_separator.
  destruct (indent o); reflexivity.
Qed.

(** An encoder set to [ensure_ascii] writes ASCII only. *)
Lemma encode_ascii (o : dump_opts) (v : json) :
  ensure_ascii o = true ->
  forall level, plain v = true -> ascii_under o (encode o level v) = true.
Proof.
  intros Ho.
  induction v as [|b|n|f|s|items IH|items IH] using json_nested_ind;
    intros level Hv; cbn [plain] in Hv.
  - apply ascii_under_printable. reflexivity.
  - apply ascii_under_printable. destruct b; reflexivity.
  - apply ascii_under_printable. apply str_of_int_printable.
  - apply ascii_under_printable. destruct f; try reflexivity. exact Hv.
  - apply ascii_under_printable. apply encode_str_printable; assumption.
  - destruct items as [|x xs]; [apply ascii_under_printable; reflexivity|].
    rewrite encode_list_cons.
    change (91 :: ?l) with ([91] ++ l).
    rewrite !ascii_under_app, !newline_indent_ascii.
    rewrite (ascii_under_printable o [91] eq_refl).
    rewrite (ascii_under_printable o [93] eq_refl).
    cbn [forallb] in Hv. apply andb_true_iff in Hv as [Hx Hxs].
    inversion IH as [|? ? IHx IHxs]; subst.
    rewrite (IHx _ Hx). cbn [andb]. rewrite andb_true_r.
    clear IH IHx Hx. induction IHxs as [|y l Hy _ IHl]; [reflexivity|].
    cbn [forallb] in Hxs. apply andb_true_iff in Hxs as [Hy' Hl].
    cbn [encode_list_tail].
    rewrite !ascii_under_app, item_separator_ascii, newline_indent_ascii,
      (Hy _ Hy'), (IHl Hl). reflexivity.
  - destruct items as [|[k x] xs];
      [apply ascii_under_printable; reflexivity|].
    rewrite encode_dict_cons.
    change (123 :: ?l) with ([123] ++ l).
    rewrite !ascii_under_app, !newline_indent_ascii.
    rewrite (ascii_under_printable o [123] eq_refl).
    rewrite (ascii_under_printable o [125] eq_refl).
    rewrite (ascii_under_printable o key_separator eq_refl).
    cbn [forallb fst snd] in Hv. apply andb_true_iff in Hv as [Hkx Hxs].
    apply andb_true_iff in Hkx as [Hk Hx].
    inversion IH as [|? ? IHx IHxs]; subst. cbn [snd] in IHx.
    rewrite (IHx _ Hx).
    rewrite (ascii_under_printable o _ (encode_str_printable o k Ho Hk)).
    cbn [andb]. rewrite andb_true_r.
    clear IH IHx Hx Hk. induction IHxs as [|[k' y] l Hy _ IHl]; [reflexivity|].
    cbn [forallb fst snd] in Hxs. apply andb_true_iff in Hxs as [Hky Hl].
    apply andb_true_iff in Hky as [Hk' Hy'].
    cbn [encode_dict_tail]. cbn [snd] in Hy.
    rewrite !ascii_under_app, item_separator_ascii, newline_indent_ascii,
      (Hy _ Hy'), (IHl Hl).
    rewrite (ascii_under_printable o _ (encode_str_printable o k' Ho Hk')).
    rewrite (ascii_under_printable o key_separator eq_refl). reflexivity.
Qed.

(** What the decoder builds from a text of code points. *)
Lemma skip_ws_code_points (s : str) :
  code_points s = true -> code_points (skip_ws s) = true.
Proof.
  induction s as [|c s IH]; [reflexivity|]. intros H. cbn [skip_ws].
  destruct (is_ws c); [|exact H].
  rewrite code_points_cons in H. apply andb_true_iff in H as [_ H]. auto.
Qed.

Lemma span_digits_code (s : str) :
  code_points s = true ->
  forallb printable (fst (span_digits s)) = true
  /\ code_points (snd (span_digits s)) = true.
Proof.
  intros Hs. destruct (span_digits_spec s) as [Heq Hds].
  split; [apply digits_printable; exact Hds|].
  rewrite Heq, code_points_app in Hs.
  apply andb_true_iff in Hs as [_ Hs]. exact Hs.
Qed.

Lemma match_frac_code (s : str) :
  code_points s = true ->
  forallb printable (fst (match_frac s)) = true
  /\ code_points (snd (match_frac s)) = true.
Proof.
  intros Hs. unfold match_frac.
  destruct s as [|dot [|c s']]; try (split; [reflexivity|exact Hs]).
  destruct ((dot =? 46) && is_digit c) eqn:Hdot;
    [|split; [reflexivity|exact Hs]].
  apply andb_true_iff in Hdot as [Hdot _]. apply Z.eqb_eq in Hdot. subst dot.
  rewrite code_points_cons in Hs. apply andb_true_iff in Hs as [_ Hs].
  destruct (span_digits_code (c :: s') Hs) as [Hds Hrest].
  destruct (span_digits (c :: s')) as [ds rest]. cbn [fst snd] in *.
  cbn [forallb]. rewrite Hds. auto.
Qed.

Lemma match_exp_code (s : str) :
  code_points s = true ->
  forallb printable (fst (match_exp s)) = true
  /\ code_points (snd (match_exp s)) = true.
Proof.
  intros Hs. unfold match_exp.
  destruct s as [|e s1]; [split; [reflexivity|exact Hs]|].
  destruct ((e =? 101) || (e =? 69)) eqn:He;
    [|split; [reflexivity|exact Hs]].
  assert (Hpe : printable e = true).
  { apply orb_true_iff in He as [He|He]; apply Z.eqb_eq in He; subst e;
      reflexivity. }
  destruct s1 as [|c s2]; [split; [reflexivity|exact Hs]|].
  pose proof Hs as Hs1. rewrite code_points_cons in Hs1.
  apply andb_true_iff in Hs1 as [_ Hs1].
  destruct ((c =? 45) || (c =? 43)) eqn:Hc.
  - assert (Hpc : printable c = true).
    { apply orb_true_iff in Hc as [Hc|Hc]; apply Z.eqb_eq in Hc; subst c;
        reflexivity. }
    destruct s2 as [|c2 s3]; [split; [reflexivity|exact Hs]|].
    destruct (is_digit c2) eqn:Hd; [|split; [reflexivity|exact Hs]].
    pose proof Hs1 as Hs2. rewrite code_points_cons in Hs2.
    apply andb_true_iff in Hs2 as [_ Hs2].
    destruct (span_digits_code (c2 :: s3) Hs2) as [Hds Hrest].
    destruct (span_digits (c2 :: s3)) as [ds rest]. cbn [fst snd] in *.
    cbn [forallb]. rewrite Hpe, Hpc, Hds. auto.
  - destruct (is_digit c) eqn:Hd; [|split; [reflexivity|exact Hs]].
    destruct (span_digits_code (c :: s2) Hs1) as [Hds Hrest].
    destruct (span_digits (c :: s2)) as [ds rest]. cbn [fst snd] in *.
    cbn [forallb]. rewrite Hpe, Hds. auto.
Qed.

Lemma match_integer_code (s rest ds : str) (negative : bool) :
  match_integer s = Some (negative, ds, rest) ->
  code_points s = true ->
  forallb printable ds = true /\ code_points rest = true.
Proof.
  unfold match_integer.
  assert (Hbody : forall (s1 : str) (neg : bool),
             match s1 with
             | [] => None
             | c :: s2 =>
                 if c =? 48 then Some (neg, [c], s2)
                 else if is_digit c then
                   let '(ds0, rest0) := span_digits s1 in
                   Some (neg, ds0, rest0)
                 else None
             end = Some (negative, ds, rest) ->
             code_points s1 = true ->
             forallb printable ds = true /\ code_points rest = true).
  { intros [|c s2] neg H Hs1; [discriminate H|].
    destruct (Z.eqb_spec c 48) as [->|_].
    - injection H as _ <- <-. rewrite code_points_cons in Hs1.
      apply andb_true_iff in Hs1 as [_ Hs1]. auto.
    - destruct (is_digit c) eqn:Hc; [|discriminate H].
      destruct (span_digits_code (c :: s2) Hs1) as [Hds Hrest].
      destruct (span_digits (c :: s2)) as [ds0 rest0].
      injection H as _ <- <-. auto. }
  destruct s as [|c s']; [intros H; discriminate H|].
  destruct (c =? 45); intros H Hs.
  - rewrite code_points_cons in Hs. apply andb_true_iff in Hs as [_ Hs].
    exact (Hbody s' true H Hs).
  - exact (Hbody (c :: s') false H Hs).
Qed.

Lemma match_number_code (s rest : str) (v : json) :
  match_number s = Some (v, rest) -> code_points s = true ->
  plain v = true /\ code_points rest = true.
Proof.
  unfold match_number.
  destruct (match_integer s) as [[[negative ds] r0]|] eqn:Hint;
    [|intros H; discriminate H].
  intros H Hs.
  destruct (match_integer_code s r0 ds negative Hint Hs) as [Hds Hr0].
  destruct (match_frac_code r0 Hr0) as [Hfrac Hr1].
  destruct (match_frac r0) as [frac r1]. cbn [fst snd] in *.
  destruct (match_exp_code r1 Hr1) as [Hexp Hr2].
  destruct (match_exp r1) as [exp r2]. cbn [fst snd] in *.
  assert (Hnum : forallb printable
                   ((if negative then [45] else []) ++ ds ++ frac ++ exp)
                 = true).
  { rewrite !forallb_app, Hds, Hfrac, Hexp. destruct negative; reflexivity. }
  destruct frac as [|f0 frac]; [destruct exp as [|e0 exp]|];
    injection H as <- <-; auto.
Qed.

Lemma starts_with_code (p s rest : str) :
  starts_with p s = Some rest -> code_points s = true ->
  code_points rest = true.
Proof.
  revert s. induction p as [|a p IH]; intros s H Hs.
  - injection H as <-. exact Hs.
  - destruct s as [|b s]; [discriminate H|]. cbn [starts_with] in H.
    destruct (a =? b); [|discriminate H].
    rewrite code_points_cons in Hs. apply andb_true_iff in Hs as [_ Hs].
    eauto.
Qed.

Lemma scan_atom_code (s rest : str) (v : json) :
  scan_atom s = Scanned v rest -> code_points s = true ->
  plain v = true /\ code_points rest = true.
Proof.
  unfold scan_atom. intros H Hs.
  repeat match type of H with
         | context [starts_with ?p s] =>
             let E := fresh "E" in
             destruct (starts_with p s) eqn:E;
             [injection H as <- <-; split;
              [reflexivity|exact (starts_with_code _ _ _ E Hs)]|]
         | context [match_number s] =>
             let E := fresh "E" in
             destruct (match_number s) as [[? ?]|] eqn:E;
             [injection H as <- <-; exact (match_number_code _ _ _ E Hs)|]
         end.
  discriminate H.
Qed.

Lemma hexval_range (c d : Z) : hexval c = Some d -> 0 <= d < 16.
Proof.
  unfold hexval.
  destruct ((48 <=? c) && (c <=? 57)) eqn:H1.
  { intros [= <-]. apply andb_true_iff in H1 as [Ha Hb].
    apply Z.leb_le in Ha. apply Z.leb_le in Hb. lia. }
  destruct ((97 <=? c) && (c <=? 102)) eqn:H2.
  { intros [= <-]. apply andb_true_iff in H2 as [Ha Hb].
    apply Z.leb_le in Ha. apply Z.leb_le in Hb. lia. }
  destruct ((65 <=? c) && (c <=? 70)) eqn:H3; [|discriminate].
  intros [= <-]. apply andb_true_iff in H3 as [Ha Hb].
  apply Z.leb_le in Ha. apply Z.leb_le in Hb. lia.
Qed.

Lemma decode_uXXXX_range (a b c d n : Z) :
  decode_uXXXX a b c d = Some n -> 0 <= n < 65536.
Proof.
  unfold decode_uXXXX.
  destruct (hexval a) as [x|] eqn:Ha; [|discriminate].
  destruct (hexval b) as [y|] eqn:Hb; [|discriminate].
  destruct (hexval c) as [z|] eqn:Hc; [|discriminate].
  destruct (hexval d) as [w|] eqn:Hd; [|discriminate].
  intros [= <-].
  apply hexval_range in Ha. apply hexval_range in Hb.
  apply hexval_range in Hc. apply hexval_range in Hd. lia.
Qed.

Lemma backslash_code_point (esc ch : Z) :
  backslash esc = Some ch -> code_point ch = true.
Proof.
  unfold backslash.
  repeat match goal with
         | |- context [?a =? ?b] => destruct (a =? b)
         end; intros [= <-]; reflexivity.
Qed.

Lemma combined_code_point (uni uni2 : Z) :
  (55296 <=? uni) && (uni <=? 56319) = true ->
  (56320 <=? uni2) && (uni2 <=? 57343) = true ->
  code_point (65536 + Z.lor (Z.shiftl (uni - 55296) 10) (uni2 - 56320))
  = true.
Proof.
  intros H1 H2.
  apply andb_true_iff in H1 as [Ha Hb]. apply Z.leb_le in Ha, Hb.
  apply andb_true_iff in H2 as [Hc Hd]. apply Z.leb_le in Hc, Hd.
  rewrite Z.shiftl_mul_pow2 by lia.
  rewrite lor_shifted; [|lia|change (2 ^ 10) with 1024; lia].
  change (2 ^ 10) with 1024. apply code_point_range. lia.
Qed.

Lemma code_points_rev (s : str) :
  code_points s = true -> code_points (rev s) = true.
Proof.
  intros H. induction s as [|c s IH]; [reflexivity|].
  rewrite code_points_cons in H. apply andb_true_iff in H as [Hc Hs].
  cbn [rev]. rewrite code_points_app, (IH Hs). cbn. rewrite Hc. reflexivity.
Qed.

Ltac tails :=
  repeat match goal with
         | H : code_points (_ :: ?s) = true |- _ =>
             lazymatch goal with
             | _ : code_points s = true |- _ => fail
             | _ => pose proof (code_points_tail _ _ H)
             end
         end.

Ltac scanstring_step IH :=
  first
    [ discriminate
    | match goal with
      | H : scanstring ?b ?a ?s' = Scanned _ _ |- _ =>
          apply (IH s' ltac:(cbn [length] in *; lia) b a) in H;
          [exact H|first [reflexivity|tails; assumption]|
           rewrite code_points_cons; apply andb_true_iff; split;
           assumption]
      end ].

Lemma scanstring_code (n : nat) :
  forall (s : str), (length s <= n)%nat ->
  forall (begin acc t rest : str),
    scanstring begin acc s = Scanned t rest ->
    code_points s = true -> code_points acc = true ->
    code_points t = true /\ code_points rest = true.
Proof.
  induction n as [|n IH]; intros s Hn begin acc t rest H Hs Hacc.
  - destruct s; [discriminate H|cbn [length] in Hn; lia].
  - destruct s as [|c s1]; [discriminate H|].
    cbn [scanstring] in H.
    pose proof Hs as Hc. rewrite code_points_cons in Hc.
    apply andb_true_iff in Hc as [Hc Hs1].
    destruct (c =? 34).
    { injection H as <- <-. split; [apply code_points_rev; exact Hacc|].
      exact Hs1. }
    destruct ((0 <=? c) && (c <? 32)); [discriminate H|].
    destruct (c =? 92); [|scanstring_step IH].
    destruct s1 as [|esc s2]; [discriminate H|].
    destruct (esc =? 117).
    + destruct s2 as [|h1 [|h2 [|h3 [|h4 s3]]]]; try discriminate H.
      destruct (decode_uXXXX h1 h2 h3 h4) as [uni|] eqn:Huni;
        [|discriminate H].
      pose proof (decode_uXXXX_range _ _ _ _ _ Huni) as Hrange.
      assert (Hcp : code_point uni = true)
        by (apply code_point_range; lia).
      destruct ((55296 <=? uni) && (uni <=? 56319)) eqn:Hhigh;
        [|scanstring_step IH].
      destruct s3 as [|b0 [|u s4]]; try scanstring_step IH.
      destruct ((b0 =? 92) && (u =? 117)); [|scanstring_step IH].
      destruct s4 as [|l1 [|l2 [|l3 [|l4 s5]]]]; try discriminate H.
      destruct (decode_uXXXX l1 l2 l3 l4) as [uni2|] eqn:Huni2;
        [|discriminate H].
      destruct ((56320 <=? uni2) && (uni2 <=? 57343)) eqn:Hlow;
        [|scanstring_step IH].
      pose proof (combined_code_point uni uni2 Hhigh Hlow).
      scanstring_step IH.
    + destruct (backslash esc) as [ch|] eqn:Hesc; [|discriminate H].
      pose proof (backslash_code_point esc ch Hesc).
      scanstring_step IH.
Qed.

(** The items of a dict: keys of code points, plain values. *)
Lemma dict_set_plain (d : list (str * json)) (k : str) (v : json) :
  plain (JDict d) = true -> code_points k = true -> plain v = true ->
  plain (JDict (dict_set d k v)) = true.
Proof.
  cbn [plain]. intros Hd Hk Hv. induction d as [|[k' v'] d IH].
  - cbn [dict_set forallb fst snd]. rewrite Hk, Hv. reflexivity.
  - cbn [forallb fst snd] in Hd. apply andb_true_iff in Hd as [Hkv Hd].
    apply andb_true_iff in Hkv as [Hk' Hv'].
    cbn [dict_set]. destruct (str_eqb k k'); cbn [forallb fst snd].
    + rewrite Hk', Hv, Hd. reflexivity.
    + rewrite Hk', Hv', (IH Hd). reflexivity.
Qed.

Lemma dict_of_pairs_plain (pairs : list (str * json)) :
  plain (JDict pairs) = true -> plain (JDict (dict_of_pairs pairs)) = true.
Proof.
  unfold dict_of_pairs.
  assert (Hgen : forall d, plain (JDict d) = true ->
             plain (JDict pairs) = true ->
             plain (JDict (fold_left
                             (fun d kv => dict_set d (fst kv) (snd kv))
                             pairs d)) = true).
  { induction pairs as [|[k v] pairs IH]; intros d Hd Hp; [exact Hd|].
    cbn [plain forallb fst snd] in Hp. apply andb_true_iff in Hp as [Hkv Hp].
    apply andb_true_iff in Hkv as [Hk Hv].
    cbn [fold_left fst snd]. apply IH; [|exact Hp].
    apply dict_set_plain; assumption. }
  intros Hp. apply Hgen; [reflexivity|exact Hp].
Qed.

Lemma plain_items_rev (items : list (str * json)) :
  plain (JDict items) = true -> plain (JDict (rev items)) = true.
Proof.
  cbn [plain]. intros H. induction items as [|kv items IH]; [reflexivity|].
  cbn [forallb] in H. apply andb_true_iff in H as [Hkv H].
  cbn [rev]. rewrite forallb_app, (IH H). cbn [forallb]. rewrite Hkv.
  reflexivity.
Qed.

Lemma plain_list_rev (items : list json) :
  plain (JList items) = true -> plain (JList (rev items)) = true.
Proof.
  cbn [plain]. intros H. induction items as [|x items IH]; [reflexivity|].
  cbn [forallb] in H. apply andb_true_iff in H as [Hx H].
  cbn [rev]. rewrite forallb_app, (IH H). cbn [forallb]. rewrite Hx.
  reflexivity.
Qed.

Lemma skip_ws_cons_code (s rest : str) (c : Z) :
  skip_ws s = c :: rest -> code_points s = true -> code_points rest = true.
Proof.
  intros H Hs. apply skip_ws_code_points in Hs. rewrite H in Hs.
  exact (code_points_tail _ _ Hs).
Qed.

Lemma scanner_plain (fuel : nat) :
  (forall s v rest,
      scan_once fuel s = Scanned v rest -> code_points s = true ->
      plain v = true /\ code_points rest = true)
  /\ (forall acc s v rest,
        array_items fuel acc s = Scanned v rest -> code_points s = true ->
        plain (JList acc) = true ->
        plain v = true /\ code_points rest = true)
  /\ (forall acc s v rest,
        object_items fuel acc s = Scanned v rest -> code_points s = true ->
        plain (JDict acc) = true ->
        plain v = true /\ code_points rest = true).
Proof.
  induction fuel as [|fuel (IHscan & IHarray & IHobject)];
    [repeat split; intros; discriminate|].
  split; [|split].
  - intros s v rest H Hs. destruct s as [|c s1]; [discriminate H|].
    cbn [scan_once] in H. pose proof (code_points_tail _ _ Hs) as Hs1.
    destruct (c =? 34).
    { destruct (scanstring (c :: s1) [] s1) as [t rest0|m a] eqn:Hstr;
        [|discriminate H].
      injection H as <- <-.
      exact (scanstring_code _ s1 (le_n _) _ _ _ _ Hstr Hs1 eq_refl). }
    destruct (c =? 123).
    { destruct (skip_ws s1) as [|c2 rest0] eqn:Hskip.
      - eapply IHobject; [exact H|reflexivity|reflexivity].
      - pose proof (skip_ws_code_points s1 Hs1) as Hc2. rewrite Hskip in Hc2.
        destruct (c2 =? 125).
        + injection H as <- <-. split; [reflexivity|].
          exact (code_points_tail _ _ Hc2).
        + eapply IHobject; [exact H|exact Hc2|reflexivity]. }
    destruct (c =? 91).
    { destruct (skip_ws s1) as [|c2 rest0] eqn:Hskip.
      - eapply IHarray; [exact H|reflexivity|reflexivity].
      - pose proof (skip_ws_code_points s1 Hs1) as Hc2. rewrite Hskip in Hc2.
        destruct (c2 =? 93).
        + injection H as <- <-. split; [reflexivity|].
          exact (code_points_tail _ _ Hc2).
        + eapply IHarray; [exact H|exact Hc2|reflexivity]. }
    exact (scan_atom_code _ _ _ H Hs).
  - intros acc s v rest H Hs Hacc. cbn [array_items] in H.
    destruct (scan_once fuel s) as [x rest0|m a] eqn:Hvalue;
      [|discriminate H].
    destruct (IHscan _ _ _ Hvalue Hs) as [Hx Hrest0].
    destruct (skip_ws rest0) as [|c rest'] eqn:Hskip; [discriminate H|].
    pose proof (skip_ws_cons_code _ _ _ Hskip Hrest0) as Hrest'.
    assert (Hacc' : plain (JList (x :: acc)) = true).
    { cbn [plain forallb]. cbn [plain] in Hacc. rewrite Hx, Hacc.
      reflexivity. }
    destruct (c =? 93).
    { injection H as <- <-. split; [|exact Hrest'].
      exact (plain_list_rev (x :: acc) Hacc'). }
    destruct (c =? 44); [|discriminate H].
    eapply IHarray; [exact H| |exact Hacc'].
    apply skip_ws_code_points. exact Hrest'.
  - intros acc s v rest H Hs Hacc. cbn [object_items] in H.
    destruct s as [|q s1]; [discriminate H|].
    pose proof (code_points_tail _ _ Hs) as Hs1.
    destruct (q =? 34); [|discriminate H].
    destruct (scanstring (q :: s1) [] s1) as [key rest0|m a] eqn:Hstr;
      [|discriminate H].
    destruct (scanstring_code _ s1 (le_n _) _ _ _ _ Hstr Hs1 eq_refl)
      as [Hkey Hrest0].
    destruct (skip_ws rest0) as [|c rest1] eqn:Hskip; [discriminate H|].
    pose proof (skip_ws_cons_code _ _ _ Hskip Hrest0) as Hrest1.
    destruct (c =? 58); [|discriminate H].
    destruct (scan_once fuel (skip_ws rest1)) as [x rest2|m a] eqn:Hvalue;
      [|discriminate H].
    destruct (IHscan _ _ _ Hvalue (skip_ws_code_points _ Hrest1))
      as [Hx Hrest2].
    destruct (skip_ws rest2) as [|c' rest3] eqn:Hskip2; [discriminate H|].
    pose proof (skip_ws_cons_code _ _ _ Hskip2 Hrest2) as Hrest3.
    assert (Hacc' : plain (JDict ((key, x) :: acc)) = true).
    { cbn [plain forallb fst snd]. cbn [plain] in Hacc.
      rewrite Hkey, Hx, Hacc. reflexivity. }
    destruct (c' =? 125).
    { injection H as <- <-. split; [|exact Hrest3].
      exact (dict_of_pairs_plain _ (plain_items_rev ((key, x) :: acc) Hacc')). }
    destruct (c' =? 44); [|discriminate H].
    eapply IHobject; [exact H| |exact Hacc'].
    apply skip_ws_code_points. exact Hrest3.
Qed.

(** [json.loads] on a text of code points builds a plain value. *)
Lemma loads_plain (s : str) (v : json) :
  code_points s = true -> loads s = Ok v -> plain v = true.
Proof.
  unfold loads, decode. intros Hs H.
  destruct (starts_with_bom s); [discriminate H|].
  destruct (scan_once _ _) as [x rest|m a] eqn:Hscan; [|discriminate H].
  destruct (skip_ws rest); [|discriminate H]. injection H as <-.
  exact (proj1 (proj1 (scanner_plain _) _ _ _ Hscan
                  (skip_ws_code_points s Hs))).
Qed.

(** X11. Whatever the file holds, once its text (as read, with its
    line ends translated) parses, [read_json] returns ASCII: printable
    characters and newlines only.  [json.dumps] is
    called with its default [ensure_ascii], so every other character
    of the document comes back as a [\u] escape, although [write_json]
    had written it as it is. *)
Theorem read_json_returns_ascii (filepath : str) (fs : filesystem)
    (text : str) (v : json) :
  entries fs !! filepath = Some (TextFile text) ->
  code_points text = true -> loads (universal_newlines text) = Ok v ->
  exists out,
    read_json filepath fs = Ok out
    /\ forallb (fun c => printable c || (c =? 10)) out = true.
Proof.
  intros Hfile Htext Hloads. exists (dumps pretty_ascii v).
  split; [exact (read_json_valid filepath fs text v Hfile Hloads)|].
  apply (translate_newlines_code_points false) in Htext.
  exact (encode_ascii pretty_ascii v eq_refl 0
           (loads_plain _ v Htext Hloads)).
Qed.

Lemma read_json_rejects_byte_order_mark_witness :
  read_json (lit "bom.json")
    (FileSystem {[ lit "bom.json" := TextFile (65279 :: qlit "{'a': 1}") ]}
                (fun _ => false))
  = Ok (lit "Error: Invalid JSON in file - Unexpected UTF-8 BOM "
        ++ lit "(decode using utf-8-sig): line 1 column 1 (char 0)").
Proof.
  apply (read_json_rejects_byte_order_mark (lit "bom.json") _
           (qlit "{'a': 1}")).
  vm_compute. reflexivity.
Defined.

Lemma read_json_blank_file_witness :
  read_json (lit "empty.json")
    (FileSystem {[ lit "empty.json" := TextFile [32; 13; 10; 32] ]}
                (fun _ => false))
  = Ok (lit "Error: Invalid JSON in file - "
        ++ lit "Expecting value: line 2 column 2 (char 3)").
Proof.
  apply (read_json_blank_file (lit "empty.json") _ [32; 13; 10; 32]).
  - reflexivity.
  - vm_compute. reflexivity.
Defined.


Lemma read_json_rejects_trailing_data_witness :
  read_json (lit "log.json")
    (FileSystem
       {[ lit "log.json"
          := TextFile (qlit "{'a': 1}" ++ [13; 10] ++ qlit "{'a': 2}") ]}
       (fun _ => false))
  = Ok (lit "Error: Invalid JSON in file - "
        ++ lit "Extra data: line 2 column 1 (char 9)").
Proof.
  apply (read_json_rejects_trailing_data (lit "log.json") _ compact
           (JDict [(lit "a", JInt 1)]) [] [13; 10] 123 (qlit "'a': 2}")).
  - constructor.
    + vm_compute. apply NoDup_singleton.
    + repeat constructor; vm_compute; intuition discriminate.
  - reflexivity.
  - reflexivity.
  - reflexivity.
  - cbn. repeat split; (reflexivity || discriminate).
  - vm_compute. reflexivity.
Defined.

Lemma read_json_returns_ascii_witness :
  exists out,
    read_json (lit "name.json")
      (FileSystem {[ lit "name.json" := TextFile (qlit "['Zo" ++ [235]
                                                  ++ qlit "']") ]}
                  (fun _ => false))
    = Ok out
    /\ out = [91; 10] ++ qlit "  'Zo" ++ lit "\u00eb" ++ qlit "'" ++ [10; 93]
    /\ forallb (fun c => printable c || (c =? 10)) out = true.
Proof.
  destruct (read_json_returns_ascii (lit "name.json")
              (FileSystem {[ lit "name.json"
                             := TextFile (qlit "['Zo" ++ [235] ++ qlit "']") ]}
                          (fun _ => false))
              (qlit "['Zo" ++ [235] ++ qlit "']")
              (JList [JStr (lit "Zo" ++ [235])]))
    as (out & Hread & Hascii).
  - vm_compute. reflexivity.
  - reflexivity.
  - vm_compute. reflexivity.
  - exists out. split; [exact Hread|]. split; [|exact Hascii].
    assert (Hout : Ok out = Ok ([91; 10] ++ qlit "  'Zo" ++ lit "\u00eb"
                                ++ qlit "'" ++ [10; 93])).
    { rewrite <- Hread. vm_compute. reflexivity. }
    injection Hout as ->. reflexivity.
Defined.

(** ** The handler: what it records, what it sends *)

(** *** [str.strip] *)

Lemma lstrip_head (s : str) :
  match lstrip s with
  | c :: _ => isspace c = false
  | [] => True
  end.
Proof.
  induction s as [|c s IH]; [exact I|]. cbn [lstrip].
  destruct (isspace c) eqn:Hc; [exact IH|exact Hc].
Qed.

Lemma lstrip_fixed (s : str) :
  match s with c :: _ => isspace c = false | [] => True end ->
  lstrip s = s.
Proof. destruct s as [|c s]; [reflexivity|]. cbn. intros ->. reflexivity. Qed.

Lemma lstrip_idempotent (s : str) : lstrip (lstrip s) = lstrip s.
Proof. apply lstrip_fixed, lstrip_head. Qed.

Lemma rstrip_idempotent (s : str) : rstrip (rstrip s) = rstrip s.
Proof.
  unfold rstrip. rewrite rev_involutive, lstrip_idempotent. reflexivity.
Qed.

(** [lstrip] removes a prefix. *)
Lemma lstrip_suffix (s : str) : exists spaces, s = spaces ++ lstrip s.
Proof.
  induction s as [|c s [spaces IH]]; [exists []; reflexivity|].
  cbn [lstrip]. destruct (isspace c).
  - exists (c :: spaces). cbn. f_equal. exact IH.
  - exists []. reflexivity.
Qed.

(** [rstrip] keeps the first character when it is not white space. *)
Lemma rstrip_head (c : Z) (s : str) :
  isspace c = false -> exists s', rstrip (c :: s) = c :: s'.
Proof.
  intros Hc. unfold rstrip. cbn [rev].
  assert (Hne : forall l, lstrip (l ++ [c]) <> []).
  { intros l. induction l as [|d l IH]; cbn [app lstrip].
    - rewrite Hc. discriminate.
    - destruct (isspace d); [exact IH|discriminate]. }
  specialize (Hne (rev s)).
  destruct (lstrip_suffix (rev s ++ [c])) as [spaces Heq].
  apply (f_equal (@rev Z)) in Heq. rewrite !rev_app_distr in Heq.
  cbn [rev app] in Heq.
  destruct (rev (lstrip (rev s ++ [c]))) as [|d l] eqn:Hl.
  - exfalso. apply Hne. apply (f_equal (@rev Z)) in Hl.
    rewrite rev_involutive in Hl. exact Hl.
  - cbn [app] in Heq. injection Heq as <- _. eauto.
Qed.

(** What [strip] returns has no white space at either end: stripping it
    again changes nothing. *)
Lemma strip_idempotent (s : str) : strip (strip s) = strip s.
Proof.
  unfold strip.
  assert (Hl : lstrip (rstrip (lstrip s)) = rstrip (lstrip s)).
  { pose proof (lstrip_head s) as Hhead.
    destruct (lstrip s) as [|c l]; [reflexivity|].
    destruct (rstrip_head c l Hhead) as [s' ->].
    apply lstrip_fixed. exact Hhead. }
  rewrite Hl. apply rstrip_idempotent.
Qed.

Lemma get_text_stripped (v : json) (user_text : str) :
  get_text v = Ok user_text -> strip user_text = user_text.
Proof.
  unfold get_text. intros H. destruct v as [| | | | | |d]; try discriminate H.
  destruct (default (JStr []) (dict_get d (lit "text")));
    try discriminate H.
  injection H as <-. apply strip_idempotent.
Qed.

(** *** One connection among others *)

(** The cases of one resumption: where the coroutine stands, and the
    event. *)
Ltac step_cases Hstep Ht :=
  unfold handler in Hstep;
  match type of Hstep with
  | context [tasks ?st !! ?ws] =>
      destruct (tasks st !! ws) as [[[] ?]|] eqn:Ht;
      cbn [at_ history] in Hstep;
      try match type of Hstep with
          | context [match ?ev with Accepted => _ | _ => _ end] => destruct ev
          end;
      try discriminate Hstep; injection Hstep as <-
  end.

(** The state after the step, in each of its cases. *)
Ltac step_unfold :=
  unfold on_message, except;
  repeat match goal with
         | |- context [match rbind ?a ?b with _ => _ end] =>
             destruct (rbind a b) as [[|? ?]|?]
         | |- context [match ?agent ?m with Ok _ => _ | Raise _ => _ end] =>
             destruct (agent m) as [?|?]
         | |- context [if is_Exception ?e then _ else _] =>
             destruct (is_Exception e)
         end;
  unfold on_accept, send, proceed, finally, extend, log;
  cbn [heap CONNECTIONS tasks trace at_ history].

(** One resumption of the handler of [ws] leaves the other connections
    and the other list objects as they were. *)
Lemma handler_frame (st st' : state) (ws : nat) (ev : event) :
  handler ws ev st = Some st' ->
  (forall ws', ws' <> ws ->
     tasks st' !! ws' = tasks st !! ws'
     /\ CONNECTIONS st' !! ws' = CONNECTIONS st !! ws'
     /\ sent ws' (trace st') = sent ws' (trace st)
     /\ invocations ws' (trace st') = invocations ws' (trace st))
  /\ (forall a, is_Some (heap st !! a) ->
        (forall t, tasks st !! ws = Some t -> history t <> a) ->
        heap st' !! a = heap st !! a)
  /\ (forall a, is_Some (heap st !! a) -> is_Some (heap st' !! a))
  /\ (forall t', tasks st' !! ws = Some t' ->
        match tasks st !! ws with
        | Some t => history t' = history t
        | None =>
            heap st !! history t' = None /\ heap st' !! history t' = Some []
        end).
Proof.
  intros Hstep. step_cases Hstep Ht.
  all: step_unfold.
  all: (split; [intros ws' Hne; rewrite ?lookup_insert_ne,
                  ?lookup_delete_ne by congruence; trace_simpl; auto|]).
  all: (split; [intros addr Hsome Hown; try reflexivity|]).
  all: try (split; [intros addr Hsome; try exact Hsome|]).
  all: try (intros t'; rewrite ?lookup_insert_eq, ?Ht; intros [= <-];
            cbn [history]; rewrite ?lookup_insert_eq; auto).
  - apply lookup_insert_ne. apply (Hown _ eq_refl).
  - destruct (decide (history0 = addr)) as [->|Hne];
      [rewrite lookup_insert_eq; eauto|rewrite lookup_insert_ne; auto].
  - apply lookup_insert_ne. intros <-.
    apply elem_of_dom in Hsome. exact (is_fresh _ Hsome).
  - destruct (decide (fresh (dom (heap st)) = addr)) as [->|Hne];
      [rewrite lookup_insert_eq; eauto|rewrite lookup_insert_ne; auto].
  - split; [|reflexivity]. apply not_elem_of_dom, is_fresh.
Qed.

Lemma histories_apart_initial : histories_apart initial.
Proof.
  split; intros *; unfold initial; cbn [tasks]; rewrite lookup_empty;
    discriminate.
Qed.

Lemma histories_apart_handler (st st' : state) (ws : nat) (ev : event) :
  handler ws ev st = Some st' -> histories_apart st -> histories_apart st'.
Proof.
  intros Hstep [Halloc Hdist].
  destruct (handler_frame st st' ws ev Hstep) as (Hother & _ & Hkeep & Hown).
  assert (Hmine : forall t', tasks st' !! ws = Some t' ->
             is_Some (heap st' !! history t')
             /\ forall ws1 t1, ws1 <> ws -> tasks st !! ws1 = Some t1 ->
                  history t1 <> history t').
  { intros t' Ht'. specialize (Hown t' Ht').
    destruct (tasks st !! ws) as [t|] eqn:Ht.
    - rewrite Hown. split; [apply Hkeep; eauto|].
      intros ws1 t1 Hne Ht1 Heq. apply Hne. exact (Hdist _ _ _ _ Ht1 Ht Heq).
    - destruct Hown as [Hnone Hnew]. split; [rewrite Hnew; eauto|].
      intros ws1 t1 Hne Ht1 Heq. specialize (Halloc _ _ Ht1).
      rewrite Heq, Hnone in Halloc. destruct Halloc as [x Hx]. discriminate. }
  split.
  - intros ws1 t1 Ht1. destruct (decide (ws1 = ws)) as [->|Hne].
    + apply Hmine. exact Ht1.
    + destruct (Hother ws1 Hne) as (Htask & _). rewrite Htask in Ht1.
      apply Hkeep. eauto.
  - intros ws1 ws2 t1 t2 Ht1 Ht2 Heq.
    destruct (decide (ws1 = ws)) as [->|Hne1],
             (decide (ws2 = ws)) as [->|Hne2]; try reflexivity.
    + exfalso. destruct (Hother ws2 Hne2) as (Htask & _).
      rewrite Htask in Ht2.
      destruct (Hmine t1 Ht1) as [_ Hfresh].
      exact (Hfresh ws2 t2 Hne2 Ht2 (eq_sym Heq)).
    + exfalso. destruct (Hother ws1 Hne1) as (Htask & _).
      rewrite Htask in Ht1.
      destruct (Hmine t2 Ht2) as [_ Hfresh].
      exact (Hfresh ws1 t1 Hne1 Ht1 Heq).
    + destruct (Hother ws1 Hne1) as (Htask1 & _).
      destruct (Hother ws2 Hne2) as (Htask2 & _).
      rewrite Htask1 in Ht1. rewrite Htask2 in Ht2. eauto.
Qed.

Lemma histories_apart_run (schedule : list (nat * event)) (st st' : state) :
  run schedule st = Some st' -> histories_apart st -> histories_apart st'.
Proof.
  revert st. induction schedule as [|[ws ev] schedule IH]; intros st Hrun Hok.
  - injection Hrun as <-. exact Hok.
  - simpl in Hrun. destruct (handler ws ev st) as [st1|] eqn:Hstep;
      [|discriminate Hrun].
    apply (IH st1 Hrun). eapply histories_apart_handler; eauto.
Qed.

Lemma reachable_histories_apart (st : state) :
  reachable st -> histories_apart st.
Proof.
  intros [schedule Hrun].
  exact (histories_apart_run schedule initial st Hrun histories_apart_initial).
Qed.

(** What is registered for a websocket is the list of its handler. *)
Lemma registered_history (st : state) (ws a : nat) :
  reachable st -> CONNECTIONS st !! ws = Some a ->
  exists t, tasks st !! ws = Some t /\ history t = a.
Proof.
  intros Hreach Ha.
  destruct (reachable_conn_ok st ws Hreach) as [E _ _ _ _ _].
  rewrite Ha in E. unfold is_open in E.
  destruct (tasks st !! ws) as [t|]; [|discriminate E].
  destruct (running (at_ t)); [|discriminate E].
  injection E as ->. eauto.
Qed.

(** One resumption of the handler of [ws] leaves every other
    connection as it was. *)
Lemma handler_leaves_others (st st' : state) (ws ws' : nat)
    (ev : event) :
  reachable st -> handler ws ev st = Some st' -> ws' <> ws ->
  tasks st' !! ws' = tasks st !! ws'
  /\ CONNECTIONS st' !! ws' = CONNECTIONS st !! ws'
  /\ history_of st' ws' = history_of st ws'
  /\ sent ws' (trace st') = sent ws' (trace st)
  /\ invocations ws' (trace st') = invocations ws' (trace st).
Proof.
  intros Hreach Hstep Hne.
  destruct (handler_frame st st' ws ev Hstep) as (Hother & Hheap & _ & _).
  destruct (Hother ws' Hne) as (Htask & Hconn & Hsent & Hinv).
  repeat split; try assumption.
  unfold history_of. rewrite Hconn.
  destruct (CONNECTIONS st !! ws') as [a|] eqn:Ha; [|reflexivity]. cbn.
  destruct (registered_history st ws' a Hreach Ha) as (t' & Ht' & <-).
  destruct (reachable_histories_apart st Hreach) as [Halloc Hdist].
  apply Hheap; [eauto|].
  intros t Ht Heq. apply Hne. symmetry. exact (Hdist _ _ _ _ Ht Ht' Heq).
Qed.

(** *** The shape of a history *)

(** The first field tells an [agent] envelope from the other two. *)
Lemma is_agent_frame_spec (text : str) (e : exn) :
  is_agent_frame (agent_frame text) = true
  /\ is_agent_frame (error_frame e) = false
  /\ is_agent_frame system_frame = false.
Proof. repeat split. Qed.

Lemma recorded_app (turns turns' : list (str * BaseMessage)) :
  recorded (turns ++ turns') = recorded turns ++ recorded turns'.
Proof. apply flat_map_app. Qed.

Lemma text_trimmed (msg : str) (c : Z) (user_text : str) :
  rbind (loads msg) get_text = Ok (c :: user_text) ->
  trimmed (c :: user_text).
Proof.
  intros H. split; [discriminate|].
  destruct (loads msg) as [v|e]; [|discriminate H].
  exact (get_text_stripped v _ H).
Qed.

(** A call made when the history held [turns]. *)
Lemma shown_now (turns : list (str * BaseMessage)) (user_text : str) :
  trimmed user_text ->
  shown turns (recorded turns ++ [HumanMessage (user_text ++ no_think)]).
Proof.
  intros Hu. exists (length turns), user_text.
  split; [lia|]. split; [|exact Hu].
  rewrite firstn_all. reflexivity.
Qed.

(** The calls made so far stay what they were when exchanges are
    appended. *)
Lemma shown_later (turns more : list (str * BaseMessage))
    (messages : list BaseMessage) :
  shown turns messages -> shown (turns ++ more) messages.
Proof.
  intros (k & u & Hk & -> & Hu). exists k, u.
  split; [rewrite length_app; lia|]. split; [|exact Hu].
  rewrite take_app_le by exact Hk. reflexivity.
Qed.

Lemma history_ok_other (st st' : state) (ws ws' : nat) (ev : event) :
  handler ws ev st = Some st' -> ws' <> ws -> histories_apart st ->
  history_ok st ws' -> history_ok st' ws'.
Proof.
  intros Hstep Hne [Halloc Hdist]. unfold history_ok.
  destruct (handler_frame st st' ws ev Hstep) as (Hother & Hheap & _ & _).
  destruct (Hother ws' Hne) as (Htask & _ & Hsent & Hinv).
  rewrite Htask, Hsent, Hinv.
  destruct (tasks st !! ws') as [t'|] eqn:Ht'; [|auto].
  intros (turns & Hh & Hrest). exists turns. split; [|exact Hrest].
  rewrite <- Hh. apply Hheap; [eauto|].
  intros t Ht Heq. apply Hne. symmetry. exact (Hdist _ _ _ _ Ht Ht' Heq).
Qed.

(** A step that neither extends the history nor sends an [agent]
    envelope; it may have called the agent. *)
Lemma history_ok_quiet (st st' : state) (ws : nat) (t : task) (p : pc)
    (frames : list str) (calls : list (list BaseMessage)) :
  tasks st !! ws = Some t ->
  tasks st' !! ws = Some (Task p (history t)) ->
  heap st' = heap st ->
  sent ws (trace st') = sent ws (trace st) ++ frames ->
  List.filter is_agent_frame frames = [] ->
  invocations ws (trace st') = invocations ws (trace st) ++ calls ->
  (forall turns, heap st !! history t = Some (recorded turns) ->
     Forall (shown turns) calls) ->
  history_ok st ws -> history_ok st' ws.
Proof.
  intros Ht Ht' Hheap Hsent Hframes Hinv Hcalls. unfold history_ok.
  rewrite Ht, Ht'. cbn [history].
  intros (turns & Hh & Hall & Hfilter & Hshown & Hlen).
  exists turns.
  rewrite Hheap, Hsent, Hinv, List.filter_app, Hframes, app_nil_r.
  repeat split; try assumption.
  - apply Forall_app. split; [exact Hshown|exact (Hcalls turns Hh)].
  - rewrite length_app. lia.
Qed.

(** The premises of [history_ok_quiet] for a step that sends [frames]
    and makes [calls]; the one about the calls is left when there are
    some. *)
Ltac quiet st ws Ht frames calls :=
  match type of Ht with
  | _ = Some ?t =>
      eapply (history_ok_quiet st _ ws t _ frames calls Ht);
      unfold send, proceed, finally, log;
      cbn [heap CONNECTIONS tasks trace at_ history];
      [apply lookup_insert_eq | reflexivity
      | trace_simpl; rewrite ?app_nil_r; reflexivity
      | reflexivity
      | trace_simpl; rewrite ?app_nil_r; reflexivity
      | try (intros; exact (List.Forall_nil _))
      | assumption ]
  end.

Lemma history_ok_own (st st' : state) (ws : nat) (ev : event) :
  handler ws ev st = Some st' -> histories_apart st -> conn_ok st ws ->
  history_ok st ws -> history_ok st' ws.
Proof.
  intros Hstep [Halloc _] [_ _ _ _ _ Hsent] Hok.
  step_cases Hstep Ht; rewrite ?Ht in Hsent.
  - quiet st ws Ht (@nil str) (@nil (list BaseMessage)).
  - quiet st ws Ht (@nil str) (@nil (list BaseMessage)).
  - unfold on_message, except.
    destruct (rbind (loads msg) get_text) as [[|c user_text]|e] eqn:Htext;
      [exact Hok| |].
    + pose proof (text_trimmed msg c user_text Htext) as Htrim.
      cbn [history].
      set (messages := default [] (heap st !! history0)
                       ++ [HumanMessage ((c :: user_text) ++ no_think)]).
      assert (Hcall : forall turns,
                 heap st !! history0 = Some (recorded turns) ->
                 Forall (shown turns) [messages]).
      { intros turns Hh. unfold messages. rewrite Hh.
        constructor; [apply shown_now; exact Htrim|constructor]. }
      destruct (agent messages) as [ai_msg|e]; [|destruct (is_Exception e)].
      * unfold history_ok in Hok. rewrite Ht in Hok.
        destruct Hok as (turns & Hh & Hall & Hfilter & Hshown & Hinv).
        cbn [history] in Hh. unfold history_ok, send, extend, log.
        cbn [heap CONNECTIONS tasks trace at_ history].
        rewrite lookup_insert_eq. cbn [history].
        exists (turns ++ [(c :: user_text, ai_msg)]).
        rewrite lookup_insert_eq, Hh. cbn [default].
        split; [rewrite recorded_app; reflexivity|].
        split.
        { apply Forall_app. split; [exact Hall|].
          constructor; [exact Htrim|constructor]. }
        trace_simpl. rewrite List.filter_app, Hfilter, List.map_app.
        rewrite !length_app. cbn [length].
        split; [reflexivity|]. split; [|lia].
        apply Forall_app. split.
        -- eapply Forall_impl; [exact Hshown|].
           intros m Hm. apply shown_later. exact Hm.
        -- specialize (Hcall turns Hh).
           eapply Forall_impl; [exact Hcall|].
           intros m Hm. apply shown_later. exact Hm.
      * quiet st ws Ht [error_frame e] [messages]. apply Hcall.
      * quiet st ws Ht (@nil str) [messages]. apply Hcall.
    + destruct (is_Exception e).
      * quiet st ws Ht [error_frame e] (@nil (list BaseMessage)).
      * quiet st ws Ht (@nil str) (@nil (list BaseMessage)).
  - quiet st ws Ht (@nil str) (@nil (list BaseMessage)).
  - quiet st ws Ht (@nil str) (@nil (list BaseMessage)).
  - quiet st ws Ht (@nil str) (@nil (list BaseMessage)).
  - unfold except. destruct (is_Exception e).
    + quiet st ws Ht [error_frame e] (@nil (list BaseMessage)).
    + quiet st ws Ht (@nil str) (@nil (list BaseMessage)).
  - quiet st ws Ht (@nil str) (@nil (list BaseMessage)).
  - quiet st ws Ht (@nil str) (@nil (list BaseMessage)).
  - unfold history_ok in *. rewrite Ht in Hok. unfold on_accept, send.
    cbn [heap CONNECTIONS tasks trace at_ history].
    rewrite lookup_insert_eq. cbn [history].
    exists []. rewrite lookup_insert_eq. trace_simpl. rewrite Hsent, Hok.
    repeat split; constructor.
Qed.

Lemma history_ok_handler (st st' : state) (ws : nat) (ev : event) :
  handler ws ev st = Some st' -> histories_apart st ->
  (forall ws', conn_ok st ws') ->
  (forall ws', history_ok st ws') -> forall ws', history_ok st' ws'.
Proof.
  intros Hstep Hapart Hconn Hok ws'.
  destruct (decide (ws' = ws)) as [->|Hne].
  - eapply history_ok_own; eauto.
  - eapply history_ok_other; eauto.
Qed.

Lemma run_app (schedule schedule' : list (nat * event)) (st : state) :
  run (schedule ++ schedule') st
  = match run schedule st with
    | Some st' => run schedule' st'
    | None => None
    end.
Proof.
  revert st. induction schedule as [|[ws ev] schedule IH]; intros st;
    [reflexivity|].
  cbn [app run]. destruct (handler ws ev st); [apply IH|reflexivity].
Qed.

Lemma reachable_step (st st' : state) (ws : nat) (ev : event) :
  reachable st -> handler ws ev st = Some st' -> reachable st'.
Proof.
  intros [schedule Hrun] Hstep. exists (schedule ++ [(ws, ev)]).
  rewrite run_app, Hrun. cbn [run]. rewrite Hstep. reflexivity.
Qed.

Lemma history_ok_run (schedule : list (nat * event)) (st st' : state) :
  reachable st -> run schedule st = Some st' ->
  (forall ws, history_ok st ws) -> forall ws, history_ok st' ws.
Proof.
  revert st. induction schedule as [|[ws ev] schedule IH];
    intros st Hreach Hrun Hok.
  - injection Hrun as <-. exact Hok.
  - simpl in Hrun. destruct (handler ws ev st) as [st1|] eqn:Hstep;
      [|discriminate Hrun].
    apply (IH st1 (reachable_step st st1 ws ev Hreach Hstep) Hrun).
    eapply history_ok_handler; eauto.
    + apply reachable_histories_apart. exact Hreach.
    + intros ws'. apply reachable_conn_ok. exact Hreach.
Qed.

Lemma reachable_initial : reachable initial.
Proof. exists []. reflexivity. Qed.

Lemma reachable_history_ok (st : state) (ws : nat) :
  reachable st -> history_ok st ws.
Proof.
  intros [schedule Hrun]. revert ws.
  apply (history_ok_run schedule initial st reachable_initial Hrun).
  intros ws. reflexivity.
Qed.

Lemma recorded_length (turns : list (str * BaseMessage)) :
  length (recorded turns) = (2 * length turns)%nat.
Proof.
  unfold recorded. induction turns as [|turn turns IH]; [reflexivity|].
  cbn [flat_map app length]. rewrite IH. lia.
Qed.

(** X14. In every state the process can reach, the history of a
    connection is a sequence of whole exchanges, a user turn followed by
    the reply to it, so its length is even; every user turn is the
    trimmed text and is not empty; the [agent] envelopes handed to the
    socket are exactly the replies recorded, in the same order; and
    every call of the agent made for the connection was given some
    first exchanges of that history, unchanged, followed by one new
    user turn with the suffix: the history only ever grows at its
    end. *)
Theorem history_holds_trimmed_turns_and_sent_replies (st : state) (ws : nat)
    (t : task) :
  reachable st -> tasks st !! ws = Some t ->
  exists turns,
    heap st !! history t = Some (recorded turns)
    /\ (is_open st ws = true -> history_of st ws = Some (recorded turns))
    /\ length (recorded turns) = (2 * length turns)%nat
    /\ Forall (fun turn => trimmed (fst turn)) turns
    /\ List.filter is_agent_frame (sent ws (trace st))
       = List.map (fun turn => agent_frame (content (snd turn))) turns
    /\ Forall (shown turns) (invocations ws (trace st))
    /\ (length turns <= length (invocations ws (trace st)))%nat.
Proof.
  intros Hreach Ht.
  pose proof (reachable_history_ok st ws Hreach) as Hok.
  unfold history_ok in Hok. rewrite Ht in Hok.
  destruct Hok as (turns & Hh & Hall & Hfilter & Hshown & Hinv).
  exists turns. split; [exact Hh|]. split; [|split; [|auto]].
  - unfold is_open. rewrite Ht. intros Hrun.
    destruct (running_history st ws t Hreach Ht Hrun) as (_ & -> & _).
    exact Hh.
  - apply recorded_length.
Qed.

(** *** Frames, one by one and in a row *)

(** Until its next frame, a handler that is not sending an [agent]
    envelope or the greeting hands nothing more to its socket, whatever
    the other handlers do. *)
Lemma settled_is_quiet (later : list (nat * event)) :
  forall (st st' : state) (ws : nat) (t : task),
    tasks st !! ws = Some t -> settled (at_ t) = true ->
    Forall (fun step => fst step = ws -> is_frame (snd step) = false) later ->
    run later st = Some st' ->
    sent ws (trace st') = sent ws (trace st)
    /\ invocations ws (trace st') = invocations ws (trace st).
Proof.
  induction later as [|[ws' ev] later IH]; intros st st' ws t Ht Hp Hlater Hrun.
  - injection Hrun as <-. split; reflexivity.
  - cbn [run] in Hrun.
    destruct (handler ws' ev st) as [st1|] eqn:Hstep; [|discriminate Hrun].
    inversion Hlater as [|? ? Hev Hlater']; subst. cbn [fst snd] in Hev.
    destruct (decide (ws' = ws)) as [->|Hne].
    + specialize (Hev eq_refl).
      unfold handler in Hstep. rewrite Ht in Hstep.
      destruct t as [p h]. cbn [at_ history] in *.
      destruct p, ev; try discriminate Hp; try discriminate Hev;
        try discriminate Hstep; injection Hstep as <-;
        (eapply IH in Hrun as [Hs Hi];
           [|unfold proceed, finally; cbn [tasks]; apply lookup_insert_eq
            |reflexivity|exact Hlater']);
        rewrite Hs, Hi; unfold proceed, finally; cbn [trace];
        trace_simpl; split; reflexivity.
    + destruct (handler_frame st st1 ws' ev Hstep) as (Hother & _).
      destruct (Hother ws (not_eq_sym Hne)) as (Htask & _ & Hs & Hi).
      rewrite <- Htask in Ht.
      destruct (IH st1 st' ws t Ht Hp Hlater' Hrun) as [Hs' Hi'].
      rewrite Hs', Hi', Hs, Hi. split; reflexivity.
Qed.

(** While an [agent] envelope is being sent, the one thing that can
    still go to the socket before the next frame is the [error]
    envelope of the [except] clause, when that send raises. *)
Lemma sending_agent_then (later : list (nat * event)) :
  forall (st st' : state) (ws : nat) (t : task),
    tasks st !! ws = Some t -> at_ t = SendingAgent ->
    Forall (fun step => fst step = ws -> is_frame (snd step) = false) later ->
    run later st = Some st' ->
    invocations ws (trace st') = invocations ws (trace st)
    /\ (sent ws (trace st') = sent ws (trace st)
        \/ exists e,
             is_Exception e = true
             /\ sent ws (trace st') = sent ws (trace st) ++ [error_frame e]).
Proof.
  induction later as [|[ws' ev] later IH]; intros st st' ws t Ht Hp Hlater Hrun.
  - injection Hrun as <-. split; [reflexivity|left; reflexivity].
  - cbn [run] in Hrun.
    destruct (handler ws' ev st) as [st1|] eqn:Hstep; [|discriminate Hrun].
    inversion Hlater as [|? ? Hev Hlater']; subst. cbn [fst snd] in Hev.
    destruct (decide (ws' = ws)) as [->|Hne].
    + unfold handler in Hstep. rewrite Ht in Hstep.
      destruct t as [p h]. cbn [at_ history] in *. subst p.
      destruct ev; try discriminate Hstep; injection Hstep as <-.
      * destruct (settled_is_quiet later
                    (proceed ws (Task SendingAgent h) Receiving st) st' ws
                    (Task Receiving h)) as [Hs Hi];
          [unfold proceed; cbn [tasks]; apply lookup_insert_eq
          |reflexivity|exact Hlater'|exact Hrun|].
        rewrite Hs, Hi. unfold proceed. cbn [trace].
        split; [reflexivity|left; reflexivity].
      * unfold except in Hrun. destruct (is_Exception e) eqn:Hexc.
        -- destruct (settled_is_quiet later _ st' ws (Task SendingError h)
                       (lookup_insert_eq _ _ _) eq_refl Hlater' Hrun)
             as [Hs Hi].
           rewrite Hs, Hi. unfold send. cbn [trace]. trace_simpl.
           split; [reflexivity|]. right. exists e.
           split; [exact Hexc|reflexivity].
        -- destruct (settled_is_quiet later _ st' ws
                       (Task (Propagated e) h)
                       (lookup_insert_eq _ _ _) eq_refl Hlater' Hrun)
             as [Hs Hi].
           rewrite Hs, Hi. unfold finally. cbn [trace]. trace_simpl.
           split; [reflexivity|left; reflexivity].
    + destruct (handler_frame st st1 ws' ev Hstep) as (Hother & _).
      destruct (Hother ws (not_eq_sym Hne)) as (Htask & _ & Hs & Hi).
      rewrite <- Htask in Ht.
      destruct (IH st1 st' ws t Ht Hp Hlater' Hrun) as [Hi' Hs'].
      rewrite Hi', Hi, Hs in *. split; [reflexivity|exact Hs'].
Qed.

(** X12. Whatever an inbound frame holds, the handler that receives it
    calls the agent at most once and, until the next frame of that
    connection, hands at most two envelopes to the socket, whatever the
    other connections do meanwhile.  The resumption that receives the
    frame changes nothing at all (blank text); or hands one [agent] or
    [error] envelope to the socket, the connection staying open and
    registered; or, when the agent call raised something that is not an
    [Exception] (a cancellation, an interrupt), sends nothing, leaves
    and removes the entry in [CONNECTIONS].  After it, the agent is not
    called again, and what went to the socket for the frame is nothing,
    or one [agent] or [error] envelope, or an [agent] envelope whose
    send raised an [Exception] followed by the [error] envelope for
    it. *)
Theorem every_frame_is_answered_by_at_most_two_envelopes (st : state)
    (ws : nat) (t : task) (msg : str) (agent : agent_call) :
  tasks st !! ws = Some t -> at_ t = Receiving ->
  exists st1,
    handler ws (Frame msg agent) st = Some st1
    /\ (length (invocations ws (trace st1))
        <= S (length (invocations ws (trace st))))%nat
    /\ (st1 = st
        \/ (exists f,
              reply_frame f
              /\ sent ws (trace st1) = sent ws (trace st) ++ [f]
              /\ is_open st1 ws = true
              /\ CONNECTIONS st1 = CONNECTIONS st)
        \/ (exists e,
              is_Exception e = false
              /\ sent ws (trace st1) = sent ws (trace st)
              /\ is_closed st1 ws = true
              /\ CONNECTIONS st1 = delete ws (CONNECTIONS st)))
    /\ forall later st',
         Forall (fun step => fst step = ws -> is_frame (snd step) = false)
           later ->
         run later st1 = Some st' ->
         invocations ws (trace st') = invocations ws (trace st1)
         /\ (sent ws (trace st') = sent ws (trace st)
             \/ (exists f,
                   reply_frame f
                   /\ sent ws (trace st') = sent ws (trace st) ++ [f])
             \/ (exists text e,
                   is_Exception e = true
                   /\ sent ws (trace st')
                      = sent ws (trace st)
                        ++ [agent_frame text; error_frame e])).
Proof.
  intros Ht Hat. eexists.
  split; [exact (handler_receiving st ws t msg agent Ht Hat)|].
  destruct t as [p h]. cbn [at_] in Hat. subst p.
  unfold on_message, except.
  destruct (rbind (loads msg) get_text) as [[|c user_text]|e] eqn:Htext.
  - split; [lia|]. split; [left; reflexivity|].
    intros later st' Hlater Hrun.
    destruct (settled_is_quiet later st st' ws _ Ht eq_refl Hlater Hrun)
      as [Hs Hi].
    split; [exact Hi|left; exact Hs].
  - cbn [history].
    destruct (agent _) as [ai_msg|e]; [|destruct (is_Exception e) eqn:He].
    + split; [unfold send, extend, log; cbn [trace]; trace_simpl;
              rewrite ?length_app; cbn [length]; lia|].
      split.
      { right. left. exists (agent_frame (content ai_msg)).
        split; [left; eexists; reflexivity|].
        unfold send, extend, log, is_open. cbn [trace tasks CONNECTIONS].
        rewrite lookup_insert_eq. trace_simpl. auto. }
      intros later st' Hlater Hrun.
      destruct (sending_agent_then later _ st' ws (Task SendingAgent h)
                  (lookup_insert_eq _ _ _) eq_refl Hlater Hrun)
        as [Hi Hs].
      split; [exact Hi|]. right.
      unfold send, extend, log in Hs. cbn [trace] in Hs.
      rewrite !sent_app in Hs. cbn [sent omap list_omap] in Hs.
      rewrite bool_decide_eq_true_2 in Hs by reflexivity.
      cbn [app] in Hs. rewrite app_nil_r in Hs.
      destruct Hs as [Hs|(e & He & Hs)].
      * left. exists (agent_frame (content ai_msg)).
        split; [left; eexists; reflexivity|exact Hs].
      * right. exists (content ai_msg), e. split; [exact He|].
        rewrite Hs, <- app_assoc. reflexivity.
    + split; [unfold send, extend, log; cbn [trace]; trace_simpl;
              rewrite ?length_app; cbn [length]; lia|].
      split.
      { right. left. exists (error_frame e).
        split; [right; eexists; reflexivity|].
        unfold send, extend, log, is_open. cbn [trace tasks CONNECTIONS].
        rewrite lookup_insert_eq. trace_simpl. auto. }
      intros later st' Hlater Hrun.
      destruct (settled_is_quiet later _ st' ws (Task SendingError h)
                  (lookup_insert_eq _ _ _) eq_refl Hlater Hrun)
        as [Hs Hi].
      split; [exact Hi|]. right. left. exists (error_frame e).
      split; [right; eexists; reflexivity|].
      rewrite Hs. unfold send, log. cbn [trace]. trace_simpl. reflexivity.
    + split; [unfold finally, log; cbn [trace]; trace_simpl;
              rewrite ?length_app; cbn [length]; lia|].
      split.
      { right. right. exists e. split; [exact He|].
        unfold finally, log, is_closed. cbn [trace tasks CONNECTIONS].
        rewrite lookup_insert_eq. trace_simpl. auto. }
      intros later st' Hlater Hrun.
      destruct (settled_is_quiet later _ st' ws (Task (Propagated e) h)
                  (lookup_insert_eq _ _ _) eq_refl Hlater Hrun)
        as [Hs Hi].
      split; [exact Hi|]. left.
      rewrite Hs. unfold finally, log. cbn [trace]. trace_simpl.
      reflexivity.
  - assert (He : is_Exception e = true).
    { destruct (loads msg) as [v|e'] eqn:Hloads; simpl in Htext.
      - eapply get_text_raises; eauto.
      - injection Htext as <-. eapply loads_raises_exception; eauto. }
    rewrite He.
    split; [unfold send; cbn [trace]; trace_simpl; lia|].
    split.
    { right. left. exists (error_frame e).
      split; [right; eexists; reflexivity|].
      unfold send, is_open. cbn [trace tasks CONNECTIONS].
      rewrite lookup_insert_eq. trace_simpl. auto. }
    intros later st' Hlater Hrun.
    destruct (settled_is_quiet later _ st' ws (Task SendingError h)
                (lookup_insert_eq _ _ _) eq_refl Hlater Hrun)
      as [Hs Hi].
    split; [exact Hi|]. right. left. exists (error_frame e).
    split; [right; eexists; reflexivity|].
    rewrite Hs. unfold send. cbn [trace]. trace_simpl. reflexivity.
Qed.

(** A handler that waits for a message, with what it holds. *)
Lemma receiving_state (st : state) (ws : nat) (t : task)
    (h : list BaseMessage) :
  reachable st -> tasks st !! ws = Some t -> at_ t = Receiving ->
  history_of st ws = Some h ->
  CONNECTIONS st !! ws = Some (history t) /\ heap st !! history t = Some h.
Proof.
  intros Hreach Ht Hat Hh.
  assert (Hrun : running (at_ t) = true) by (rewrite Hat; reflexivity).
  destruct (running_history st ws t Hreach Ht Hrun) as (Hentry & Hhist & _).
  rewrite Hh in Hhist. auto.
Qed.

(** One exchange, from a handler that waits for a message to the same
    handler waiting again. *)
Lemma exchange_step (st : state) (ws a : nat) (h : list BaseMessage)
    (msg user_text : str) (agent : agent_call) (ai_msg : BaseMessage) :
  tasks st !! ws = Some (Task Receiving a) ->
  CONNECTIONS st !! ws = Some a -> heap st !! a = Some h ->
  valid_envelope msg user_text ->
  agent (h ++ [HumanMessage (user_text ++ no_think)]) = Ok ai_msg ->
  exists st',
    run [(ws, Frame msg agent); (ws, Sent)] st = Some st'
    /\ tasks st' !! ws = Some (Task Receiving a)
    /\ CONNECTIONS st' !! ws = Some a
    /\ heap st' !! a = Some (h ++ [HumanMessage user_text; ai_msg])
    /\ sent ws (trace st')
       = sent ws (trace st) ++ [agent_frame (content ai_msg)]
    /\ invocations ws (trace st')
       = invocations ws (trace st)
         ++ [h ++ [HumanMessage (user_text ++ no_think)]].
Proof.
  intros Ht Hc Hh Hvalid Hagent. cbn [run].
  rewrite (handler_receiving st ws (Task Receiving a) msg agent Ht eq_refl).
  rewrite (on_message_valid st ws (Task Receiving a) msg agent user_text h
             Hvalid Hh).
  rewrite Hagent. cbn [history].
  unfold handler, send at 1. cbn [tasks]. rewrite lookup_insert_eq.
  cbn [at_ history]. eexists. split; [reflexivity|].
  unfold proceed, send, extend, log.
  cbn [tasks CONNECTIONS heap trace].
  rewrite !lookup_insert_eq, Hh. trace_simpl. auto.
Qed.

(** X15. A conversation accumulates.  Through any run of valid frames
    whose agent calls succeed, each call is given all the turns recorded
    before it; at the end the history is the former one followed by two
    turns per frame, one [agent] envelope per frame has been handed to
    the socket, and the handler waits for the next message. *)
Theorem conversation_accumulates (st : state) (ws : nat) (t : task)
    (h h' : list BaseMessage) (inbound : list (str * agent_call))
    (frames : list str) :
  reachable st -> tasks st !! ws = Some t -> at_ t = Receiving ->
  history_of st ws = Some h ->
  dialogue h inbound h' frames ->
  exists st',
    run (exchanges ws inbound) st = Some st'
    /\ history_of st' ws = Some h'
    /\ sent ws (trace st') = sent ws (trace st) ++ frames
    /\ (exists turns, h' = h ++ turns
          /\ length turns = (2 * length inbound)%nat)
    /\ length frames = length inbound
    /\ length (invocations ws (trace st'))
       = (length (invocations ws (trace st)) + length inbound)%nat
    /\ tasks st' !! ws = Some t.
Proof.
  intros Hreach Ht Hat Hh Hdialogue.
  destruct (receiving_state st ws t h Hreach Ht Hat Hh) as [Hc Hheap].
  destruct t as [p a]. cbn [at_ history] in *. subst p.
  clear Hreach Hh. revert st Ht Hc Hheap.
  induction Hdialogue
    as [h|h msg agent user_text ai_msg rest h' frames Hvalid Hagent _ IH];
    intros st Ht Hc Hheap.
  - exists st. split; [reflexivity|].
    unfold history_of. rewrite Hc. cbn. rewrite Hheap, !app_nil_r.
    repeat split; auto. exists []. rewrite app_nil_r. auto.
  - destruct (exchange_step st ws a h msg user_text agent ai_msg
                Ht Hc Hheap Hvalid Hagent)
      as (st1 & Hrun1 & Ht1 & Hc1 & Hh1 & Hsent1 & Hinv1).
    destruct (IH st1 Ht1 Hc1 Hh1)
      as (st' & Hrun & Hhist & Hsent & (turns & -> & Hlen) & Hframes & Hinv
          & Ht').
    exists st'. unfold exchanges in *. cbn [flat_map fst snd].
    change ([(ws, Frame msg agent); (ws, Sent)] ++ ?l)
      with ([(ws, Frame msg agent); (ws, Sent)] ++ l).
    rewrite run_app, Hrun1.
    split; [exact Hrun|]. split; [exact Hhist|].
    split; [rewrite Hsent, Hsent1, <- app_assoc; reflexivity|].
    split.
    { exists ([HumanMessage user_text; ai_msg] ++ turns).
      rewrite <- app_assoc. split; [reflexivity|].
      rewrite length_app. cbn [length]. lia. }
    split; [cbn [length]; lia|].
    split; [|exact Ht'].
    rewrite Hinv, Hinv1, length_app. cbn [length]. lia.
Qed.

(** X16. The history is updated before the reply is sent.  When the
    send of an [agent] envelope raises an [Exception], the exchange is
    already in the history although the client never got the reply; the
    same [except] clause then hands an [error] envelope to the socket
    and the connection stays registered.  When that send raises as
    well, the handler leaves through [finally] and the entry is
    removed. *)
Theorem undelivered_reply_is_recorded (st : state) (ws : nat) (t : task)
    (h : list BaseMessage) (msg user_text : str) (agent : agent_call)
    (ai_msg : BaseMessage) (e : exn) :
  reachable st -> tasks st !! ws = Some t -> at_ t = Receiving ->
  history_of st ws = Some h ->
  valid_envelope msg user_text ->
  agent (h ++ [HumanMessage (user_text ++ no_think)]) = Ok ai_msg ->
  is_Exception e = true ->
  exists st1,
    run [(ws, Frame msg agent); (ws, SendRaised e)] st = Some st1
    /\ is_open st1 ws = true
    /\ history_of st1 ws = Some (h ++ [HumanMessage user_text; ai_msg])
    /\ sent ws (trace st1)
       = sent ws (trace st)
         ++ [agent_frame (content ai_msg); error_frame e]
    /\ forall e',
         exists st2,
           handler ws (SendRaised e') st1 = Some st2
           /\ is_closed st2 ws = true
           /\ CONNECTIONS st2 !! ws = None
           /\ sent ws (trace st2) = sent ws (trace st1)
           /\ heap st2 !! history t
              = Some (h ++ [HumanMessage user_text; ai_msg]).
Proof.
  intros Hreach Ht Hat Hh Hvalid Hagent He.
  destruct (receiving_state st ws t h Hreach Ht Hat Hh) as [Hc Hheap].
  cbn [run].
  rewrite (handler_receiving st ws t msg agent Ht Hat).
  rewrite (on_message_valid st ws t msg agent user_text h Hvalid Hheap).
  rewrite Hagent.
  unfold handler, send at 1. cbn [tasks]. rewrite lookup_insert_eq.
  cbn [at_ history]. unfold except. rewrite He.
  eexists. split; [reflexivity|].
  unfold send, extend, log, is_open, history_of.
  cbn [tasks CONNECTIONS heap trace].
  rewrite !lookup_insert_eq, Hc, Hheap. cbn [mbind option_bind default].
  rewrite lookup_insert_eq.
  trace_simpl. rewrite <- !app_assoc.
  split; [reflexivity|]. split; [reflexivity|]. split; [reflexivity|].
  intros e'. cbn [at_ history]. eexists. split; [reflexivity|].
  unfold finally, is_closed. cbn [tasks CONNECTIONS heap trace].
  rewrite ?lookup_insert_eq, ?lookup_delete_eq. trace_simpl.
  rewrite <- ?app_assoc. auto.
Qed.

(** X13. Connections do not interfere.  Whatever the handlers of the
    other connections do, in any number of steps (accept, receive, call
    the agent, fail, close), the connection [ws] keeps its handler
    state, its entry in [CONNECTIONS], its history, the frames sent to
    it and the agent calls made for it. *)
Theorem other_connections_do_not_interfere (st st' : state) (ws : nat)
    (schedule : list (nat * event)) :
  reachable st -> run schedule st = Some st' ->
  Forall (fun step => fst step <> ws) schedule ->
  tasks st' !! ws = tasks st !! ws
  /\ CONNECTIONS st' !! ws = CONNECTIONS st !! ws
  /\ history_of st' ws = history_of st ws
  /\ sent ws (trace st') = sent ws (trace st)
  /\ invocations ws (trace st') = invocations ws (trace st).
Proof.
  intros Hreach Hrun Hother. revert st Hreach Hrun.
  induction Hother as [|[ws0 ev] schedule Hne _ IH]; intros st Hreach Hrun.
  - injection Hrun as <-. auto.
  - cbn [run] in Hrun. cbn [fst] in Hne.
    destruct (handler ws0 ev st) as [st1|] eqn:Hstep; [|discriminate Hrun].
    destruct (handler_leaves_others st st1 ws0 ws ev Hreach Hstep
                ltac:(congruence)) as (H1 & H2 & H3 & H4 & H5).
    destruct (IH st1 (reachable_step st st1 ws0 ev Hreach Hstep) Hrun)
      as (G1 & G2 & G3 & G4 & G5).
    rewrite G1, G2, G3, G4, G5. auto.
Qed.

(** *** What goes out on the wire *)

Lemma ascii_under_compact (o : dump_opts) (s : str) :
  indent o = None -> ascii_under o s = forallb printable s.
Proof.
  intros Ho. unfold ascii_under. rewrite Ho.
  induction s as [|c s IH]; [reflexivity|].
  cbn [forallb]. rewrite IH, orb_false_r. reflexivity.
Qed.

Lemma literal_scalar (s : str) :
  forallb (fun c => (0 <=? c) && (c <? 128)) s = true -> Forall scalar s.
Proof.
  induction s as [|c s IH]; intros H; constructor.
  - cbn [forallb] in H. apply andb_true_iff in H as [Hc _].
    apply andb_true_iff in Hc as [H0 H1].
    apply Z.leb_le in H0. apply Z.ltb_lt in H1. unfold scalar. lia.
  - cbn [forallb] in H. apply andb_true_iff in H as [_ H]. auto.
Qed.

(** An envelope is sent as one line of printable ASCII, and the client
    reads type and text back. *)
Lemma envelope_frame (type text : str) :
  forallb (fun c => (0 <=? c) && (c <? 128)) type = true ->
  (code_points text = true ->
   forallb printable (dumps compact (envelope type text)) = true)
  /\ (Forall scalar text ->
      loads (dumps compact (envelope type text)) = Ok (envelope type text)).
Proof.
  intros Htype. split.
  - intros Htext. rewrite <- (ascii_under_compact compact) by reflexivity.
    apply encode_ascii; [reflexivity|].
    cbn [envelope plain forallb fst snd]. rewrite Htext.
    assert (Hcp : code_points type = true).
    { clear Htext. induction type as [|c s IH]; [reflexivity|].
      cbn [forallb] in Htype. apply andb_true_iff in Htype as [Hc Hs].
      rewrite code_points_cons, (IH Hs), andb_true_r.
      apply andb_true_iff in Hc as [H0 H1].
      apply Z.leb_le in H0. apply Z.ltb_lt in H1.
      apply code_point_range. lia. }
    rewrite Hcp. reflexivity.
  - intros Htext. apply loads_dumps. unfold envelope. constructor.
    + cbn [List.map fst]. apply NoDup_cons. split.
      * intros Hin. apply list_elem_of_singleton in Hin. discriminate Hin.
      * apply NoDup_singleton.
    + constructor; [|constructor; [|constructor]]; cbn [fst snd].
      * split; [apply literal_scalar; reflexivity|].
        constructor. apply literal_scalar. exact Htype.
      * split; [apply literal_scalar; reflexivity|].
        constructor. exact Htext.
Qed.

(** X17. Every frame the handler hands to a socket is the one-line
    rendering of a JSON object with the two fields ["type"] and
    ["text"], the type being ["system"], ["agent"] or ["error"]; it is
    made of printable ASCII only (no newline, every other character
    escaped), and [json.loads] on it gives the type and the text
    back. *)
Theorem outbound_frames_are_ascii_envelopes (st : state) (ws : nat)
    (f : str) :
  reachable st -> f ∈ sent ws (trace st) ->
  exists type text,
    f = dumps compact (envelope type text)
    /\ (type = lit "system" \/ type = lit "agent" \/ type = lit "error")
    /\ (code_points text = true -> forallb printable f = true)
    /\ (Forall scalar text -> loads f = Ok (envelope type text)).
Proof.
  intros Hreach Hf.
  destruct (reachable_conn_ok st ws Hreach) as [_ _ _ _ _ Hsent].
  assert (Hkind : f = system_frame \/ reply_frame f).
  { destruct (tasks st !! ws).
    - destruct Hsent as (replies & Heq & Hall). rewrite Heq in Hf.
      apply elem_of_cons in Hf as [->|Hf]; [left; reflexivity|].
      right. rewrite Forall_forall in Hall. auto.
    - rewrite Hsent in Hf. apply elem_of_nil in Hf. contradiction. }
  destruct Hkind as [->|[[text ->]|[e ->]]].
  - exists (lit "system"), system_text. split; [reflexivity|].
    split; [auto|]. apply envelope_frame. reflexivity.
  - exists (lit "agent"), text. split; [reflexivity|].
    split; [auto|]. apply envelope_frame. reflexivity.
  - exists (lit "error"), (lit "Server error: " ++ exc_str e).
    split; [reflexivity|]. split; [auto|]. apply envelope_frame.
    reflexivity.
Qed.

Lemma every_frame_is_answered_by_at_most_two_envelopes_witness :
  exists st1,
    handler 0 (Frame (qlit "{'text':'hi'}") echo_agent) greeted = Some st1
    /\ forall st',
         run [(1%nat, Accepted);
              (0%nat, SendRaised (Exn ConnectionClosed
                                    (lit "no close frame received or sent")));
              (0%nat, SendRaised (Exn ConnectionClosed
                                    (lit "no close frame received or sent")))]
           st1 = Some st' ->
         invocations 0 (trace st') = invocations 0 (trace st1)
         /\ (sent 0 (trace st') = sent 0 (trace greeted)
             \/ (exists f,
                   reply_frame f
                   /\ sent 0 (trace st') = sent 0 (trace greeted) ++ [f])
             \/ (exists text e,
                   is_Exception e = true
                   /\ sent 0 (trace st')
                      = sent 0 (trace greeted)
                        ++ [agent_frame text; error_frame e])).
Proof.
  destruct (every_frame_is_answered_by_at_most_two_envelopes greeted 0
              (Task Receiving 0) (qlit "{'text':'hi'}") echo_agent)
    as (st1 & Hstep & _ & _ & Hlater).
  - vm_compute. reflexivity.
  - reflexivity.
  - exists st1. split; [exact Hstep|]. intros st'. apply Hlater.
    repeat constructor; cbn; intros; try reflexivity; discriminate.
Defined.

Lemma other_connections_do_not_interfere_witness :
  exists st',
    run [(1%nat, Accepted); (1%nat, Sent);
         (1%nat, Frame (qlit "{'text':'hi'}") echo_agent)] greeted = Some st'
    /\ history_of st' 0 = Some []
    /\ sent 0 (trace st') = [system_frame]
    /\ invocations 0 (trace st') = [].
Proof.
  assert (Hrun : exists st',
             run [(1%nat, Accepted); (1%nat, Sent);
                  (1%nat, Frame (qlit "{'text':'hi'}") echo_agent)] greeted
             = Some st').
  { eexists. vm_compute. reflexivity. }
  destruct Hrun as [st' Hrun]. exists st'. split; [exact Hrun|].
  destruct (other_connections_do_not_interfere greeted st' 0 _
              ltac:(exists greeted_schedule; vm_compute; reflexivity) Hrun)
    as (_ & _ & Hh & Hs & Hi).
  - repeat constructor; discriminate.
  - rewrite Hh, Hs, Hi. repeat split; vm_compute; reflexivity.
Defined.

Lemma history_holds_trimmed_turns_and_sent_replies_witness :
  exists turns,
    heap busy !! 0%nat = Some (recorded turns)
    /\ length (recorded turns) = (2 * length turns)%nat
    /\ Forall (fun turn => trimmed (fst turn)) turns
    /\ List.filter is_agent_frame (sent 0 (trace busy))
       = List.map (fun turn => agent_frame (content (snd turn))) turns
    /\ Forall (shown turns) (invocations 0 (trace busy)).
Proof.
  destruct (history_holds_trimmed_turns_and_sent_replies busy 0
              (Task Receiving 0))
    as (turns & H1 & _ & H2 & H3 & H4 & H5 & _).
  - exists busy_schedule. vm_compute. reflexivity.
  - vm_compute. reflexivity.
  - exists turns. auto.
Defined.

Lemma undelivered_reply_is_recorded_witness :
  exists st1,
    run [(0%nat, Frame (qlit "{'text':'hi'}") echo_agent);
         (0%nat, SendRaised (Exn ConnectionClosed
                               (lit "no close frame received or sent")))]
      greeted = Some st1
    /\ is_open st1 0 = true
    /\ history_of st1 0
       = Some ([] ++ [HumanMessage (lit "hi"); AIMessage (lit "hello")])
    /\ sent 0 (trace st1)
       = sent 0 (trace greeted)
         ++ [agent_frame (lit "hello");
             error_frame (Exn ConnectionClosed
                            (lit "no close frame received or sent"))].
Proof.
  destruct (undelivered_reply_is_recorded greeted 0 (Task Receiving 0) []
              (qlit "{'text':'hi'}") (lit "hi") echo_agent
              (AIMessage (lit "hello"))
              (Exn ConnectionClosed (lit "no close frame received or sent")))
    as (st1 & H1 & H2 & H3 & H4 & _).
  - exists greeted_schedule. vm_compute. reflexivity.
  - vm_compute. reflexivity.
  - reflexivity.
  - vm_compute. reflexivity.
  - exact hi_envelope_valid.
  - reflexivity.
  - reflexivity.
  - exists st1. auto.
Defined.

Lemma conversation_accumulates_witness :
  exists st',
    run (exchanges 0 [(qlit "{'text':'hi'}", counting_agent);
                      (qlit "{'text': ' more '}", counting_agent)]) greeted
    = Some st'
    /\ history_of st' 0
       = Some [HumanMessage (lit "hi"); AIMessage (lit "1");
               HumanMessage (lit "more"); AIMessage (lit "3")]
    /\ sent 0 (trace st')
       = sent 0 (trace greeted)
         ++ [agent_frame (lit "1"); agent_frame (lit "3")].
Proof.
  destruct (conversation_accumulates greeted 0 (Task Receiving 0) []
              [HumanMessage (lit "hi"); AIMessage (lit "1");
               HumanMessage (lit "more"); AIMessage (lit "3")]
              [(qlit "{'text':'hi'}", counting_agent);
               (qlit "{'text': ' more '}", counting_agent)]
              [agent_frame (lit "1"); agent_frame (lit "3")])
    as (st' & H1 & H2 & H3 & _).
  - exists greeted_schedule. vm_compute. reflexivity.
  - vm_compute. reflexivity.
  - reflexivity.
  - vm_compute. reflexivity.
  - apply (dialogue_turn [] _ counting_agent (lit "hi") (AIMessage (lit "1")));
      [exact hi_envelope_valid|reflexivity|].
    apply (dialogue_turn _ _ counting_agent (lit "more")
             (AIMessage (lit "3")));
      [|reflexivity|apply dialogue_end].
    exists [(lit "text", JStr (lit " more "))], (lit " more ").
    repeat split; try (vm_compute; reflexivity). discriminate.
  - exists st'. auto.
Defined.

Lemma outbound_frames_are_ascii_envelopes_witness :
  let f := error_frame (Exn (OtherException "APIConnectionError")
                          (lit "Connection error.")) in
  exists type text,
    f = dumps compact (envelope type text)
    /\ (type = lit "system" \/ type = lit "agent" \/ type = lit "error")
    /\ (code_points text = true -> forallb printable f = true)
    /\ (Forall scalar text -> loads f = Ok (envelope type text)).
Proof.
  intros f.
  apply (outbound_frames_are_ascii_envelopes busy 1 f).
  - exists busy_schedule. vm_compute. reflexivity.
  - vm_compute. apply list_elem_of_further, list_elem_of_here.
Defined.
